(** * PawPalace server: vaccination normaliser and reminder pass

    A shallow embedding of the vaccination code of [index.js]:
    [vaccineIntervals], [normalizedIntervals], [sendReminderEmail],
    [dedupeVaccinationsArray] and [sendVaccinationReminders], together
    with the parts of the JavaScript [String] and [Date] built-ins they
    call, and the properties of the written specification that concern
    them; then the callers of that code and the routes that write what
    the pass reads: the gates [verifyToken] and [verifyAdmin],
    [POST /users], [PATCH /pet/:id/vaccinations],
    [PUT /adoption/accept/:id] and [POST /purchases]. *)

From Stdlib Require Import ZArith Lia Bool.
From Stdlib Require Import Ascii String.
From stdpp Require Import base list strings gmap.

Local Open Scope Z_scope.

(* ===================================================================== *)
(** * JavaScript strings *)
(* ===================================================================== *)

(** A string is a sequence of code units.  The model covers the code
    units below 256 (ASCII and Latin-1), which [trim] and [toLowerCase]
    map to code units below 256 again. *)
Module JsString.

(** WhiteSpace and LineTerminator code units: TAB, LF, VT, FF, CR, SP
    and NBSP. *)
Definition isWhiteSpace (c : ascii) : bool :=
  let n := N_of_ascii c in
  ((n =? 9) || (n =? 10) || (n =? 11) || (n =? 12) || (n =? 13)
   || (n =? 32) || (n =? 160))%N.

Fixpoint trimStart (s : string) : string :=
  match s with
  | EmptyString => EmptyString
  | String c r => if isWhiteSpace c then trimStart r else s
  end.

Fixpoint trimEnd (s : string) : string :=
  match s with
  | EmptyString => EmptyString
  | String c r =>
      match trimEnd r with
      | EmptyString => if isWhiteSpace c then EmptyString
                       else String c EmptyString
      | r' => String c r'
      end
  end.

(** [String.prototype.trim] *)
Definition trim (s : string) : string := trimEnd (trimStart s).

(** Lower-case mapping of one code unit: A-Z, and the Latin-1 capitals
    U+00C0..U+00DE without the multiplication sign U+00D7. *)
Definition lowerChar (c : ascii) : ascii :=
  let n := N_of_ascii c in
  if ((65 <=? n) && (n <=? 90)
      || (192 <=? n) && (n <=? 222) && negb (n =? 215))%N
  then ascii_of_N (n + 32) else c.

(** [String.prototype.toLowerCase] *)
Fixpoint toLowerCase (s : string) : string :=
  match s with
  | EmptyString => EmptyString
  | String c r => String (lowerChar c) (toLowerCase r)
  end.

(** A property value used as a condition: [undefined], [null] and the
    empty string are falsy, every other string is truthy. *)
Definition truthy (v : option string) : bool :=
  match v with
  | None => false
  | Some s => negb (String.eqb s EmptyString)
  end.

(** [String(v)], which the source applies to truthy values only; on
    those it is the identity. *)
Definition String_ (v : option string) : string :=
  default EmptyString v.

Fixpoint allWhiteSpace (s : string) : bool :=
  match s with
  | EmptyString => true
  | String c r => isWhiteSpace c && allWhiteSpace r
  end.

End JsString.

(* ===================================================================== *)
(** * JavaScript dates *)
(* ===================================================================== *)

(** The [Date] built-in, after the abstract operations of the language
    standard.  A time value is a number of milliseconds since the epoch,
    or NaN ([None]).  Numbers that reach these operations are integers
    or NaN. *)
Module JsDate.

Definition msPerDay : Z := 86400000.
Definition msPerHour : Z := 3600000.
Definition msPerMinute : Z := 60000.
Definition msPerSecond : Z := 1000.

Definition Day (t : Z) : Z := t / msPerDay.
Definition TimeWithinDay (t : Z) : Z := t mod msPerDay.

Definition DaysInYear (y : Z) : Z :=
  if negb (y mod 4 =? 0) then 365
  else if negb (y mod 100 =? 0) then 366
  else if negb (y mod 400 =? 0) then 365
  else 366.

Definition DayFromYear (y : Z) : Z :=
  365 * (y - 1970) + (y - 1969) / 4 - (y - 1901) / 100 + (y - 1601) / 400.

Definition TimeFromYear (y : Z) : Z := msPerDay * DayFromYear y.

(** The largest [y] with [TimeFromYear y <= t]: the quotient by the mean
    length of a year is off by one at most. *)
Definition YearFromDay (d : Z) : Z :=
  let y := 1970 + (400 * d) / 146097 in
  if DayFromYear (y + 1) <=? d then y + 1
  else if DayFromYear y <=? d then y
  else y - 1.

Definition YearFromTime (t : Z) : Z := YearFromDay (Day t).

Definition InLeapYear (t : Z) : Z :=
  if DaysInYear (YearFromTime t) =? 366 then 1 else 0.

Definition DayWithinYear (t : Z) : Z := Day t - DayFromYear (YearFromTime t).

(** Day within the year on which month [m] (0 to 11) starts. *)
Definition monthStart (m leap : Z) : Z :=
  if m =? 0 then 0
  else if m =? 1 then 31
  else if m =? 2 then 59 + leap
  else if m =? 3 then 90 + leap
  else if m =? 4 then 120 + leap
  else if m =? 5 then 151 + leap
  else if m =? 6 then 181 + leap
  else if m =? 7 then 212 + leap
  else if m =? 8 then 243 + leap
  else if m =? 9 then 273 + leap
  else if m =? 10 then 304 + leap
  else 334 + leap.

Definition MonthFromTime (t : Z) : Z :=
  let d := DayWithinYear t in
  let leap := InLeapYear t in
  if d <? 31 then 0
  else if d <? 59 + leap then 1
  else if d <? 90 + leap then 2
  else if d <? 120 + leap then 3
  else if d <? 151 + leap then 4
  else if d <? 181 + leap then 5
  else if d <? 212 + leap then 6
  else if d <? 243 + leap then 7
  else if d <? 273 + leap then 8
  else if d <? 304 + leap then 9
  else if d <? 334 + leap then 10
  else 11.

Definition DateFromTime (t : Z) : Z :=
  DayWithinYear t - monthStart (MonthFromTime t) (InLeapYear t) + 1.

Definition HourFromTime (t : Z) : Z := (t / msPerHour) mod 24.
Definition MinFromTime (t : Z) : Z := (t / msPerMinute) mod 60.
Definition SecFromTime (t : Z) : Z := (t / msPerSecond) mod 60.
Definition msFromTime (t : Z) : Z := t mod msPerSecond.

(** [MakeDay(year, month, date)]: the day number of the first of the
    month, plus [date - 1]. *)
Definition MakeDay (year month dt : Z) : Z :=
  let ym := year + month / 12 in
  let mn := month mod 12 in
  let leap := if DaysInYear ym =? 366 then 1 else 0 in
  DayFromYear ym + monthStart mn leap + dt - 1.

Definition MakeDate (day time : Z) : Z := day * msPerDay + time.

Definition TimeClip (time : Z) : option Z :=
  if Z.abs time >? 8640000000000000 then None else Some time.

(** A [Date] object holds a time value; the code never shares one
    between two variables ([new Date(d)] copies), so a date is the value
    itself. *)
Definition Date := option Z.

(** What the host contributes: the offset of local time (taken constant
    over the dates at hand), [Date.parse], and the [MAIL_USER] variable
    of the process environment. *)
Record Host := mkHost {
  LocalTZA : Z;
  Date_parse : string -> option Z;
  MAIL_USER : string
}.

Section WithHost.
Variable host : Host.

Definition LocalTime (t : Z) : Z := t + LocalTZA host.
Definition UTC (t : Z) : Z := t - LocalTZA host.

(** [new Date(v)] for a string property [v]; the source guards every
    use by the truthiness of [v]. *)
Definition ofString (v : option string) : Date :=
  match v with
  | Some s => match Date_parse host s with
              | Some tv => TimeClip tv
              | None => None
              end
  | None => None
  end.

(** [new Date(d)] for a date [d] *)
Definition copy (d : Date) : Date :=
  match d with
  | Some tv => TimeClip tv
  | None => None
  end.

Definition getTime (d : Date) : option Z := d.

Definition getDate (d : Date) : option Z :=
  match d with
  | Some t => Some (DateFromTime (LocalTime t))
  | None => None
  end.

Definition setDate (d : Date) (dt : option Z) : Date :=
  match d, dt with
  | Some t, Some dt =>
      let t := LocalTime t in
      let newDate :=
        MakeDate (MakeDay (YearFromTime t) (MonthFromTime t) dt)
                 (TimeWithinDay t) in
      TimeClip (UTC newDate)
  | _, _ => None
  end.

End WithHost.

(** [a > b] on two dates: the time values are compared, and a
    comparison with NaN is false. *)
Definition gt (a b : Date) : bool :=
  match a, b with
  | Some x, Some y => y <? x
  | _, _ => false
  end.

(** [x + n] on numbers *)
Definition plus (x : option Z) (n : Z) : option Z :=
  match x with
  | Some v => Some (v + n)
  | None => None
  end.

Definition isNaN (x : option Z) : bool :=
  match x with
  | Some _ => false
  | None => true
  end.

(** ** toISOString *)

Definition digit (n : Z) : ascii := ascii_of_N (48 + Z.to_N (n mod 10)).

Definition pad2 (n : Z) (k : string) : string :=
  String (digit (n / 10)) (String (digit n) k).

Definition pad3 (n : Z) (k : string) : string :=
  String (digit (n / 100)) (pad2 n k).

Definition pad4 (n : Z) (k : string) : string :=
  String (digit (n / 1000)) (pad3 n k).

Definition pad6 (n : Z) (k : string) : string :=
  String (digit (n / 100000)) (String (digit (n / 10000)) (pad4 n k)).

(** Four digits for the years 0 to 9999, a sign and six digits for the
    others; [k] is the rest of the string. *)
Definition yearString (y : Z) (k : string) : string :=
  if (0 <=? y) && (y <=? 9999) then pad4 y k
  else if y <? 0 then String "-" (pad6 (Z.abs y) k)
  else String "+" (pad6 y k).

(** The part of the ISO string before the [T]: YYYY-MM-DD. *)
Definition isoDate (t : Z) : string :=
  yearString (YearFromTime t)
    (String "-" (pad2 (MonthFromTime t + 1)
       (String "-" (pad2 (DateFromTime t) EmptyString)))).

Definition isoTime (t : Z) : string :=
  pad2 (HourFromTime t) (String ":" (pad2 (MinFromTime t)
    (String ":" (pad2 (SecFromTime t) (String "." (pad3 (msFromTime t)
      (String "Z" EmptyString))))))).

(** [d.toISOString()]; it throws a RangeError on an invalid date
    ([None] here). *)
Definition toISOString (d : Date) : option string :=
  match d with
  | Some t => Some (String.append (isoDate t) (String "T" (isoTime t)))
  | None => None
  end.

(** [s.split('T')[0]] *)
Fixpoint splitT0 (s : string) : string :=
  match s with
  | EmptyString => EmptyString
  | String c r => if Ascii.eqb c "T" then EmptyString
                  else String c (splitT0 r)
  end.

(** A string without the letter T. *)
Fixpoint noT (s : string) : bool :=
  match s with
  | EmptyString => true
  | String c r => negb (Ascii.eqb c "T") && noT r
  end.

(** The years that [toISOString] writes with four digits. *)
Definition fourDigitYear (t : Z) : Prop := 0 <= YearFromTime t <= 9999.

(** ** Date.parse on the date-only form *)

Definition digitValue (c : ascii) : option Z :=
  let n := Z.of_N (N_of_ascii c) in
  if (48 <=? n) && (n <=? 57) then Some (n - 48) else None.

Definition DaysInMonth (y m : Z) : Z :=
  let leap := if DaysInYear y =? 366 then 1 else 0 in
  if m =? 11 then 31 else monthStart (m + 1) leap - monthStart m leap.

(** The time value of a string of the form YYYY-MM-DD that names a day
    of the calendar: midnight UTC of that day.  The standard leaves the
    result on other strings to the engine; this parser answers NaN on
    them. *)
Definition parseDateOnly (s : string) : option Z :=
  match s with
  | String y1 (String y2 (String y3 (String y4 (String "-"
      (String m1 (String m2 (String "-"
        (String d1 (String d2 EmptyString))))))))) =>
      match digitValue y1, digitValue y2, digitValue y3, digitValue y4,
            digitValue m1, digitValue m2, digitValue d1, digitValue d2 with
      | Some a, Some b, Some c, Some d, Some e, Some f, Some g, Some h =>
          let y := 1000 * a + 100 * b + 10 * c + d in
          let m := 10 * e + f in
          let dd := 10 * g + h in
          if (1 <=? m) && (m <=? 12) && (1 <=? dd)
             && (dd <=? DaysInMonth y (m - 1))
          then Some (MakeDate (MakeDay y (m - 1) dd) 0)
          else None
      | _, _, _, _, _, _, _, _ => None
      end
  | _ => None
  end.

(** A host on UTC with that parser. *)
Definition utcHost : Host :=
  {| LocalTZA := 0; Date_parse := parseDateOnly;
     MAIL_USER := "pawpalace@example.com" |}.

End JsDate.
(* ===================================================================== *)
(** * Data model *)
(* ===================================================================== *)

(** One element of a [vaccinations] array, [{ vaccineType, date }].
    Both properties hold strings; [None] stands for a property that is
    missing, [undefined] or [null]. *)
Record Vaccination := mkVaccination {
  vaccineType : option string;
  date : option string
}.

Global Instance Vaccination_eq_dec : EqDecision Vaccination.
Proof. solve_decision. Defined.

(** An array of vaccinations as it arrives in a request body or is read
    from the store: an element may itself be [null] ([None]). *)
Definition VaccinationArray := list (option Vaccination).

(** [String(v.vaccineType).trim().toLowerCase()] *)
Definition typeKey (t : string) : string :=
  JsString.toLowerCase (JsString.trim t).

(* ===================================================================== *)
(** * dedupeVaccinationsArray *)
(* ===================================================================== *)

(** The [for ... of] loop of [dedupeVaccinationsArray], with its two
    local variables [seen] (a [Set]) and [unique] (an array that grows
    by [push]) passed along. *)
Fixpoint dedupe_loop (vaccinations : VaccinationArray)
    (seen : gset string) (unique : list Vaccination) : list Vaccination :=
  match vaccinations with
  | [] => unique
  | v :: rest =>
      match v with
      | None => dedupe_loop rest seen unique                 (* !v *)
      | Some e =>
          if negb (JsString.truthy (vaccineType e))          (* !v.vaccineType *)
          then dedupe_loop rest seen unique
          else
            let t := JsString.String_ (vaccineType e) in
            let key := typeKey t in
            if decide (key ∈ seen)
            then dedupe_loop rest seen unique
            else dedupe_loop rest ({[ key ]} ∪ seen)
                   (unique ++ [ {| vaccineType := Some (JsString.trim t);
                                   date := date e |} ])
      end
  end.

Definition dedupeVaccinationsArray (vaccinations : VaccinationArray)
  : list Vaccination :=
  dedupe_loop vaccinations ∅ [].

(** An array that was returned by [dedupeVaccinationsArray], passed to
    it again. *)
Definition asArray (l : list Vaccination) : VaccinationArray := Some <$> l.

(** The key under which the loop files an element; elements the guard
    skips have none. *)
Definition inKey (v : option Vaccination) : option string :=
  match v with
  | Some {| vaccineType := Some t |} =>
      if JsString.truthy (Some t) then Some (typeKey t) else None
  | _ => None
  end.

(** The entry pushed for an element that is kept. *)
Definition kept (v : option Vaccination) : Vaccination :=
  match v with
  | Some e => {| vaccineType := Some (JsString.trim
                                  (JsString.String_ (vaccineType e)));
                 date := date e |}
  | None => {| vaccineType := None; date := None |}
  end.

(** The case-folded trimmed vaccine type of an entry of the result. *)
Definition outKey (u : Vaccination) : option string :=
  typeKey <$> vaccineType u.

(** The entries the loop still appends, given what it has seen. *)
Fixpoint dedupe_from (seen : gset string) (vs : VaccinationArray)
  : list Vaccination :=
  match vs with
  | [] => []
  | v :: rest =>
      match inKey v with
      | None => dedupe_from seen rest
      | Some k =>
          if decide (k ∈ seen) then dedupe_from seen rest
          else kept v :: dedupe_from ({[ k ]} ∪ seen) rest
      end
  end.

Definition hasOutKey (k : string) (u : Vaccination) : bool :=
  bool_decide (outKey u = Some k).

Definition hasInKey (k : string) (v : option Vaccination) : bool :=
  bool_decide (inKey v = Some k).


(* ===================================================================== *)
(** * The document store and the mail transport *)
(* ===================================================================== *)

(** A document of the [pet] collection; [vaccinations] may be missing. *)
Record Pet := mkPet {
  _id : string;                         (* pet._id.toString() *)
  pet_name : string;
  vaccinations : option VaccinationArray
}.

(** A document of the [adoptionRequest] collection. *)
Record Adoption := mkAdoption {
  adoption_petId : string;
  status : string;
  adopterEmail : option string
}.

(** A document of the [purchases] collection. *)
Record Purchase := mkPurchase {
  purchase_petId : string;
  buyerEmail : option string
}.

(** The three collections the pass reads, each with the queries on
    which the driver rejects (connection lost, timeout, ...). *)
Record Store := mkStore {
  petCollection : list Pet;
  adoptionCollection : list Adoption;
  purchasesCollection : list Purchase;
  petQueryFails : bool;
  adoptionQueryFails : string -> bool;
  purchaseQueryFails : string -> bool
}.

(** The [mailOptions] handed to [transporter.sendMail]. *)
Record Mail := mkMail {
  from : string;
  to : string;
  subject : string;
  text : string
}.

(** What a due check found: the pet, the key of the interval table, the
    dose it selected and the date string it computed. *)
Record DueEvent := mkDueEvent {
  due_pet : Pet;
  due_key : string;
  due_latest : Vaccination;
  due_date : string
}.

(** Lines written with [console.log] and [console.error]. *)
Inductive LogLine :=
| NoRecipient (petName vaccineType vaccineDate : string)
| EmailFailed (m : Mail)
| EmailSent (m : Mail)
| QueuedForAdopter (email petName vaccineType due : string)
| NoAcceptedAdopter (petName vaccineType : string)
| QueuedForBuyer (email petName vaccineType due : string)
| NoPurchaseRecord (petName vaccineType : string)
| ErrorInSendingReminders.

(** What a pass does, in order.  [Due] is not an action of the program:
    it marks the point where control enters the branch that notifies
    ([if (nextDueDateStr >= tomorrowStr && ...)]).  The callback of
    [sendMail] runs after the pass; its line is listed right after the
    [SendMail] it belongs to. *)
Inductive Effect :=
| FindPets
| Due (ev : DueEvent)
| FindAdoption (petId : string)
| FindPurchase (petId : string)
| SendMail (m : Mail)
| Log (l : LogLine).

Inductive Exn :=
| RangeError                       (* toISOString of an invalid date *)
| StoreError.                      (* a rejected query *)

Inductive Res (A : Type) :=
| Ok (a : A)
| Throw (e : Exn).
Arguments Ok {A} a.
Arguments Throw {A} e.

(** Computations that act and may throw: the effects so far, and the
    value or the exception. *)
Definition M (A : Type) : Type := (list Effect * Res A)%type.

Definition ret {A} (a : A) : M A := ([], Ok a).

Definition bind {A B} (m : M A) (f : A -> M B) : M B :=
  match m with
  | (t, Ok a) => let '(t', r) := f a in (t ++ t', r)
  | (t, Throw e) => (t, Throw e)
  end.

Definition tell (e : Effect) : M unit := ([e], Ok tt).

Definition throw {A} (e : Exn) : M A := ([], Throw e).

(** [try { m } catch (error) { h }] *)
Definition try_catch {A} (m : M A) (h : Exn -> M A) : M A :=
  match m with
  | (t, Ok a) => (t, Ok a)
  | (t, Throw e) => let '(t', r) := h e in (t ++ t', r)
  end.

Declare Scope js_scope.
Delimit Scope js_scope with js.
Notation "x <- m ;; k" := (bind m (fun x => k))
  (at level 100, m at next level, k at level 200, right associativity)
  : js_scope.
Notation "m ;; k" := (bind m (fun _ => k))
  (at level 100, k at level 200, right associativity) : js_scope.
Local Open Scope js_scope.

(** [for (const x of l) body] *)
Fixpoint forOf {A} (l : list A) (body : A -> M unit) : M unit :=
  match l with
  | [] => ret tt
  | x :: rest => body x ;; forOf rest body
  end.

Definition trace {A} (m : M A) : list Effect := fst m.
Definition result {A} (m : M A) : Res A := snd m.

(* ===================================================================== *)
(** * The interval table *)
(* ===================================================================== *)

(** An object with string keys, as its entries in insertion order (none
    of the keys used is an array index). *)
Definition Obj := list (string * Z).

(** [o[k] = v]: an existing key keeps its place. *)
Fixpoint obj_set (o : Obj) (k : string) (v : Z) : Obj :=
  match o with
  | [] => [(k, v)]
  | (k', v') :: rest =>
      if String.eqb k' k then (k', v) :: rest
      else (k', v') :: obj_set rest k v
  end.

Definition vaccineIntervals : Obj :=
  [ ("Rabies", 365);
    ("Canine Distemper Virus", 365);
    ("Canine Adenovirus (Hepatitis)", 365);
    ("Canine Parvovirus", 365);
    ("Canine Parainfluenza Virus", 365);
    ("Bordetella (Kennel Cough)", 180);
    ("Leptospirosis", 365);
    ("Canine Influenza", 365);
    ("Lyme Disease", 365);
    ("Feline Viral Rhinotracheitis (FHV-1)", 365);
    ("Feline Calicivirus (FCV)", 365);
    ("Feline Panleukopenia (FPV)", 365);
    ("Feline Leukemia Virus (FeLV)", 365);
    ("Feline Immunodeficiency Virus (FIV)", 365);
    ("Chlamydophila felis", 365);
    ("Myxomatosis", 365);
    ("Rabbit Haemorrhagic Disease (RHDV1 & RHDV2)", 365);
    ("Avian Polyomavirus (rare cases)", 365);
    ("Pigeon Pox (specific species)", 365);
    ("Spring Viremia of Carp (SVC)", 365);
    ("Aeromonas Vaccine", 365) ].

(** [Object.keys(table).forEach(k => { normalized[k.toLowerCase()] =
    table[k]; })], starting from the empty object. *)
Definition normalizeIntervals (table : Obj) : Obj :=
  fold_left (fun normalized '(k, v) =>
               obj_set normalized (JsString.toLowerCase k) v)
            table [].

Definition normalizedIntervals : Obj := normalizeIntervals vaccineIntervals.

(* ===================================================================== *)
(** * sendReminderEmail and sendVaccinationReminders *)
(* ===================================================================== *)

Definition dq : string := String "034" EmptyString.
Definition nl : string := String "010" EmptyString.

Definition reminderSubject (petName : string) : string :=
  String.append "Vaccination Reminder for " petName.

Definition reminderText (petName vaccineType vaccineDate : string) : string :=
  String.concat EmptyString
    [ "Hello,"; nl; nl; "This is a reminder that your pet "; dq; petName; dq;
      " needs the "; dq; vaccineType; dq; " vaccine on "; vaccineDate; ".";
      nl; nl; "Regards,"; nl; "PawPalace" ].

Global Instance Pet_eq_dec : EqDecision Pet.
Proof. solve_decision. Defined.

Global Instance Mail_eq_dec : EqDecision Mail.
Proof. solve_decision. Defined.

Global Instance DueEvent_eq_dec : EqDecision DueEvent.
Proof. solve_decision. Defined.

(** The mail a reminder consists of. *)
Definition reminder (host : JsDate.Host)
    (recipient petName vaccineType vaccineDate : string) : Mail :=
  {| from := JsDate.MAIL_USER host;
     to := recipient;
     subject := reminderSubject petName;
     text := reminderText petName vaccineType vaccineDate |}.

(** The document [findOne] answers with: the first that matches. *)
Definition acceptedAdoptionOf (db : Store) (petId : string) : option Adoption :=
  List.find (fun a => String.eqb (adoption_petId a) petId
                      && String.eqb (status a) "accepted")
            (adoptionCollection db).

Definition purchaseOf (db : Store) (petId : string) : option Purchase :=
  List.find (fun p => String.eqb (purchase_petId p) petId)
            (purchasesCollection db).

(** The documents [find({ vaccinations: { $exists: true, $ne: [] } })]
    answers with: the pets whose [vaccinations] exist and are not the
    empty array. *)
Definition petsWithVaccinations (db : Store) : list Pet :=
  List.filter (fun p => match vaccinations p with
                        | Some (_ :: _) => true
                        | _ => false
                        end)
              (petCollection db).

Section Pass.
Variable host : JsDate.Host.
Variable db : Store.
(** Whether the transport delivers a mail; when it does not, the
    callback receives the error. *)
Variable delivers : Mail -> bool.
(** The entries of the normalised interval table.  The source reads
    the global [normalizedIntervals]; the table is passed here, so that
    the pass can be run on other tables as well. *)
Variable intervals : Obj.

Definition sendReminderEmail (recipient : option string)
    (petName vaccineType vaccineDate : string) : M unit :=
  if negb (JsString.truthy recipient) then
    tell (Log (NoRecipient petName vaccineType vaccineDate))
  else
    let mailOptions :=
      reminder host (JsString.String_ recipient) petName vaccineType
               vaccineDate in
    tell (SendMail mailOptions) ;;
    tell (Log (if delivers mailOptions then EmailSent mailOptions
               else EmailFailed mailOptions)).

(** [petCollection.find({ vaccinations: { $exists: true, $ne: [] } })
    .toArray()] *)
Definition findPets : M (list Pet) :=
  tell FindPets ;;
  if petQueryFails db then throw StoreError
  else ret (petsWithVaccinations db).

(** [adoptionCollection.findOne({ petId, status: 'accepted' })] *)
Definition findAcceptedAdoption (petId : string) : M (option Adoption) :=
  tell (FindAdoption petId) ;;
  if adoptionQueryFails db petId then throw StoreError
  else ret (acceptedAdoptionOf db petId).

(** [purchasesCollection.findOne({ petId })] *)
Definition findPurchase (petId : string) : M (option Purchase) :=
  tell (FindPurchase petId) ;;
  if purchaseQueryFails db petId then throw StoreError
  else ret (purchaseOf db petId).

(** The callback of the [filter]: the element when it is kept. *)
Definition ofType (vaccineKeyLower : string) (v : option Vaccination)
  : option Vaccination :=
  match v with
  | None => None
  | Some e =>
      if negb (JsString.truthy (vaccineType e))
         || negb (JsString.truthy (date e))
      then None
      else if String.eqb (typeKey (JsString.String_ (vaccineType e)))
                         vaccineKeyLower
      then Some e else None
  end.

Definition entriesForType (pet : Pet) (vaccineKeyLower : string)
  : list Vaccination :=
  omap (ofType vaccineKeyLower) (default [] (vaccinations pet)).

(** The callback of the [reduce] *)
Definition later (latest current : Vaccination) : Vaccination :=
  if JsDate.gt (JsDate.ofString host (date current))
               (JsDate.ofString host (date latest))
  then current else latest.

(** [d.toISOString().split('T')[0]] *)
Definition isoDay (d : JsDate.Date) : M string :=
  match JsDate.toISOString d with
  | Some s => ret (JsDate.splitT0 s)
  | None => throw RangeError
  end.

(** The branch that notifies. *)
Definition notify (pet : Pet) (latestForType : Vaccination)
    (nextDueDateStr : string) : M unit :=
  let vaccine := JsString.String_ (vaccineType latestForType) in
  adoption <- findAcceptedAdoption (_id pet) ;;
  (if JsString.truthy (adoption ≫= adopterEmail) then
     sendReminderEmail (adoption ≫= adopterEmail) (pet_name pet) vaccine
                       nextDueDateStr ;;
     tell (Log (QueuedForAdopter
                  (JsString.String_ (adoption ≫= adopterEmail))
                  (pet_name pet) vaccine nextDueDateStr))
   else tell (Log (NoAcceptedAdopter (pet_name pet) vaccine))) ;;
  purchase <- findPurchase (_id pet) ;;
  (if JsString.truthy (purchase ≫= buyerEmail) then
     sendReminderEmail (purchase ≫= buyerEmail) (pet_name pet) vaccine
                       nextDueDateStr ;;
     tell (Log (QueuedForBuyer
                  (JsString.String_ (purchase ≫= buyerEmail))
                  (pet_name pet) vaccine nextDueDateStr))
   else tell (Log (NoPurchaseRecord (pet_name pet) vaccine))).

(** The body of the loop over the entries of the interval table. *)
Definition checkType (tomorrowStr dayAfterTomorrowStr : string) (pet : Pet)
    (entry : string * Z) : M unit :=
  let '(vaccineKeyLower, intervalDays) := entry in
  match entriesForType pet vaccineKeyLower with
  | [] => ret tt                                              (* continue *)
  | (first :: _) as entries =>
      let latestForType := fold_left later entries first in
      let lastDate := JsDate.ofString host (date latestForType) in
      if JsDate.isNaN (JsDate.getTime lastDate) then ret tt   (* continue *)
      else
        let nextDueDate := JsDate.copy lastDate in
        let nextDueDate :=
          JsDate.setDate host nextDueDate
            (JsDate.plus (JsDate.getDate host nextDueDate) intervalDays) in
        nextDueDateStr <- isoDay nextDueDate ;;
        if String.leb tomorrowStr nextDueDateStr
           && String.ltb nextDueDateStr dayAfterTomorrowStr
        then
          tell (Due {| due_pet := pet; due_key := vaccineKeyLower;
                       due_latest := latestForType;
                       due_date := nextDueDateStr |}) ;;
          notify pet latestForType nextDueDateStr
        else ret tt
  end.

(** One pass, started at the instant [now]. *)
Definition sendVaccinationReminders (now : Z) : M unit :=
  try_catch
    (let tomorrow : JsDate.Date := Some now in
     let tomorrow :=
       JsDate.setDate host tomorrow
         (JsDate.plus (JsDate.getDate host tomorrow) 1) in
     tomorrowStr <- isoDay tomorrow ;;
     let dayAfterTomorrow := JsDate.copy tomorrow in
     let dayAfterTomorrow :=
       JsDate.setDate host dayAfterTomorrow
         (JsDate.plus (JsDate.getDate host dayAfterTomorrow) 1) in
     dayAfterTomorrowStr <- isoDay dayAfterTomorrow ;;
     pets <- findPets ;;
     forOf pets (fun pet =>
       forOf intervals (checkType tomorrowStr dayAfterTomorrowStr pet)))
    (fun error => tell (Log ErrorInSendingReminders)).

End Pass.

(** ** Reading a trace *)

Definition dueEvents (t : list Effect) : list DueEvent :=
  omap (fun e => match e with Due ev => Some ev | _ => None end) t.

Definition mailsSent (t : list Effect) : list Mail :=
  omap (fun e => match e with SendMail m => Some m | _ => None end) t.

(** Whether the handler of the pass ran. *)
Definition erred (t : list Effect) : bool :=
  existsb (fun e => match e with
                    | Log ErrorInSendingReminders => true
                    | _ => false
                    end) t.

(** ** The due check in closed form

    What [checkType] decides before it notifies, with the date
    arithmetic carried out: the event when the branch is entered.  The
    lemmas [checkType_dueEvents] and [pass_dueEvents] below relate it
    to the traces of the program. *)

Section DueCheck.
Variable host : JsDate.Host.
Variable intervals : Obj.

Definition dueCheck (tomorrowStr dayAfterTomorrowStr : string) (pet : Pet)
    (entry : string * Z) : option DueEvent :=
  match entriesForType pet (fst entry) with
  | [] => None
  | (first :: _) as entries =>
      let latestForType := fold_left (later host) entries first in
      match JsDate.ofString host (date latestForType) with
      | None => None
      | Some lastDate =>
          match JsDate.TimeClip (lastDate + snd entry * JsDate.msPerDay) with
          | None => None
          | Some nextDueDate =>
              let nextDueDateStr := JsDate.isoDate nextDueDate in
              if String.leb tomorrowStr nextDueDateStr
                 && String.ltb nextDueDateStr dayAfterTomorrowStr
              then Some {| due_pet := pet; due_key := fst entry;
                           due_latest := latestForType;
                           due_date := nextDueDateStr |}
              else None
          end
      end
  end.

(** The date strings of tomorrow and of the day after, for a pass that
    starts at [now]. *)
Definition window (now : Z) : option (string * string) :=
  match JsDate.TimeClip (now + 1 * JsDate.msPerDay) with
  | None => None
  | Some tomorrow =>
      match JsDate.TimeClip (tomorrow + 1 * JsDate.msPerDay) with
      | None => None
      | Some dayAfterTomorrow =>
          Some (JsDate.isoDate tomorrow, JsDate.isoDate dayAfterTomorrow)
      end
  end.

(** Every event of a pass that nothing interrupts, in order. *)
Definition allDue (db : Store) (now : Z) : list DueEvent :=
  match window now with
  | None => []
  | Some (tomorrowStr, dayAfterTomorrowStr) =>
      pet ← petsWithVaccinations db;
      entry ← intervals;
      option_list (dueCheck tomorrowStr dayAfterTomorrowStr pet entry)
  end.

End DueCheck.

(** ** Mails and failures in a trace *)

(** The reminder an event calls for when the adoption found for its pet
    carries an address, and likewise for the purchase found. *)
Definition adopterReminder (host : JsDate.Host) (db : Store) (ev : DueEvent)
  : option Mail :=
  let email := acceptedAdoptionOf db (_id (due_pet ev)) ≫= adopterEmail in
  if JsString.truthy email
  then Some (reminder host (JsString.String_ email) (pet_name (due_pet ev))
               (JsString.String_ (vaccineType (due_latest ev))) (due_date ev))
  else None.

Definition buyerReminder (host : JsDate.Host) (db : Store) (ev : DueEvent)
  : option Mail :=
  let email := purchaseOf db (_id (due_pet ev)) ≫= buyerEmail in
  if JsString.truthy email
  then Some (reminder host (JsString.String_ email) (pet_name (due_pet ev))
               (JsString.String_ (vaccineType (due_latest ev))) (due_date ev))
  else None.

Definition remindersFor (host : JsDate.Host) (db : Store) (ev : DueEvent)
  : list Mail :=
  option_list (adopterReminder host db ev)
  ++ option_list (buyerReminder host db ev).

(** A query that the store rejects. *)
Definition rejected (db : Store) (e : Effect) : bool :=
  match e with
  | FindPets => petQueryFails db
  | FindAdoption petId => adoptionQueryFails db petId
  | FindPurchase petId => purchaseQueryFails db petId
  | _ => false
  end.

(** The line the callback of [sendMail] writes. *)
Definition isCallbackLine (e : Effect) : bool :=
  match e with
  | Log (EmailSent _) | Log (EmailFailed _) => true
  | _ => false
  end.

Definition withoutCallbackLines (t : list Effect) : list Effect :=
  List.filter (fun e => negb (isCallbackLine e)) t.

(** The mails of a trace are among the reminders its events call for,
    in order. *)
Definition mailsAccounted (host : JsDate.Host) (db : Store) (t : list Effect)
  : Prop :=
  mailsSent t `sublist_of` (dueEvents t ≫= remindersFor host db).

(** The pair an event stands for. *)
Definition pairOf (ev : DueEvent) : string * string :=
  (_id (due_pet ev), due_key ev).

(** An event for a given pet and key of the table. *)
Definition forPair (pet : Pet) (key : string) (ev : DueEvent) : Prop :=
  due_pet ev = pet /\ due_key ev = key.

Global Instance forPair_dec pet key ev : Decision (forPair pet key ev).
Proof. unfold forPair. apply _. Defined.

(** Two runs that end alike and differ at most in the lines of the
    [sendMail] callbacks. *)
Definition sameButCallbacks {A} (m1 m2 : M A) : Prop :=
  result m1 = result m2 /\
  withoutCallbackLines (trace m1) = withoutCallbackLines (trace m2).

(** A computation that throws as soon as the store rejects a query:
    the rejected query is its last effect. *)
Definition stopsAtRejection (db : Store) {A} (m : M A) : Prop :=
  forall pre e post,
    trace m = pre ++ e :: post -> rejected db e = true ->
    post = [] /\ exists x, result m = Throw x.

(* ===================================================================== *)
(** * Further notions *)
(* ===================================================================== *)

(** What the loop of [dedupeVaccinationsArray] would push for an
    element, if it has not seen its key: nothing for an element that
    the guard skips. *)
Definition normalised (v : option Vaccination) : option Vaccination :=
  match inKey v with
  | Some _ => Some (kept v)
  | None => None
  end.

(** [o[k]] on an object: the value of the first entry under [k]. *)
Fixpoint obj_get (o : Obj) (k : string) : option Z :=
  match o with
  | [] => None
  | (k', v) :: rest => if String.eqb k' k then Some v else obj_get rest k
  end.

(** The entries of a table whose key is [k] when written in lower
    case. *)
Definition entriesUnder (k : string) (table : Obj) : Obj :=
  List.filter (fun e => String.eqb (JsString.toLowerCase e.1) k) table.

(** The queries of a trace, by the pet identifier they ask for. *)
Definition adoptionQueries (t : list Effect) : list string :=
  omap (fun e => match e with FindAdoption p => Some p | _ => None end) t.

Definition purchaseQueries (t : list Effect) : list string :=
  omap (fun e => match e with FindPurchase p => Some p | _ => None end) t.

(** A dose whose date does not parse, or parses to a time before [t]
    (at or before [t]). *)
Definition earlierThan (host : JsDate.Host) (t : Z) (e : Vaccination) : Prop :=
  match JsDate.ofString host (date e) with
  | Some te => te < t
  | None => True
  end.

Definition notLaterThan (host : JsDate.Host) (t : Z) (e : Vaccination) : Prop :=
  match JsDate.ofString host (date e) with
  | Some te => te <= t
  | None => True
  end.

(** The event of a pet, a key and a dose whose due date is [due]. *)
Definition dueEventOf (pet : Pet) (key : string) (dose : Vaccination)
    (due : Z) : DueEvent :=
  {| due_pet := pet; due_key := key; due_latest := dose;
     due_date := JsDate.isoDate due |}.

(* ===================================================================== *)
(** * The routes *)
(* ===================================================================== *)

(** ** Answers *)

(** The values of the properties of an answer. *)
Inductive Json :=
| JNull
| JBool (b : bool)
| JNum (n : Z)
| JStr (s : string).

(** [res.status(code).send(body)], where the body is an object given by
    its properties in order; [res.send(body)] answers with 200. *)
Record Response := mkResponse {
  statusCode : Z;
  body : list (string * Json)
}.

(** What a middleware does: it answers, or it calls [next()] and
    leaves a value on the request. *)
Inductive Gate (A : Type) :=
| Refused (r : Response)
| Next (a : A).
Arguments Refused {A} r.
Arguments Next {A} a.

(** What a route does with a request: it answers, or its handler
    rejects without an answer of its own (an exception outside every
    [try]). *)
Inductive Outcome :=
| Answered (r : Response)
| Unanswered.

(** ** The driver *)

(** The result of [updateOne], as far as the routes read it. *)
Record UpdateResult := mkUpdateResult {
  matchedCount : Z;
  modifiedCount : Z
}.

Definition sendUpdateResult (r : UpdateResult) : list (string * Json) :=
  [ ("acknowledged", JBool true);
    ("modifiedCount", JNum (modifiedCount r));
    ("upsertedId", JNull);
    ("upsertedCount", JNum 0);
    ("matchedCount", JNum (matchedCount r)) ].

Section Collection.
Context {A : Type} `{EqDecision A}.

(** [updateOne(filter, { $set: ... })]: the first document that matches
    is updated, and counts as modified when the update changes it. *)
Fixpoint updateOne (matches : A -> bool) (set : A -> A) (docs : list A)
  : list A * UpdateResult :=
  match docs with
  | [] => ([], mkUpdateResult 0 0)
  | d :: rest =>
      if matches d
      then (set d :: rest,
            mkUpdateResult 1 (if decide (set d = d) then 0 else 1))
      else let '(rest', r) := updateOne matches set rest in (d :: rest', r)
  end.

(** [updateMany(filter, { $set: ... })]; no route reads its result. *)
Definition updateMany (matches : A -> bool) (set : A -> A) (docs : list A)
  : list A :=
  (fun d => if matches d then set d else d) <$> docs.

End Collection.

(** ** The collections the routes write *)

(** A document of the [users] collection: the two properties the
    routes read.  [None] stands for a property that is missing or
    [null]. *)
Record User := mkUser {
  user_email : option string;
  role : option string
}.

(** A document of the [pet] collection with the properties [adopted]
    and [sold], of which the routes need to know whether they are
    [true]. *)
Record PetDoc := mkPetDoc {
  petOf : Pet;
  pet_adopted : bool;
  pet_sold : bool
}.

(** A document of the [adoptionRequest] collection with its [_id] (as
    [toString] writes it), whether [adopted] is [true], and
    [acceptedAt]. *)
Record AdoptionRequest := mkAdoptionRequest {
  request_id : string;
  requestOf : Adoption;
  request_adopted : bool;
  acceptedAt : option Z
}.

Global Instance Adoption_eq_dec : EqDecision Adoption.
Proof. solve_decision. Defined.

Global Instance PetDoc_eq_dec : EqDecision PetDoc.
Proof. solve_decision. Defined.

Global Instance AdoptionRequest_eq_dec : EqDecision AdoptionRequest.
Proof. solve_decision. Defined.

Record Db := mkDb {
  userCollection : list User;
  petDocuments : list PetDoc;
  adoptionDocuments : list AdoptionRequest;
  purchaseDocuments : list Purchase
}.

(** The store with one collection replaced. *)
Definition withUsers (db : Db) (users : list User) : Db :=
  {| userCollection := users;
     petDocuments := petDocuments db;
     adoptionDocuments := adoptionDocuments db;
     purchaseDocuments := purchaseDocuments db |}.

Definition withPets (db : Db) (pets : list PetDoc) : Db :=
  {| userCollection := userCollection db;
     petDocuments := pets;
     adoptionDocuments := adoptionDocuments db;
     purchaseDocuments := purchaseDocuments db |}.

Definition withRequests (db : Db) (requests : list AdoptionRequest) : Db :=
  {| userCollection := userCollection db;
     petDocuments := petDocuments db;
     adoptionDocuments := requests;
     purchaseDocuments := purchaseDocuments db |}.

Definition withPurchases (db : Db) (purchases : list Purchase) : Db :=
  {| userCollection := userCollection db;
     petDocuments := petDocuments db;
     adoptionDocuments := adoptionDocuments db;
     purchaseDocuments := purchases |}.

(** The payload of a token, of which the routes read [email]. *)
Record Claims := mkClaims {
  claims_email : option string
}.

(** [s.split(sep)] for a separator of one character *)
Fixpoint split (sep : ascii) (s : string) : list string :=
  match s with
  | EmptyString => [ EmptyString ]
  | String c r =>
      if Ascii.eqb c sep then EmptyString :: split sep r
      else match split sep r with
           | piece :: pieces => String c piece :: pieces
           | [] => [ String c EmptyString ]
           end
  end.

(** A string without the character [sep]. *)
Fixpoint without (sep : ascii) (s : string) : bool :=
  match s with
  | EmptyString => true
  | String c r => negb (Ascii.eqb c sep) && without sep r
  end.

(** The filter [{ _id: new ObjectId(id) }], given the identifier that
    the constructor made. *)
Definition hasRequestId (oid : string) (r : AdoptionRequest) : bool :=
  String.eqb (request_id r) oid.

Definition hasPetId (oid : string) (p : PetDoc) : bool :=
  String.eqb (_id (petOf p)) oid.

(** [{ $set: { adopted: true, status: 'accepted', acceptedAt: new Date() } }] *)
Definition accepted (now : Z) (r : AdoptionRequest) : AdoptionRequest :=
  {| request_id := request_id r;
     requestOf := {| adoption_petId := adoption_petId (requestOf r);
                     status := "accepted";
                     adopterEmail := adopterEmail (requestOf r) |};
     request_adopted := true;
     acceptedAt := Some now |}.

(** [{ $set: { status: 'closed' } }] *)
Definition closed (r : AdoptionRequest) : AdoptionRequest :=
  {| request_id := request_id r;
     requestOf := {| adoption_petId := adoption_petId (requestOf r);
                     status := "closed";
                     adopterEmail := adopterEmail (requestOf r) |};
     request_adopted := request_adopted r;
     acceptedAt := acceptedAt r |}.

(** [{ $set: { adopted: true } }] *)
Definition adopted (p : PetDoc) : PetDoc :=
  {| petOf := petOf p; pet_adopted := true; pet_sold := pet_sold p |}.

(** [{ $set: { sold: true } }] *)
Definition sold (p : PetDoc) : PetDoc :=
  {| petOf := petOf p; pet_adopted := pet_adopted p; pet_sold := true |}.

(** [{ $set: { vaccinations: cleaned } }] *)
Definition withVaccinations (cleaned : list Vaccination) (p : PetDoc)
  : PetDoc :=
  {| petOf := {| _id := _id (petOf p); pet_name := pet_name (petOf p);
                 vaccinations := Some (asArray cleaned) |};
     pet_adopted := pet_adopted p;
     pet_sold := pet_sold p |}.

(** What [PUT /adoption/accept/:id] makes of a request when it goes
    through: the request of the route is accepted, the others for the
    same pet are closed. *)
Definition settled (now : Z) (oid petId : string) (d : AdoptionRequest)
  : AdoptionRequest :=
  if hasRequestId oid d then accepted now d
  else if String.eqb (adoption_petId (requestOf d)) petId then closed d
  else d.

(** The user [findOne({ email })] answers with.  The driver writes an
    [undefined] of the filter as [null], which matches the documents
    without the property as well. *)
Definition userOf (users : list User) (email : option string) : option User :=
  List.find (fun u => bool_decide (user_email u = email)) users.

(** The steps of [PUT /adoption/accept/:id] that go to the store. *)
Inductive AcceptStep :=
| FindRequest
| AcceptRequest
| AdoptPet
| CloseOthers.

(** Those of [POST /purchases]. *)
Inductive PurchaseStep :=
| SavePurchase
| MarkSold.

Definition unauthorized : Response :=
  mkResponse 401 [ ("message", JStr "unauthorized access") ].

Definition forbidden : Response :=
  mkResponse 403 [ ("message", JStr "forbidden access") ].

Section Routes.

(** What the libraries contribute: the identifier [new ObjectId(s)]
    makes of a string, as [toString] writes it, or [None] when the
    constructor throws; the message of that exception; and
    [jwt.verify] with the secret of the process, [None] when it hands
    an error to its callback.  The store answers the queries of the
    gates, of [POST /users] and of [PATCH /pet/:id/vaccinations]; the
    routes with a [try] take the queries that it rejects as an
    argument. *)
Variable ObjectId_ : string -> option string.
Variable invalidIdMessage : string.
Variable jwt_verify : option string -> option Claims.

(** [ObjectId.isValid(s)] for a string: whether the constructor takes
    it. *)
Definition isValid (s : string) : bool :=
  match ObjectId_ s with
  | Some _ => true
  | None => false
  end.

(** *** verifyToken, verifyAdmin *)

Definition verifyToken (authorization : option string) : Gate Claims :=
  if negb (JsString.truthy authorization) then Refused unauthorized
  else
    let token := split " " (JsString.String_ authorization) !! 1%nat in
    match jwt_verify token with
    | None => Refused unauthorized
    | Some decoded => Next decoded
    end.

Definition verifyAdmin (users : list User) (decoded : Claims) : Gate unit :=
  let email := claims_email decoded in
  let user := userOf users email in
  let isAdmin := match user with
                 | Some u => bool_decide (role u = Some "admin")
                 | None => false
                 end in
  if negb isAdmin then Refused forbidden else Next tt.

(** *** POST /users *)

(** [insertedId] is the identifier the driver gives the new document;
    [insertOne] puts the document behind those of the collection, in
    the order in which [findOne] looks through them. *)
Definition post_users (insertedId : string) (db : Db) (user : User)
  : Db * Response :=
  match userOf (userCollection db) (user_email user) with
  | Some _ =>
      (db, mkResponse 200 [ ("message", JStr "user already exists");
                            ("insertedId", JNull) ])
  | None =>
      (withUsers db (userCollection db ++ [ user ]),
       mkResponse 200 [ ("acknowledged", JBool true);
                        ("insertedId", JStr insertedId) ])
  end.

(** *** PATCH /pet/:id/vaccinations *)

(** The handler; [vaccinations] is [None] when the property of the body
    is no array. *)
Definition patch_pet_vaccinations_handler (db : Db) (id : string)
    (vaccinations : option VaccinationArray) : Db * Outcome :=
  match vaccinations with
  | None =>
      (db, Answered (mkResponse 400
                       [ ("message", JStr "Invalid vaccinations array") ]))
  | Some vaccinations =>
      let cleaned := dedupeVaccinationsArray vaccinations in
      match ObjectId_ id with
      | None => (db, Unanswered)
      | Some oid =>
          let '(pets, result) :=
            updateOne (hasPetId oid) (withVaccinations cleaned)
                      (petDocuments db) in
          (withPets db pets,
           Answered (mkResponse 200 (sendUpdateResult result)))
      end
  end.

(** The route: [verifyToken], [verifyAdmin], then the handler. *)
Definition patch_pet_vaccinations (db : Db) (authorization : option string)
    (id : string) (vaccinations : option VaccinationArray) : Db * Outcome :=
  match verifyToken authorization with
  | Refused r => (db, Answered r)
  | Next decoded =>
      match verifyAdmin (userCollection db) decoded with
      | Refused r => (db, Answered r)
      | Next _ => patch_pet_vaccinations_handler db id vaccinations
      end
  end.

(** *** PUT /adoption/accept/:id *)

(** The answer of the [catch] of the route:
    [{ success: false, message: error.message || 'Server error' }] *)
Definition caught (message : string) : Response :=
  mkResponse 500
    [ ("success", JBool false);
      ("message", JStr (if String.eqb message EmptyString
                        then "Server error" else message)) ].

Definition failure (code : Z) (message : string) : Response :=
  mkResponse code [ ("success", JBool false); ("message", JStr message) ].

(** [rejects step] is the message of the error when the store rejects
    the query of that step; a rejected update is not carried out.
    [now] is the time of [new Date()] in the second step. *)
Definition put_adoption_accept (rejects : AcceptStep -> option string)
    (now : Z) (db : Db) (adoptionRequestId : string) : Db * Response :=
  match ObjectId_ adoptionRequestId with
  | None => (db, caught invalidIdMessage)
  | Some requestOid =>
  match rejects FindRequest with
  | Some message => (db, caught message)
  | None =>
  match List.find (hasRequestId requestOid) (adoptionDocuments db) with
  | None => (db, failure 404 "Adoption request not found")
  | Some requestDoc =>
  let petId := adoption_petId (requestOf requestDoc) in
  if negb (JsString.truthy (Some petId)) || negb (isValid petId)
  then (db, failure 400 "Invalid petId in adoption request")
  else
  match rejects AcceptRequest with
  | Some message => (db, caught message)
  | None =>
  let '(requests1, updatedRequest) :=
    updateOne (hasRequestId requestOid) (accepted now)
              (adoptionDocuments db) in
  let db1 := withRequests db requests1 in
  if modifiedCount updatedRequest =? 0
  then (db1, failure 500 "Failed to update adoption request")
  else
  match ObjectId_ petId with
  | None => (db1, caught invalidIdMessage)
  | Some petOid =>
  match rejects AdoptPet with
  | Some message => (db1, caught message)
  | None =>
  let '(pets2, updatedPet) :=
    updateOne (hasPetId petOid) adopted (petDocuments db1) in
  let db2 := withPets db1 pets2 in
  if modifiedCount updatedPet =? 0
  then (db2, failure 500 "Failed to mark pet as adopted")
  else
  match rejects CloseOthers with
  | Some message => (db2, caught message)
  | None =>
  let requests3 :=
    updateMany (fun r => String.eqb (adoption_petId (requestOf r)) petId
                         && negb (hasRequestId requestOid r))
               closed (adoptionDocuments db2) in
  (withRequests db2 requests3,
   mkResponse 200
     [ ("success", JBool true);
       ("message", JStr "Adoption request accepted successfully");
       ("petUpdated", JNum (modifiedCount updatedPet));
       ("requestUpdated", JNum (modifiedCount updatedRequest)) ])
  end end end end end end end.

(** *** POST /purchases *)

(** The answer of the [catch] of the route *)
Definition failedPurchase (message : string) : Response :=
  mkResponse 500 [ ("message", JStr "Failed to save purchase");
                   ("error", JStr message) ].

Definition post_purchases (rejects : PurchaseStep -> option string)
    (insertedId : string) (db : Db) (purchase : Purchase) : Db * Response :=
  match rejects SavePurchase with
  | Some message => (db, failedPurchase message)
  | None =>
  let db1 := withPurchases db (purchaseDocuments db ++ [ purchase ]) in
  match ObjectId_ (purchase_petId purchase) with
  | None => (db1, failedPurchase invalidIdMessage)
  | Some oid =>
  match rejects MarkSold with
  | Some message => (db1, failedPurchase message)
  | None =>
  let '(pets, _) := updateOne (hasPetId oid) sold (petDocuments db1) in
  (withPets db1 pets,
   mkResponse 200 [ ("acknowledged", JBool true);
                    ("insertedId", JStr insertedId) ])
  end end end.

End Routes.

(** ** The callers of the pass *)

(** The lines the callers write. *)
Inductive CallerLine :=
| InitialCheckCompleted
| InitialCheckFailed (err : Exn)
| ScheduledRunning (at_ : Z)
| ScheduledError (err : Exn)
| ManualRunFailed (err : Exn).

(** A run of the pass from one of its callers: what the pass did, the
    lines of the caller, and the answer of the route. *)
Record PassRun := mkPassRun {
  passEffects : list Effect;
  callerLines : list CallerLine;
  answer : option Response
}.

Section Callers.
Variable host : JsDate.Host.
Variable db : Store.
Variable delivers : Mail -> bool.
Variable intervals : Obj.
(** [error.message] *)
Variable message : Exn -> string.

(** [sendVaccinationReminders().then(...).catch(...)] at startup *)
Definition atStartup (now : Z) : PassRun :=
  match sendVaccinationReminders host db delivers intervals now with
  | (t, Ok _) => mkPassRun t [ InitialCheckCompleted ] None
  | (t, Throw err) => mkPassRun t [ InitialCheckFailed err ] None
  end.

(** The callback of [cron.schedule("0 9 * * *", ...)]; its first line
    carries the time at which it starts. *)
Definition scheduled (now : Z) : PassRun :=
  match sendVaccinationReminders host db delivers intervals now with
  | (t, Ok _) => mkPassRun t [ ScheduledRunning now ] None
  | (t, Throw err) => mkPassRun t [ ScheduledRunning now; ScheduledError err ]
                        None
  end.

(** [GET /test-send-vaccination-reminders] *)
Definition get_test_send_vaccination_reminders (now : Z) : PassRun :=
  match sendVaccinationReminders host db delivers intervals now with
  | (t, Ok _) =>
      mkPassRun t []
        (Some (mkResponse 200
           [ ("success", JBool true);
             ("message",
              JStr "Vaccination reminder task executed (manual run).") ]))
  | (t, Throw err) =>
      mkPassRun t [ ManualRunFailed err ]
        (Some (mkResponse 500
           [ ("success", JBool false);
             ("message", JStr (message err)) ]))
  end.

End Callers.

(* ===================================================================== *)
(** * A store to run the pass on *)
(* ===================================================================== *)

(** The time value of a date-only string, and nine o'clock (UTC) of
    that day, the hour of the daily job. *)
Definition midnight (s : string) : Z := default 0 (JsDate.parseDateOnly s).
Definition nineOClock (s : string) : Z := midnight s + 9 * JsDate.msPerHour.

Definition rabiesDose : Vaccination :=
  {| vaccineType := Some "Rabies"; date := Some "2024-01-10" |}.

Definition bella : Pet :=
  {| _id := "665f1c2e9b1d8a0012ab34cd"; pet_name := "Bella";
     vaccinations := Some [ Some rabiesDose ] |}.

Definition bellaAdoption : Adoption :=
  {| adoption_petId := "665f1c2e9b1d8a0012ab34cd"; status := "accepted";
     adopterEmail := Some "adopter@example.com" |}.

Definition bellaPurchase : Purchase :=
  {| purchase_petId := "665f1c2e9b1d8a0012ab34cd";
     buyerEmail := Some "buyer@example.com" |}.

Definition bellaStore : Store :=
  {| petCollection := [ bella ];
     adoptionCollection := [ bellaAdoption ];
     purchasesCollection := [ bellaPurchase ];
     petQueryFails := false;
     adoptionQueryFails := fun _ => false;
     purchaseQueryFails := fun _ => false |}.

(** The table of the scenario of the specification. *)
Definition rabiesOnly : Obj := normalizeIntervals [ ("Rabies", 365) ].

Definition allDelivered : Mail -> bool := fun _ => true.
Definition noneDelivered : Mail -> bool := fun _ => false.

Definition bellaDue : DueEvent :=
  {| due_pet := bella; due_key := "rabies"; due_latest := rabiesDose;
     due_date := "2025-01-09" |}.

(** A dose whose date is no date, before and after a dated dose of the
    same type. *)
Definition undatedDose : Vaccination :=
  {| vaccineType := Some "Rabies"; date := Some "unknown" |}.

Definition luna (doses : VaccinationArray) : Pet :=
  {| _id := "665f1c2e9b1d8a0012ab34ce"; pet_name := "Luna";
     vaccinations := Some doses |}.

Definition lunaStore (doses : VaccinationArray) : Store :=
  {| petCollection := [ luna doses ];
     adoptionCollection := [];
     purchasesCollection := [];
     petQueryFails := false;
     adoptionQueryFails := fun _ => false;
     purchaseQueryFails := fun _ => false |}.

(** Two pets that fall due on the same day, in a store that answers
    every query, and in one that rejects the adoption query for the
    first of them. *)
Definition milo : Pet :=
  {| _id := "665f1c2e9b1d8a0012ab34cf"; pet_name := "Milo";
     vaccinations := Some [ Some rabiesDose ] |}.

Definition miloPurchase : Purchase :=
  {| purchase_petId := "665f1c2e9b1d8a0012ab34cf";
     buyerEmail := Some "milo.owner@example.com" |}.

Definition miloDue : DueEvent :=
  {| due_pet := milo; due_key := "rabies"; due_latest := rabiesDose;
     due_date := "2025-01-09" |}.

Definition twoPetStore (adoptionFails : string -> bool) : Store :=
  {| petCollection := [ bella; milo ];
     adoptionCollection := [ bellaAdoption ];
     purchasesCollection := [ bellaPurchase; miloPurchase ];
     petQueryFails := false;
     adoptionQueryFails := adoptionFails;
     purchaseQueryFails := fun _ => false |}.

Definition healthyStore : Store := twoPetStore (fun _ => false).
Definition flakyStore : Store := twoPetStore (String.eqb (_id bella)).

(** ** More stores *)

(** An array as a client may send it: the same type in several
    spellings, a [null] element, an element without a type. *)
Definition submittedDoses : VaccinationArray :=
  [ Some {| vaccineType := Some " Rabies "; date := Some "2024-01-10" |};
    None;
    Some {| vaccineType := Some "Lyme Disease"; date := None |};
    Some {| vaccineType := Some "rabies"; date := Some "2024-03-01" |};
    Some {| vaccineType := None; date := Some "2024-02-02" |};
    Some {| vaccineType := Some "LYME DISEASE"; date := Some "2024-05-05" |} ].

(** A pet whose array went through [dedupeVaccinationsArray]. *)
Definition storedPet (doses : VaccinationArray) : Pet :=
  {| _id := "665f1c2e9b1d8a0012ab34d0"; pet_name := "Nala";
     vaccinations := Some (asArray (dedupeVaccinationsArray doses)) |}.

(** Rex got three Rabies doses, the last two on the same day. *)
Definition rexDose1 : Vaccination :=
  {| vaccineType := Some "Rabies"; date := Some "2023-06-01" |}.
Definition rexDose2 : Vaccination :=
  {| vaccineType := Some "rabies "; date := Some "2024-01-10" |}.
Definition rexDose3 : Vaccination :=
  {| vaccineType := Some "RABIES"; date := Some "2024-01-10" |}.

Definition rex : Pet :=
  {| _id := "665f1c2e9b1d8a0012ab34d1"; pet_name := "Rex";
     vaccinations := Some [ Some rexDose1; Some rexDose2; Some rexDose3 ] |}.

Definition rexStore : Store :=
  {| petCollection := [ rex ];
     adoptionCollection := [];
     purchasesCollection := [];
     petQueryFails := false;
     adoptionQueryFails := fun _ => false;
     purchaseQueryFails := fun _ => false |}.

(** A host that also reads the last day a [Date] can hold, written with
    an expanded year. *)
Definition farHost : JsDate.Host :=
  {| JsDate.LocalTZA := 0;
     JsDate.Date_parse := fun s =>
       if String.eqb s "+275760-09-13" then Some 8640000000000000
       else JsDate.parseDateOnly s;
     JsDate.MAIL_USER := "pawpalace@example.com" |}.

Definition farDose : Vaccination :=
  {| vaccineType := Some "Rabies"; date := Some "+275760-09-13" |}.

Definition farPet : Pet :=
  {| _id := "665f1c2e9b1d8a0012ab34d2"; pet_name := "Zed";
     vaccinations := Some [ Some farDose ] |}.

Definition farStore : Store :=
  {| petCollection := [ farPet; bella ];
     adoptionCollection := [ bellaAdoption ];
     purchasesCollection := [ bellaPurchase ];
     petQueryFails := false;
     adoptionQueryFails := fun _ => false;
     purchaseQueryFails := fun _ => false |}.

(** ** A store for the routes *)

Definition isHexDigit (c : ascii) : bool :=
  let n := N_of_ascii c in
  ((48 <=? n) && (n <=? 57) || (65 <=? n) && (n <=? 70)
   || (97 <=? n) && (n <=? 102))%N.

Fixpoint allHex (s : string) : bool :=
  match s with
  | EmptyString => true
  | String c r => isHexDigit c && allHex r
  end.

(** An [ObjectId] constructor that takes the strings of 24 hexadecimal
    digits. *)
Definition hexObjectId (s : string) : option string :=
  if (String.length s =? 24)%nat && allHex s
  then Some (JsString.toLowerCase s) else None.

(** A [jwt.verify] that knows two tokens. *)
Definition demoVerify (token : option string) : option Claims :=
  match token with
  | Some t =>
      if String.eqb t "admin.token"
      then Some (mkClaims (Some "admin@example.com"))
      else if String.eqb t "user.token"
      then Some (mkClaims (Some "user@example.com"))
      else None
  | None => None
  end.

Definition adminUser : User :=
  {| user_email := Some "admin@example.com"; role := Some "admin" |}.

Definition plainUser : User :=
  {| user_email := Some "user@example.com"; role := None |}.

(** Two requests for Bella. *)
Definition firstRequest : AdoptionRequest :=
  {| request_id := "665f1c2e9b1d8a0012ab3501";
     requestOf := {| adoption_petId := "665f1c2e9b1d8a0012ab34cd";
                     status := "pending";
                     adopterEmail := Some "adopter@example.com" |};
     request_adopted := false;
     acceptedAt := None |}.

Definition secondRequest : AdoptionRequest :=
  {| request_id := "665f1c2e9b1d8a0012ab3502";
     requestOf := {| adoption_petId := "665f1c2e9b1d8a0012ab34cd";
                     status := "pending";
                     adopterEmail := Some "second@example.com" |};
     request_adopted := false;
     acceptedAt := None |}.

Definition shelter : Db :=
  {| userCollection := [ adminUser; plainUser ];
     petDocuments := [ mkPetDoc bella false false; mkPetDoc milo false false ];
     adoptionDocuments := [ firstRequest; secondRequest ];
     purchaseDocuments := [ bellaPurchase ] |}.

(** The shelter after Bella was marked as adopted by another route. *)
Definition shelterWithBellaAdopted : Db :=
  {| userCollection := [ adminUser; plainUser ];
     petDocuments := [ mkPetDoc bella true false; mkPetDoc milo false false ];
     adoptionDocuments := [ firstRequest; secondRequest ];
     purchaseDocuments := [ bellaPurchase ] |}.

Definition noOutage : AcceptStep -> option string := fun _ => None.
(* ===================================================================== *)
(** * Facts about [trim] *)
(* ===================================================================== *)

Module JsStringFacts.
Import JsString.

Lemma trimEnd_empty_iff s : trimEnd s = EmptyString <-> allWhiteSpace s = true.
Proof.
  induction s as [|c r IH]; simpl; [tauto|].
  destruct (trimEnd r) eqn:E, (isWhiteSpace c); simpl;
    split; intros H; try discriminate; try reflexivity.
  - apply IH; reflexivity.
  - apply IH in H. discriminate.
Qed.

Lemma allWhiteSpace_trimStart s :
  allWhiteSpace s = true -> trimStart s = EmptyString.
Proof.
  induction s as [|c r IH]; simpl; [reflexivity|].
  destruct (isWhiteSpace c); simpl; [exact IH | discriminate].
Qed.

Lemma trimStart_head s :
  match trimStart s with
  | EmptyString => True
  | String c _ => isWhiteSpace c = false
  end.
Proof.
  induction s as [|c r IH]; simpl; [exact I|].
  destruct (isWhiteSpace c) eqn:E; [exact IH | simpl; exact E].
Qed.

Lemma trimStart_nonspace c r :
  isWhiteSpace c = false -> trimStart (String c r) = String c r.
Proof. intros H. simpl. rewrite H. reflexivity. Qed.

Lemma trimEnd_idem s : trimEnd (trimEnd s) = trimEnd s.
Proof.
  induction s as [|c r IH]; simpl; [reflexivity|].
  destruct (trimEnd r) as [|c' r'] eqn:E.
  - destruct (isWhiteSpace c) eqn:W; simpl; [reflexivity|].
    rewrite W. reflexivity.
  - change (trimEnd (String c (String c' r')) = String c (String c' r')).
    simpl trimEnd at 1.
    change (match trimEnd (String c' r') with
            | EmptyString => if isWhiteSpace c then EmptyString
                             else String c EmptyString
            | r0 => String c r0 end = String c (String c' r')).
    rewrite IH. reflexivity.
Qed.

Lemma trimEnd_head c r :
  isWhiteSpace c = false ->
  exists r', trimEnd (String c r) = String c r'.
Proof.
  intros W. simpl. destruct (trimEnd r); rewrite ?W; eauto.
Qed.

(** The empty string is the only fixed point of [trim] that is empty:
    a trimmed string is empty exactly when the original consists of
    white space. *)
Lemma trim_empty_iff s : trim s = EmptyString <-> allWhiteSpace s = true.
Proof.
  unfold trim. rewrite trimEnd_empty_iff. split.
  - intros H. induction s as [|c r IH]; simpl in *; [reflexivity|].
    destruct (isWhiteSpace c) eqn:W; simpl.
    + apply IH, H.
    + simpl in H. rewrite W in H. discriminate.
  - intros H. rewrite (allWhiteSpace_trimStart _ H). reflexivity.
Qed.

Lemma trim_idem s : trim (trim s) = trim s.
Proof.
  unfold trim.
  pose proof (trimStart_head s) as Hh.
  destruct (trimStart s) as [|c r] eqn:E; [reflexivity|].
  destruct (trimEnd_head c r Hh) as [r' Hr'].
  rewrite Hr'. rewrite (trimStart_nonspace _ _ Hh).
  rewrite <- Hr'. apply trimEnd_idem.
Qed.

End JsStringFacts.
(* ===================================================================== *)
(** * Facts about [dedupeVaccinationsArray] *)
(* ===================================================================== *)

Lemma dedupe_loop_from vs : forall seen unique,
  dedupe_loop vs seen unique = unique ++ dedupe_from seen vs.
Proof.
  induction vs as [|v rest IH]; intros seen unique; simpl.
  - by rewrite app_nil_r.
  - destruct v as [[[t|] d]|]; simpl; try apply IH.
    destruct (String.eqb t EmptyString); simpl; [apply IH|].
    case_decide; [apply IH|].
    rewrite IH, <- app_assoc. reflexivity.
Qed.

Lemma dedupe_unfold vs :
  dedupeVaccinationsArray vs = dedupe_from ∅ vs.
Proof. unfold dedupeVaccinationsArray. by rewrite dedupe_loop_from. Qed.

Lemma typeKey_trim t : typeKey (JsString.trim t) = typeKey t.
Proof. unfold typeKey. by rewrite JsStringFacts.trim_idem. Qed.

Lemma outKey_kept v k : inKey v = Some k -> outKey (kept v) = Some k.
Proof.
  destruct v as [[[t|] d]|]; simpl; try discriminate.
  destruct (String.eqb t EmptyString); simpl; [discriminate|].
  intros [= <-]. unfold outKey. simpl. by rewrite typeKey_trim.
Qed.

Lemma dedupe_from_keys seen vs u :
  u ∈ dedupe_from seen vs ->
  exists k, outKey u = Some k /\ (k ∉ seen) /\
            exists v, v ∈ vs /\ inKey v = Some k /\ u = kept v.
Proof.
  revert seen. induction vs as [|v rest IH]; intros seen; simpl.
  - intros H. by apply elem_of_nil in H.
  - destruct (inKey v) as [k|] eqn:Ek.
    + case_decide as Hin.
      * intros H. destruct (IH _ H) as (k' & ? & ? & v' & ? & ? & ?).
        exists k'. repeat split; auto. exists v'. set_solver.
      * intros [->|H]%elem_of_cons.
        { exists k. split; [by apply outKey_kept|]. split; [done|].
          exists v. set_solver. }
        destruct (IH _ H) as (k' & ? & ? & v' & ? & ? & ?).
        exists k'. split; [done|]. split; [set_solver|].
        exists v'. set_solver.
    + intros H. destruct (IH _ H) as (k' & ? & ? & v' & ? & ? & ?).
      exists k'. repeat split; auto. exists v'. set_solver.
Qed.

Lemma dedupe_from_NoDup seen vs : NoDup (outKey <$> dedupe_from seen vs).
Proof.
  revert seen. induction vs as [|v rest IH]; intros seen; simpl.
  - constructor.
  - destruct (inKey v) as [k|] eqn:Ek; [|apply IH].
    case_decide as Hin; [apply IH|].
    rewrite fmap_cons. constructor; [|apply IH].
    rewrite (outKey_kept _ _ Ek).
    intros (u & Hu & Hmem)%list_elem_of_fmap.
    destruct (dedupe_from_keys _ _ _ Hmem) as (k' & Hk' & Hnot & _).
    rewrite Hk' in Hu. injection Hu as ->. set_solver.
Qed.

Lemma dedupe_from_filter k vs : forall seen,
  List.filter (hasOutKey k) (dedupe_from seen vs) =
  if decide (k ∈ seen) then []
  else match List.find (hasInKey k) vs with
       | Some v => [kept v]
       | None => []
       end.
Proof.
  induction vs as [|v rest IH]; intros seen; simpl.
  - by case_decide.
  - unfold hasInKey at 1. destruct (inKey v) as [k'|] eqn:Ek.
    + destruct (decide (k' ∈ seen)) as [Hin|Hin].
      * rewrite IH. case_decide; [done|].
        rewrite bool_decide_eq_false_2; [done|]. intros [= ->]. done.
      * simpl. unfold hasOutKey at 1. rewrite (outKey_kept _ _ Ek).
        destruct (decide (k' = k)) as [->|Hne].
        { rewrite !bool_decide_eq_true_2 by done.
          rewrite IH. rewrite decide_True by set_solver.
          by rewrite decide_False. }
        rewrite !bool_decide_eq_false_2 by congruence.
        rewrite IH. destruct (decide (k ∈ seen)) as [Hk|Hk].
        { rewrite decide_True by set_solver. done. }
        rewrite decide_False; [done|].
        intros [?%elem_of_singleton|?]%elem_of_union; congruence.
    + rewrite bool_decide_eq_false_2 by done. apply IH.
Qed.

(** Every entry of the result stems from an element with a non-empty
    vaccine type, trimmed. *)
Lemma dedupe_origin vs u :
  u ∈ dedupeVaccinationsArray vs ->
  exists e t, Some e ∈ vs /\ vaccineType e = Some t /\ t <> EmptyString /\
              u = {| vaccineType := Some (JsString.trim t); date := date e |}.
Proof.
  rewrite dedupe_unfold. intros H.
  destruct (dedupe_from_keys _ _ _ H) as (k & _ & _ & v & Hv & Hk & ->).
  destruct v as [[[t|] d]|]; simpl in Hk; try discriminate.
  destruct (String.eqb_spec t EmptyString) as [->|Hne]; [discriminate|].
  exists {| vaccineType := Some t; date := d |}, t. done.
Qed.

(** An array of entries with trimmed, non-empty and pairwise different
    types is returned as it is. *)
Lemma dedupe_from_fixed (l : list Vaccination) : forall seen,
  Forall (fun u => exists t, vaccineType u = Some t /\ t <> EmptyString /\
                             JsString.trim t = t) l ->
  NoDup (outKey <$> l) ->
  (forall u k, u ∈ l -> outKey u = Some k -> k ∉ seen) ->
  dedupe_from seen (asArray l) = l.
Proof.
  induction l as [|u rest IH]; intros seen Hcl Hnd Hseen; simpl; [done|].
  apply Forall_cons in Hcl as [(t & Ht & Hne & Htrim) Hcl].
  rewrite fmap_cons in Hnd. apply NoDup_cons in Hnd as [Hnot Hnd].
  destruct u as [ty d]. simpl in Ht. subst ty. simpl.
  destruct (String.eqb_spec t EmptyString) as [|_]; [done|]. simpl.
  rewrite decide_False.
  2: { apply (Hseen {| vaccineType := Some t; date := d |});
       [by left | done]. }
  simpl. rewrite Htrim. f_equal. apply IH; [done..|].
  intros u k Hu Hk [Hin%elem_of_singleton|Hin]%elem_of_union.
  - subst k. apply Hnot. unfold outKey at 1. simpl.
    rewrite <- Hk. by apply list_elem_of_fmap_2.
  - apply (Hseen u k); [by right | done | done].
Qed.

(** On arrays without a vaccine type that is blank (white space only),
    a second application changes nothing. *)
Lemma dedupe_idempotent_nonblank vs :
  (forall e t, Some e ∈ vs -> vaccineType e = Some t ->
               JsString.trim t = EmptyString -> t = EmptyString) ->
  dedupeVaccinationsArray (asArray (dedupeVaccinationsArray vs))
  = dedupeVaccinationsArray vs.
Proof.
  intros Hnb. rewrite (dedupe_unfold (asArray _)).
  apply dedupe_from_fixed.
  - apply Forall_forall. intros u Hu.
    destruct (dedupe_origin _ _ Hu) as (e & t & He & Ht & Hne & ->).
    exists (JsString.trim t). split; [done|]. split.
    + intros Hempty. apply Hne. by apply (Hnb e t).
    + apply JsStringFacts.trim_idem.
  - rewrite dedupe_unfold. apply dedupe_from_NoDup.
  - intros u k _ _. apply not_elem_of_empty.
Qed.

(* ===================================================================== *)
(** * Facts about dates *)
(* ===================================================================== *)

Module JsDateFacts.
Import JsDate.

Ltac zdiv := Z.div_mod_to_equations; lia.

(** ** The calendar *)

Lemma DaysInYear_cases y : DaysInYear y = 365 \/ DaysInYear y = 366.
Proof.
  unfold DaysInYear.
  repeat match goal with |- context [negb ?b] => destruct b; simpl end; auto.
Qed.

Lemma DayFromYear_succ y : DayFromYear (y + 1) = DayFromYear y + DaysInYear y.
Proof.
  unfold DayFromYear, DaysInYear.
  repeat match goal with
         | |- context [?a =? ?b] => destruct (Z.eqb_spec a b); simpl
         end; zdiv.
Qed.

Lemma DayFromYear_lt y1 y2 : y1 < y2 -> DayFromYear y1 < DayFromYear y2.
Proof. unfold DayFromYear. intros H. zdiv. Qed.

Lemma DayFromYear_le y1 y2 : y1 <= y2 -> DayFromYear y1 <= DayFromYear y2.
Proof. unfold DayFromYear. intros H. zdiv. Qed.

Lemma YearFromDay_spec d :
  DayFromYear (YearFromDay d) <= d < DayFromYear (YearFromDay d + 1).
Proof.
  unfold YearFromDay.
  set (y := 1970 + 400 * d / 146097).
  assert (Hy : DayFromYear (y - 1) <= d < DayFromYear (y + 2)).
  { unfold DayFromYear, y. zdiv. }
  destruct (Z.leb_spec (DayFromYear (y + 1)) d).
  - replace (y + 1 + 1) with (y + 2) by lia. lia.
  - destruct (Z.leb_spec (DayFromYear y) d).
    + lia.
    + replace (y - 1 + 1) with y by lia. lia.
Qed.

(** [YearFromDay d] is the year the standard asks for: the only [y]
    whose days include [d]. *)
Lemma YearFromDay_unique d y :
  DayFromYear y <= d < DayFromYear (y + 1) -> YearFromDay d = y.
Proof.
  intros Hy. pose proof (YearFromDay_spec d) as Hs.
  destruct (Z.lt_trichotomy (YearFromDay d) y) as [Hlt|[Heq|Hgt]]; [|done|].
  - assert (DayFromYear (YearFromDay d + 1) <= DayFromYear y).
    { destruct (Z.eq_dec (YearFromDay d + 1) y) as [->|]; [lia|].
      apply Z.lt_le_incl, DayFromYear_lt. lia. }
    lia.
  - assert (DayFromYear (y + 1) <= DayFromYear (YearFromDay d)).
    { destruct (Z.eq_dec (y + 1) (YearFromDay d)) as [->|]; [lia|].
      apply Z.lt_le_incl, DayFromYear_lt. lia. }
    lia.
Qed.

Lemma InLeapYear_cases t :
  (InLeapYear t = 0 /\ DaysInYear (YearFromTime t) = 365) \/
  (InLeapYear t = 1 /\ DaysInYear (YearFromTime t) = 366).
Proof.
  unfold InLeapYear.
  destruct (DaysInYear_cases (YearFromTime t)) as [H|H]; rewrite H; auto.
Qed.

Lemma DayWithinYear_range t :
  0 <= DayWithinYear t < 365 + InLeapYear t.
Proof.
  unfold DayWithinYear, YearFromTime.
  pose proof (YearFromDay_spec (Day t)) as Hs.
  rewrite DayFromYear_succ in Hs.
  destruct (InLeapYear_cases t) as [[-> H]|[-> H]];
    unfold YearFromTime in H; lia.
Qed.

Ltac month_cases :=
  repeat match goal with
         | |- context [?a <? ?b] => destruct (Z.ltb_spec a b)
         end.

Lemma MonthFromTime_range t : 0 <= MonthFromTime t <= 11.
Proof. unfold MonthFromTime. month_cases; lia. Qed.

Lemma DateFromTime_range t : 1 <= DateFromTime t <= 31.
Proof.
  pose proof (DayWithinYear_range t) as Hr.
  unfold DateFromTime, MonthFromTime.
  destruct (InLeapYear_cases t) as [[E _]|[E _]]; rewrite E in *;
    month_cases; unfold monthStart; simpl; lia.
Qed.

(** The day number is rebuilt from year, month and date. *)
Lemma MakeDay_of_time t n :
  MakeDay (YearFromTime t) (MonthFromTime t) (DateFromTime t + n) = Day t + n.
Proof.
  pose proof (MonthFromTime_range t) as Hm.
  unfold MakeDay.
  rewrite (Z.div_small (MonthFromTime t) 12) by lia.
  rewrite (Z.mod_small (MonthFromTime t) 12) by lia.
  rewrite Z.add_0_r.
  change (if DaysInYear (YearFromTime t) =? 366 then 1 else 0)
    with (InLeapYear t).
  unfold DateFromTime, DayWithinYear. lia.
Qed.

Lemma Day_TimeWithinDay t : MakeDate (Day t) (TimeWithinDay t) = t.
Proof.
  unfold MakeDate, Day, TimeWithinDay, msPerDay. zdiv.
Qed.

Lemma Day_add_days t n : Day (t + n * msPerDay) = Day t + n.
Proof. unfold Day, msPerDay. zdiv. Qed.

(** ** setDate *)

(** Moving the date of the month by [n] moves the time value by [n]
    days, whatever the (constant) offset of local time. *)
Lemma setDate_getDate_plus host t n :
  setDate host (Some t) (plus (getDate host (Some t)) n)
  = TimeClip (t + n * msPerDay).
Proof.
  unfold setDate, getDate, plus. f_equal.
  rewrite MakeDay_of_time. unfold UTC.
  set (lt := LocalTime host t).
  assert (MakeDate (Day lt + n) (TimeWithinDay lt) = lt + n * msPerDay) as ->.
  { rewrite <- (Day_TimeWithinDay lt) at 3. unfold MakeDate. lia. }
  unfold lt, LocalTime. lia.
Qed.

(** ** Date strings *)

Lemma digit_code n : N_of_ascii (digit n) = (48 + Z.to_N (n mod 10))%N.
Proof.
  unfold digit. apply N_ascii_embedding.
  assert (0 <= n mod 10 < 10) by (apply Z.mod_pos_bound; lia). lia.
Qed.

Lemma digit_not_T n : Ascii.eqb (digit n) "T" = false.
Proof.
  apply Ascii.eqb_neq. intros H. apply (f_equal N_of_ascii) in H.
  rewrite digit_code in H. simpl in H.
  assert (0 <= n mod 10 < 10) by (apply Z.mod_pos_bound; lia). lia.
Qed.

Lemma splitT0_app s k :
  noT s = true -> splitT0 (String.append s (String "T" k)) = s.
Proof.
  induction s as [|c r IH]; simpl; [done|].
  destruct (Ascii.eqb c "T"); simpl; [done|].
  intros H. by rewrite IH.
Qed.

Lemma noT_pad2 n k : noT (pad2 n k) = noT k.
Proof. unfold pad2. simpl. by rewrite !digit_not_T. Qed.

Lemma noT_yearString y k : noT (yearString y k) = noT k.
Proof.
  unfold yearString, pad6, pad4, pad3.
  destruct ((0 <=? y) && (y <=? 9999)); [|destruct (y <? 0)];
    simpl; by rewrite ?digit_not_T, ?noT_pad2.
Qed.

Lemma noT_isoDate t : noT (isoDate t) = true.
Proof.
  unfold isoDate. rewrite noT_yearString.
  cbn [noT]. rewrite noT_pad2. cbn [noT]. by rewrite noT_pad2.
Qed.

Lemma toISOString_day t :
  splitT0 <$> toISOString (Some t) = Some (isoDate t).
Proof. simpl. f_equal. apply splitT0_app, noT_isoDate. Qed.

(** Digits compare as the numbers they write. *)
Lemma compare_digit x y k1 k2 :
  String.compare (String (digit x) k1) (String (digit y) k2)
  = match x mod 10 ?= y mod 10 with
    | Eq => String.compare k1 k2
    | c => c
    end.
Proof.
  simpl. unfold Ascii.compare. rewrite !digit_code.
  assert (0 <= x mod 10 < 10) by (apply Z.mod_pos_bound; lia).
  assert (0 <= y mod 10 < 10) by (apply Z.mod_pos_bound; lia).
  destruct (Z.compare_spec (x mod 10) (y mod 10)) as [E|E|E].
  - rewrite E, N.compare_refl. reflexivity.
  - assert ((48 + Z.to_N (x mod 10) ?= 48 + Z.to_N (y mod 10))%N = Lt) as ->;
      [apply N.compare_lt_iff; lia | reflexivity].
  - assert ((48 + Z.to_N (x mod 10) ?= 48 + Z.to_N (y mod 10))%N = Gt) as ->;
      [apply N.compare_gt_iff; lia | reflexivity].
Qed.

Lemma compare_pad2 a b k1 k2 :
  String.compare (pad2 a k1) (pad2 b k2)
  = match a mod 100 ?= b mod 100 with
    | Eq => String.compare k1 k2
    | c => c
    end.
Proof.
  unfold pad2. rewrite !compare_digit.
  destruct (Z.compare_spec ((a / 10) mod 10) ((b / 10) mod 10));
    destruct (Z.compare_spec (a mod 10) (b mod 10));
    destruct (Z.compare_spec (a mod 100) (b mod 100));
    try reflexivity; exfalso; zdiv.
Qed.

Lemma pad4_pad2 a k : pad4 a k = pad2 (a / 100) (pad2 a k).
Proof.
  unfold pad4, pad3, pad2.
  assert (digit (a / 1000) = digit (a / 100 / 10)) as ->; [|reflexivity].
  unfold digit. do 3 f_equal. zdiv.
Qed.

Lemma compare_pad4 a b k1 k2 :
  0 <= a <= 9999 -> 0 <= b <= 9999 ->
  String.compare (pad4 a k1) (pad4 b k2)
  = match a ?= b with
    | Eq => String.compare k1 k2
    | c => c
    end.
Proof.
  intros Ha Hb. rewrite !pad4_pad2, !compare_pad2.
  destruct (Z.compare_spec ((a / 100) mod 100) ((b / 100) mod 100));
    destruct (Z.compare_spec (a mod 100) (b mod 100));
    destruct (Z.compare_spec a b);
    try reflexivity; exfalso; zdiv.
Qed.

Lemma compare_isoDate_fields t1 t2 :
  fourDigitYear t1 -> fourDigitYear t2 ->
  String.compare (isoDate t1) (isoDate t2)
  = match YearFromTime t1 ?= YearFromTime t2 with
    | Eq => match MonthFromTime t1 ?= MonthFromTime t2 with
            | Eq => DateFromTime t1 ?= DateFromTime t2
            | c => c
            end
    | c => c
    end.
Proof.
  unfold fourDigitYear, isoDate, yearString. intros H1 H2.
  rewrite !(proj2 (andb_true_iff _ _)) by (split; apply Z.leb_le; lia).
  rewrite compare_pad4 by lia.
  destruct (YearFromTime t1 ?= YearFromTime t2); try reflexivity.
  change (String.compare (String "-" ?a) (String "-" ?b))
    with (String.compare a b).
  pose proof (MonthFromTime_range t1). pose proof (MonthFromTime_range t2).
  pose proof (DateFromTime_range t1). pose proof (DateFromTime_range t2).
  rewrite compare_pad2.
  rewrite !(Z.mod_small (_ + 1) 100) by lia.
  destruct (Z.compare_spec (MonthFromTime t1 + 1) (MonthFromTime t2 + 1));
    destruct (Z.compare_spec (MonthFromTime t1) (MonthFromTime t2));
    try reflexivity; try lia.
  change (String.compare (String "-" ?a) (String "-" ?b))
    with (String.compare a b).
  rewrite compare_pad2. rewrite !Z.mod_small by lia.
  destruct (DateFromTime t1 ?= DateFromTime t2); reflexivity.
Qed.

Lemma Day_of_fields t :
  Day t = DayFromYear (YearFromTime t)
          + monthStart (MonthFromTime t) (InLeapYear t) + DateFromTime t - 1.
Proof. unfold DateFromTime, DayWithinYear. lia. Qed.

Lemma month_start_le t :
  monthStart (MonthFromTime t) (InLeapYear t) <= DayWithinYear t.
Proof.
  pose proof (DayWithinYear_range t) as Hr.
  unfold MonthFromTime.
  destruct (InLeapYear_cases t) as [[E _]|[E _]]; rewrite E in *;
    month_cases; unfold monthStart; simpl; lia.
Qed.

Lemma month_next_start t m :
  MonthFromTime t < m <= 11 ->
  DayWithinYear t < monthStart m (InLeapYear t).
Proof.
  intros Hm. unfold MonthFromTime in Hm.
  destruct (InLeapYear_cases t) as [[E _]|[E _]]; rewrite E in *;
    unfold monthStart;
    repeat match goal with
           | |- context [?a =? ?b] => destruct (Z.eqb_spec a b)
           end;
    revert Hm; month_cases; lia.
Qed.

(** Year, month and date order the days. *)
Lemma compare_fields_Day t1 t2 :
  match YearFromTime t1 ?= YearFromTime t2 with
  | Eq => match MonthFromTime t1 ?= MonthFromTime t2 with
          | Eq => DateFromTime t1 ?= DateFromTime t2
          | c => c
          end
  | c => c
  end = (Day t1 ?= Day t2).
Proof.
  pose proof (YearFromDay_spec (Day t1)) as S1.
  pose proof (YearFromDay_spec (Day t2)) as S2.
  fold (YearFromTime t1) in S1. fold (YearFromTime t2) in S2.
  symmetry.
  destruct (Z.compare_spec (YearFromTime t1) (YearFromTime t2)) as [EY|LY|GY].
  - assert (EL : InLeapYear t1 = InLeapYear t2)
      by (unfold InLeapYear; by rewrite EY).
    pose proof (MonthFromTime_range t1) as R1.
    pose proof (MonthFromTime_range t2) as R2.
    pose proof (month_start_le t1) as L1.
    pose proof (month_start_le t2) as L2.
    destruct (Z.compare_spec (MonthFromTime t1) (MonthFromTime t2))
      as [EM|LM|GM].
    + rewrite (Day_of_fields t1), (Day_of_fields t2), EY, EL, EM.
      destruct (Z.compare_spec (DateFromTime t1) (DateFromTime t2));
        [apply Z.compare_eq_iff | apply Z.compare_lt_iff
        | apply Z.compare_gt_iff]; lia.
    + pose proof (month_next_start t1 (MonthFromTime t2) ltac:(lia)) as N.
      apply Z.compare_lt_iff. unfold DayWithinYear in *.
      rewrite EL, EY in N. rewrite EY in L1. lia.
    + pose proof (month_next_start t2 (MonthFromTime t1) ltac:(lia)) as N.
      apply Z.compare_gt_iff. unfold DayWithinYear in *.
      rewrite <- EL, <- EY in N. rewrite <- EY in L2. lia.
  - apply Z.compare_lt_iff.
    assert (DayFromYear (YearFromTime t1 + 1) <= DayFromYear (YearFromTime t2)).
    { destruct (Z.eq_dec (YearFromTime t1 + 1) (YearFromTime t2)) as [->|];
        [lia|]. apply Z.lt_le_incl, DayFromYear_lt. lia. }
    lia.
  - apply Z.compare_gt_iff.
    assert (DayFromYear (YearFromTime t2 + 1) <= DayFromYear (YearFromTime t1)).
    { destruct (Z.eq_dec (YearFromTime t2 + 1) (YearFromTime t1)) as [->|];
        [lia|]. apply Z.lt_le_incl, DayFromYear_lt. lia. }
    lia.
Qed.

(** Date strings with four-digit years are ordered as their days. *)
Lemma compare_isoDate t1 t2 :
  fourDigitYear t1 -> fourDigitYear t2 ->
  String.compare (isoDate t1) (isoDate t2) = (Day t1 ?= Day t2).
Proof.
  intros H1 H2. rewrite compare_isoDate_fields by done.
  apply compare_fields_Day.
Qed.

Lemma leb_isoDate t1 t2 :
  fourDigitYear t1 -> fourDigitYear t2 ->
  String.leb (isoDate t1) (isoDate t2) = (Day t1 <=? Day t2).
Proof.
  intros H1 H2. unfold String.leb, Z.leb.
  by rewrite compare_isoDate.
Qed.

Lemma ltb_isoDate t1 t2 :
  fourDigitYear t1 -> fourDigitYear t2 ->
  String.ltb (isoDate t1) (isoDate t2) = (Day t1 <? Day t2).
Proof.
  intros H1 H2. unfold String.ltb, Z.ltb.
  by rewrite compare_isoDate.
Qed.

(** The years 0 to 9999 in days. *)
Lemma fourDigitYear_iff t :
  fourDigitYear t <-> -719528 <= Day t < 2932897.
Proof.
  unfold fourDigitYear.
  pose proof (YearFromDay_spec (Day t)) as S.
  fold (YearFromTime t) in S.
  change (-719528) with (DayFromYear 0).
  change 2932897 with (DayFromYear 10000).
  split.
  - intros [H0 H1].
    pose proof (DayFromYear_le 0 (YearFromTime t) H0).
    pose proof (DayFromYear_le (YearFromTime t + 1) 10000 ltac:(lia)). lia.
  - intros [H0 H1]. split.
    + destruct (Z_lt_le_dec (YearFromTime t) 0); [|lia].
      pose proof (DayFromYear_le (YearFromTime t + 1) 0 ltac:(lia)). lia.
    + destruct (Z_lt_le_dec 9999 (YearFromTime t)); [|lia].
      pose proof (DayFromYear_le 10000 (YearFromTime t) ltac:(lia)). lia.
Qed.

End JsDateFacts.

(* ===================================================================== *)
(** * Facts about the pass *)
(* ===================================================================== *)

Local Open Scope js_scope.

(** ** Traces of compound computations *)

Lemma trace_bind {A B} (m : M A) (f : A -> M B) :
  trace (bind m f) =
  match result m with
  | Ok a => trace m ++ trace (f a)
  | Throw _ => trace m
  end.
Proof. destruct m as [t [a|e]]; simpl; [|done]. by destruct (f a). Qed.

Lemma result_bind {A B} (m : M A) (f : A -> M B) :
  result (bind m f) =
  match result m with
  | Ok a => result (f a)
  | Throw e => Throw e
  end.
Proof. destruct m as [t [a|e]]; simpl; [|done]. by destruct (f a). Qed.

Lemma bind_ret_l {A B} (a : A) (f : A -> M B) : bind (ret a) f = f a.
Proof. unfold bind, ret. by destruct (f a). Qed.

Lemma trace_try_catch {A} (m : M A) (h : Exn -> M A) :
  trace (try_catch m h) =
  match result m with
  | Ok _ => trace m
  | Throw e => trace m ++ trace (h e)
  end.
Proof. destruct m as [t [a|e]]; simpl; [done|]. by destruct (h e). Qed.

Lemma result_try_catch {A} (m : M A) (h : Exn -> M A) :
  result (try_catch m h) =
  match result m with
  | Ok a => Ok a
  | Throw e => result (h e)
  end.
Proof. destruct m as [t [a|e]]; simpl; [done|]. by destruct (h e). Qed.

Lemma dueEvents_app t1 t2 : dueEvents (t1 ++ t2) = dueEvents t1 ++ dueEvents t2.
Proof. unfold dueEvents. apply omap_app. Qed.

Lemma mailsSent_app t1 t2 : mailsSent (t1 ++ t2) = mailsSent t1 ++ mailsSent t2.
Proof. unfold mailsSent. apply omap_app. Qed.

(** A loop that completes has run every body to completion, and its
    trace is the bodies' traces in order; a loop that throws has run a
    part of them. *)
Lemma forOf_ok {A} (l : list A) (body : A -> M unit) :
  result (forOf l body) = Ok tt ->
  Forall (fun x => result (body x) = Ok tt) l /\
  trace (forOf l body) = concat (map (fun x => trace (body x)) l).
Proof.
  induction l as [|x rest IH]; simpl; [done|].
  rewrite result_bind, trace_bind.
  destruct (result (body x)) as [[]|e] eqn:E; [|done].
  intros H. destruct (IH H) as [H1 H2]. split; [by constructor|].
  by rewrite H2.
Qed.

(** The same for a loop whose bodies are described by [g]: the events
    of the loop are a part of those [g] lists, and all of them when the
    loop completes. *)
Lemma forOf_dueEvents {A} (l : list A) (body : A -> M unit)
    (g : A -> list DueEvent) :
  (forall x, dueEvents (trace (body x)) `prefix_of` g x /\
             (result (body x) = Ok tt -> dueEvents (trace (body x)) = g x)) ->
  dueEvents (trace (forOf l body)) `prefix_of` (l ≫= g) /\
  (result (forOf l body) = Ok tt ->
   dueEvents (trace (forOf l body)) = l ≫= g).
Proof.
  intros Hb. induction l as [|x rest [IH1 IH2]]; [done|].
  rewrite bind_cons. simpl forOf.
  rewrite trace_bind, result_bind. destruct (Hb x) as [Hp He].
  destruct (result (body x)) as [[]|e].
  - rewrite dueEvents_app, He by done. split.
    + by apply prefix_app.
    + intros H. by rewrite IH2.
  - split; [by apply prefix_app_r | done].
Qed.

(** ** Dates in the pass *)

Lemma TimeClip_Some x t :
  JsDate.TimeClip x = Some t -> x = t /\ JsDate.TimeClip t = Some t.
Proof.
  unfold JsDate.TimeClip. destruct (Z.abs x >? _) eqn:E; [done|].
  intros [= <-]. by rewrite E.
Qed.

Lemma ofString_clipped host v t :
  JsDate.ofString host v = Some t -> JsDate.TimeClip t = Some t.
Proof.
  unfold JsDate.ofString. destruct v as [s|]; [|done].
  destruct (JsDate.Date_parse host s); [|done].
  intros H. by apply TimeClip_Some in H as [_ H].
Qed.

Lemma isoDay_valid t : isoDay (Some t) = ret (JsDate.isoDate t).
Proof.
  unfold isoDay.
  pose proof (JsDateFacts.toISOString_day t) as H.
  destruct (JsDate.toISOString (Some t)) as [s|]; [|done].
  simpl in H. by injection H as ->.
Qed.

Lemma window_fourDigit now :
  JsDate.fourDigitYear (now + 2 * JsDate.msPerDay) ->
  JsDate.fourDigitYear now ->
  window now = Some (JsDate.isoDate (now + 1 * JsDate.msPerDay),
                     JsDate.isoDate (now + 2 * JsDate.msPerDay)).
Proof.
  rewrite !JsDateFacts.fourDigitYear_iff, JsDateFacts.Day_add_days.
  intros H2 H0. unfold window, JsDate.TimeClip.
  unfold JsDate.Day, JsDate.msPerDay in *.
  assert (-62167219200000 <= now < 253402300800000 - 172800000) as Hn
    by JsDateFacts.zdiv.
  assert ((Z.abs (now + 1 * 86400000) >? 8640000000000000) = false) as ->
    by (rewrite Z.gtb_ltb; apply Z.ltb_ge; lia).
  assert ((Z.abs (now + 1 * 86400000 + 1 * 86400000) >? 8640000000000000)
          = false) as -> by (rewrite Z.gtb_ltb; apply Z.ltb_ge; lia).
  do 3 f_equal. lia.
Qed.

(** ** The branch that notifies *)

Ltac split_ifs :=
  repeat match goal with
         | |- context [if ?b then _ else _] => destruct b eqn:?; simpl
         end.


Section PassFacts.
Variable host : JsDate.Host.
Variable db : Store.
Variable delivers : Mail -> bool.
Variable intervals : Obj.

Lemma sendReminderEmail_spec recipient petName vaccine due :
  result (sendReminderEmail host delivers recipient petName vaccine due)
    = Ok tt /\
  mailsSent (trace (sendReminderEmail host delivers recipient petName
                      vaccine due))
    = (if JsString.truthy recipient
       then [reminder host (JsString.String_ recipient) petName vaccine due]
       else []) /\
  dueEvents (trace (sendReminderEmail host delivers recipient petName
                      vaccine due)) = [].
Proof.
  unfold sendReminderEmail. by destruct (JsString.truthy recipient).
Qed.

Lemma notify_dueEvents pet latest due :
  dueEvents (trace (notify host db delivers pet latest due)) = [].
Proof.
  unfold notify, findAcceptedAdoption, findPurchase, sendReminderEmail.
  simpl. split_ifs; reflexivity.
Qed.

(** The mails of one notification: one to the address of the adoption
    found, if it has one, then one to the address of the purchase found,
    if it has one. *)
Lemma notify_mails pet latest due :
  adoptionQueryFails db (_id pet) = false ->
  purchaseQueryFails db (_id pet) = false ->
  let adoption := acceptedAdoptionOf db (_id pet) in
  let purchase := purchaseOf db (_id pet) in
  let vaccine := JsString.String_ (vaccineType latest) in
  result (notify host db delivers pet latest due) = Ok tt /\
  mailsSent (trace (notify host db delivers pet latest due))
  = (if JsString.truthy (adoption ≫= adopterEmail)
     then [reminder host (JsString.String_ (adoption ≫= adopterEmail))
                    (pet_name pet) vaccine due]
     else [])
    ++ (if JsString.truthy (purchase ≫= buyerEmail)
        then [reminder host (JsString.String_ (purchase ≫= buyerEmail))
                       (pet_name pet) vaccine due]
        else []).
Proof.
  intros Ha Hp. unfold notify, findAcceptedAdoption, findPurchase.
  rewrite Ha, Hp. unfold sendReminderEmail. simpl.
  destruct (acceptedAdoptionOf db (_id pet)) as [a|];
    destruct (purchaseOf db (_id pet)) as [p|]; simpl;
    split_ifs; done.
Qed.

(** ** The due check *)

(** What [checkType] does, given what the due check decides: nothing,
    or the branch that notifies. *)
Lemma checkType_trace ts das pet entry :
  trace (checkType host db delivers ts das pet entry)
  = match dueCheck host ts das pet entry with
    | Some ev => Due ev :: trace (notify host db delivers pet (due_latest ev)
                                         (due_date ev))
    | None => []
    end /\
  match dueCheck host ts das pet entry with
  | Some ev => result (checkType host db delivers ts das pet entry)
               = result (notify host db delivers pet (due_latest ev)
                                (due_date ev))
  | None => result (checkType host db delivers ts das pet entry) = Ok tt \/
            result (checkType host db delivers ts das pet entry)
            = Throw RangeError
  end.
Proof.
  destruct entry as [k n]. unfold checkType, dueCheck. simpl fst. simpl snd.
  destruct (entriesForType pet k) as [|first rest]; [by split; [|left]|].
  set (latest := fold_left (later host) (first :: rest) first).
  destruct (JsDate.ofString host (date latest)) as [t|] eqn:Et;
    [|by split; [|left]].
  simpl JsDate.isNaN. cbv iota.
  unfold JsDate.copy. rewrite (ofString_clipped _ _ _ Et).
  rewrite JsDateFacts.setDate_getDate_plus.
  destruct (JsDate.TimeClip (t + n * JsDate.msPerDay)) as [d|];
    [|by split; [|right]].
  rewrite isoDay_valid, bind_ret_l.
  destruct (String.leb ts (JsDate.isoDate d)
            && String.ltb (JsDate.isoDate d) das); [|by split; [|left]].
  rewrite trace_bind, result_bind. by cbn [trace result tell fst snd].
Qed.

Lemma checkType_dueEvents ts das pet entry :
  dueEvents (trace (checkType host db delivers ts das pet entry))
    = option_list (dueCheck host ts das pet entry).
Proof.
  destruct (checkType_trace ts das pet entry) as [-> _].
  destruct (dueCheck host ts das pet entry) as [ev|]; [|done].
  change (Due ev :: ?t) with ([Due ev] ++ t).
  by rewrite dueEvents_app, notify_dueEvents.
Qed.

(** ** The whole pass *)

(** The pass with its dates computed. *)
Lemma pass_unfold now :
  sendVaccinationReminders host db delivers intervals now
  = try_catch
      (match window now with
       | Some (tomorrowStr, dayAfterTomorrowStr) =>
           pets <- findPets db ;;
           forOf pets (fun pet =>
             forOf intervals
               (checkType host db delivers tomorrowStr dayAfterTomorrowStr
                          pet))
       | None => throw RangeError
       end)
      (fun _ => tell (Log ErrorInSendingReminders)).
Proof.
  unfold sendVaccinationReminders, window. f_equal.
  rewrite JsDateFacts.setDate_getDate_plus.
  destruct (JsDate.TimeClip (now + 1 * JsDate.msPerDay)) as [t1|] eqn:E1;
    [|done].
  rewrite isoDay_valid, bind_ret_l.
  unfold JsDate.copy. apply TimeClip_Some in E1 as [_ ->].
  rewrite JsDateFacts.setDate_getDate_plus.
  destruct (JsDate.TimeClip (t1 + 1 * JsDate.msPerDay)) as [t2|]; [|done].
  by rewrite isoDay_valid, bind_ret_l.
Qed.

(** The pass never throws: its handler catches everything. *)
Lemma pass_result now :
  result (sendVaccinationReminders host db delivers intervals now) = Ok tt.
Proof.
  unfold sendVaccinationReminders. rewrite result_try_catch.
  match goal with |- match result ?m with _ => _ end = _ =>
    destruct (result m) as [[]|e]; reflexivity end.
Qed.

Lemma erred_app t1 t2 : erred (t1 ++ t2) = erred t1 || erred t2.
Proof. unfold erred. apply existsb_app. Qed.

Lemma findPets_spec :
  trace (findPets db) = [FindPets] /\
  (result (findPets db) = Ok (petsWithVaccinations db) \/
   exists e, result (findPets db) = Throw e).
Proof.
  unfold findPets. destruct (petQueryFails db); simpl; eauto.
Qed.

(** The events of a pass are the first ones of [allDue], and all of
    them unless the handler ran. *)
Lemma pass_dueEvents now :
  let t := trace (sendVaccinationReminders host db delivers intervals now) in
  dueEvents t `prefix_of` allDue host intervals db now /\
  (erred t = false -> dueEvents t = allDue host intervals db now).
Proof.
  intros t. subst t. rewrite pass_unfold, trace_try_catch. unfold allDue.
  destruct (window now) as [[ts das]|].
  2: { simpl. split; [done|discriminate]. }
  set (body := fun pet =>
         forOf intervals (checkType host db delivers ts das pet)).
  set (g := fun pet =>
         intervals ≫= fun entry => option_list (dueCheck host ts das pet entry)).
  assert (Hbody : forall pet,
             dueEvents (trace (body pet)) `prefix_of` g pet /\
             (result (body pet) = Ok tt -> dueEvents (trace (body pet)) = g pet)).
  { intros pet. unfold body, g.
    apply (forOf_dueEvents intervals _
             (fun entry => option_list (dueCheck host ts das pet entry))).
    intros entry. rewrite checkType_dueEvents. done. }
  rewrite result_bind, trace_bind.
  destruct findPets_spec as [Ht [Hr|[e Hr]]]; rewrite Hr, ?Ht.
  - destruct (forOf_dueEvents (petsWithVaccinations db) body g Hbody)
      as [Hp He].
    fold body.
    destruct (result (forOf (petsWithVaccinations db) body)) as [[]|e].
    + simpl. split; [done|]. intros _. by apply He.
    + rewrite !dueEvents_app, !erred_app. simpl.
      rewrite app_nil_r, orb_true_r. split; [done|discriminate].
  - rewrite !dueEvents_app, !erred_app. simpl.
    split; [apply prefix_nil|discriminate].
Qed.

End PassFacts.

(** The adoption the pass finds for a pet is one of the collection, for
    that pet, with the status [accepted]. *)
Lemma acceptedAdoptionOf_Some db petId a :
  acceptedAdoptionOf db petId = Some a ->
  a ∈ adoptionCollection db /\ adoption_petId a = petId /\
  status a = "accepted".
Proof.
  unfold acceptedAdoptionOf. intros [Hin Hc]%find_some.
  apply andb_true_iff in Hc as [H1%String.eqb_eq H2%String.eqb_eq].
  split; [by apply list_elem_of_In|done].
Qed.

(** ** What an event tells *)

Lemma fold_later_in host (l : list Vaccination) x :
  fold_left (later host) l x ∈ x :: l.
Proof.
  revert x. induction l as [|y l IH]; intros x; simpl; [by left|].
  specialize (IH (later host x y)).
  assert (later host x y = x \/ later host x y = y) as [E|E]
    by (unfold later; destruct (JsDate.gt _ _); auto).
  - rewrite E in *.
    apply elem_of_cons in IH as [->|IH]; [by left | by do 2 right].
  - rewrite E in *. by right.
Qed.

Lemma entriesForType_elem pet k e :
  e ∈ entriesForType pet k ->
  Some e ∈ default [] (vaccinations pet) /\
  JsString.truthy (vaccineType e) = true /\
  JsString.truthy (date e) = true /\
  typeKey (JsString.String_ (vaccineType e)) = k.
Proof.
  unfold entriesForType. intros (v & Hv & Hk)%list_elem_of_omap.
  destruct v as [e'|]; simpl in Hk; [|done].
  destruct (JsString.truthy (vaccineType e')) eqn:E1; [|done].
  destruct (JsString.truthy (date e')) eqn:E2; [|done]. simpl in Hk.
  destruct (String.eqb_spec (typeKey (JsString.String_ (vaccineType e'))) k);
    [|done].
  injection Hk as <-. done.
Qed.

Lemma dueCheck_Some host ts das pet entry ev :
  dueCheck host ts das pet entry = Some ev ->
  due_pet ev = pet /\ due_key ev = entry.1 /\
  due_latest ev ∈ entriesForType pet entry.1 /\
  exists t d,
    JsDate.ofString host (date (due_latest ev)) = Some t /\
    JsDate.TimeClip (t + entry.2 * JsDate.msPerDay) = Some d /\
    due_date ev = JsDate.isoDate d /\
    String.leb ts (JsDate.isoDate d) = true /\
    String.ltb (JsDate.isoDate d) das = true.
Proof.
  unfold dueCheck.
  destruct (entriesForType pet entry.1) as [|first rest] eqn:E; [done|].
  set (latest := fold_left (later host) (first :: rest) first).
  destruct (JsDate.ofString host (date latest)) as [t|] eqn:Et; [|done].
  destruct (JsDate.TimeClip (t + entry.2 * JsDate.msPerDay)) as [d|] eqn:Ed;
    [|done].
  destruct (String.leb ts (JsDate.isoDate d)) eqn:E1; [|done].
  destruct (String.ltb (JsDate.isoDate d) das) eqn:E2; [|done].
  intros [= <-]. simpl. repeat split; [|by exists t, d].
  pose proof (fold_later_in host (first :: rest) first) as Hin.
  fold latest in Hin. apply elem_of_cons in Hin as [->|Hin]; [by left|done].
Qed.

Lemma allDue_elem host intervals db now ev :
  ev ∈ allDue host intervals db now ->
  exists ts das pet entry,
    window now = Some (ts, das) /\ pet ∈ petsWithVaccinations db /\
    entry ∈ intervals /\ dueCheck host ts das pet entry = Some ev.
Proof.
  unfold allDue. destruct (window now) as [[ts das]|]; [|by intros ?%elem_of_nil].
  intros (pet & (entry & Hev & He)%list_elem_of_bind & Hp)%list_elem_of_bind.
  exists ts, das, pet, entry. repeat split; [done..|].
  destruct (dueCheck host ts das pet entry) as [ev'|]; simpl in Hev.
  - apply list_elem_of_singleton in Hev. by subst.
  - by apply elem_of_nil in Hev.
Qed.

Lemma petsWithVaccinations_elem db pet :
  pet ∈ petsWithVaccinations db <->
  pet ∈ petCollection db /\
  exists v vs, vaccinations pet = Some (v :: vs).
Proof.
  unfold petsWithVaccinations. rewrite !list_elem_of_In, filter_In.
  split; intros [H1 H2]; (split; [done|]).
  - destruct (vaccinations pet) as [[|v vs]|]; try done. by exists v, vs.
  - destruct H2 as (v & vs & ->). done.
Qed.

(** Every event of a pass comes from a pet of the collection and an
    entry of the interval table, and names a dose of that pet that is
    filed under that entry. *)
Lemma pass_due_elem host db delivers intervals now ev :
  ev ∈ dueEvents (trace (sendVaccinationReminders host db delivers intervals
                           now)) ->
  exists ts das entry,
    window now = Some (ts, das) /\
    due_pet ev ∈ petsWithVaccinations db /\
    entry ∈ intervals /\
    dueCheck host ts das (due_pet ev) entry = Some ev.
Proof.
  intros Hev.
  destruct (pass_dueEvents host db delivers intervals now) as [Hp _].
  apply (elem_of_prefix _ _ _ Hev) in Hp.
  destruct (allDue_elem _ _ _ _ _ Hp) as (ts & das & pet & entry & ? & ? & ? & Hd).
  destruct (dueCheck_Some _ _ _ _ _ _ Hd) as (<- & _).
  by exists ts, das, entry.
Qed.

(** ** Properties of traces that pass through the control structure *)

Section TraceClosed.
Variable Q : list Effect -> Prop.
Hypothesis Q_nil : Q [].
Hypothesis Q_app : forall t1 t2, Q t1 -> Q t2 -> Q (t1 ++ t2).

Lemma closed_bind {A B} (m : M A) (f : A -> M B) :
  Q (trace m) -> (forall a, Q (trace (f a))) -> Q (trace (bind m f)).
Proof.
  intros Hm Hf. rewrite trace_bind. destruct (result m); auto.
Qed.

Lemma closed_forOf {A} (l : list A) (body : A -> M unit) :
  (forall x, Q (trace (body x))) -> Q (trace (forOf l body)).
Proof.
  intros Hb. induction l as [|x rest IH]; simpl; [done|].
  by apply closed_bind.
Qed.

Lemma closed_try_catch {A} (m : M A) (h : Exn -> M A) :
  Q (trace m) -> (forall e, Q (trace (h e))) -> Q (trace (try_catch m h)).
Proof.
  intros Hm Hh. rewrite trace_try_catch. destruct (result m); auto.
Qed.

End TraceClosed.

(** ** The mails of a pass *)

Section MailFacts.
Variable host : JsDate.Host.
Variable db : Store.
Variable delivers : Mail -> bool.
Variable intervals : Obj.

Lemma mailsAccounted_nil : mailsAccounted host db [].
Proof. unfold mailsAccounted. simpl. constructor. Qed.

Lemma mailsAccounted_app t1 t2 :
  mailsAccounted host db t1 -> mailsAccounted host db t2 ->
  mailsAccounted host db (t1 ++ t2).
Proof.
  unfold mailsAccounted. intros H1 H2.
  rewrite mailsSent_app, dueEvents_app, bind_app. by apply sublist_app.
Qed.

Lemma notify_mails_prefix pet k latest due :
  mailsSent (trace (notify host db delivers pet latest due))
  `prefix_of` remindersFor host db
                {| due_pet := pet; due_key := k; due_latest := latest;
                   due_date := due |}.
Proof.
  unfold remindersFor, adopterReminder, buyerReminder. simpl.
  unfold notify, findAcceptedAdoption, findPurchase, sendReminderEmail.
  simpl. split_ifs;
    first [ apply prefix_nil | reflexivity | apply prefix_cons, prefix_nil
          | discriminate ].
Qed.

Lemma checkType_mailsAccounted ts das pet entry :
  mailsAccounted host db (trace (checkType host db delivers ts das pet entry)).
Proof.
  unfold mailsAccounted.
  rewrite checkType_dueEvents.
  destruct (checkType_trace host db delivers ts das pet entry) as [-> _].
  destruct (dueCheck host ts das pet entry) as [ev|] eqn:E; [|constructor].
  destruct (dueCheck_Some _ _ _ _ _ _ E) as (Hp & _).
  simpl. rewrite app_nil_r.
  destruct (notify_mails_prefix pet (due_key ev) (due_latest ev) (due_date ev))
    as [k Hk].
  destruct ev as [p' k' l' d']. simpl in *. subst p'.
  rewrite Hk. by apply sublist_inserts_r.
Qed.

Lemma pass_mailsAccounted now :
  mailsAccounted host db
    (trace (sendVaccinationReminders host db delivers intervals now)).
Proof.
  rewrite pass_unfold.
  apply closed_try_catch;
    [apply mailsAccounted_app | | intros; by constructor].
  destruct (window now) as [[ts das]|]; [|by constructor].
  apply closed_bind; [apply mailsAccounted_app | |].
  - unfold findPets. destruct (petQueryFails db); by constructor.
  - intros pets. apply closed_forOf; [apply mailsAccounted_nil |
                                       apply mailsAccounted_app |].
    intros pet. apply closed_forOf; [apply mailsAccounted_nil |
                                      apply mailsAccounted_app |].
    apply checkType_mailsAccounted.
Qed.

End MailFacts.

(** ** Each pair at most once *)

Lemma obj_set_keys (o : Obj) k v x :
  x ∈ (obj_set o k v).*1 <-> x ∈ o.*1 \/ x = k.
Proof.
  induction o as [|[k' v'] rest IH]; simpl.
  - rewrite list_elem_of_singleton. split; [auto|]. intros [H|H]; [|done].
    by apply elem_of_nil in H.
  - destruct (String.eqb_spec k' k) as [->|Hne]; simpl.
    + rewrite elem_of_cons. tauto.
    + rewrite !elem_of_cons, IH. tauto.
Qed.

Lemma obj_set_NoDup (o : Obj) k v : NoDup o.*1 -> NoDup (obj_set o k v).*1.
Proof.
  induction o as [|[k' v'] rest IH]; simpl.
  - intros _. apply NoDup_singleton.
  - intros [Hnot Hnd]%NoDup_cons.
    destruct (String.eqb_spec k' k) as [->|Hne]; simpl.
    + by apply NoDup_cons.
    + apply NoDup_cons. split; [|by apply IH].
      rewrite obj_set_keys. intros [?|?]; [done|congruence].
Qed.

(** The keys of a normalised table are pairwise different. *)
Lemma normalizeIntervals_NoDup (table : Obj) :
  NoDup (normalizeIntervals table).*1.
Proof.
  unfold normalizeIntervals.
  assert (H : forall o : Obj, NoDup o.*1 ->
            NoDup (fold_left (fun normalized '(k, v) =>
                     obj_set normalized (JsString.toLowerCase k) v) table o).*1).
  { induction table as [|[k v] rest IH]; intros o Ho; simpl; [done|].
    by apply IH, obj_set_NoDup. }
  apply H. constructor.
Qed.

Lemma NoDup_fmap_eq {A B} (f : A -> B) (l : list A) x y :
  NoDup (f <$> l) -> x ∈ l -> y ∈ l -> f x = f y -> x = y.
Proof.
  induction l as [|z l IH]; [by intros _ ?%elem_of_nil|].
  rewrite fmap_cons. intros [Hnot Hnd]%NoDup_cons.
  intros [->|Hx]%elem_of_cons [->|Hy]%elem_of_cons Hf; [done| | |by apply IH].
  - destruct Hnot. rewrite Hf. by apply list_elem_of_fmap_2.
  - destruct Hnot. rewrite <- Hf. by apply list_elem_of_fmap_2.
Qed.

Lemma fmap_list_bind {A B C} (f : B -> C) (g : A -> list B) (l : list A) :
  f <$> (l ≫= g) = l ≫= (fun x => f <$> g x).
Proof.
  induction l as [|x l IH]; [done|].
  by rewrite !bind_cons, fmap_app, IH.
Qed.

Lemma petsWithVaccinations_NoDup db :
  NoDup (_id <$> petCollection db) -> NoDup (petsWithVaccinations db).
Proof.
  intros H%NoDup_fmap_1. unfold petsWithVaccinations.
  induction H as [|p l Hnot Hnd IH]; simpl; [constructor|].
  destruct (match vaccinations p with Some (_ :: _) => true | _ => false end);
    [|done].
  apply NoDup_cons. split; [|done].
  rewrite list_elem_of_In, filter_In, <- list_elem_of_In. tauto.
Qed.

(** The pairs the two loops visit. *)
Lemma pairs_NoDup db (intervals : Obj) :
  NoDup (_id <$> petCollection db) -> NoDup intervals.*1 ->
  NoDup (pet ← petsWithVaccinations db;
         entry ← intervals;
         [ (_id pet, entry.1) ]).
Proof.
  intros Hpets Hkeys. apply NoDup_bind.
  - intros p1 p2 y Hp1 Hp2 H1 H2.
    apply (NoDup_fmap_eq _id (petCollection db)); [done|..].
    + by apply petsWithVaccinations_elem in Hp1 as [? _].
    + by apply petsWithVaccinations_elem in Hp2 as [? _].
    + apply list_elem_of_bind in H1 as (n1 & ->%list_elem_of_singleton & _).
      apply list_elem_of_bind in H2 as (n2 & H2%list_elem_of_singleton & _).
      by injection H2.
  - intros p _. apply NoDup_bind.
    + intros n1 n2 y Hn1 Hn2 ->%list_elem_of_singleton
        H2%list_elem_of_singleton.
      apply (NoDup_fmap_eq fst intervals); [done..|]. by injection H2.
    + intros n _. apply NoDup_singleton.
    + by apply NoDup_fmap_1 in Hkeys.
  - by apply petsWithVaccinations_NoDup.
Qed.

Lemma allDue_NoDup host intervals db now :
  NoDup (_id <$> petCollection db) -> NoDup intervals.*1 ->
  NoDup (pairOf <$> allDue host intervals db now).
Proof.
  intros Hpets Hkeys. unfold allDue.
  destruct (window now) as [[ts das]|]; [|constructor].
  rewrite fmap_list_bind. apply NoDup_bind.
  - intros p1 p2 y Hp1 Hp2 H1 H2.
    apply (NoDup_fmap_eq _id (petCollection db)); [done|..].
    + by apply petsWithVaccinations_elem in Hp1 as [? _].
    + by apply petsWithVaccinations_elem in Hp2 as [? _].
    + apply list_elem_of_fmap in H1 as (e1 & -> & H1).
      apply list_elem_of_fmap in H2 as (e2 & Heq & H2).
      apply list_elem_of_bind in H1 as (n1 & H1 & _).
      apply list_elem_of_bind in H2 as (n2 & H2 & _).
      destruct (dueCheck host ts das p1 n1) as [ev1|] eqn:E1;
        [|by apply elem_of_nil in H1].
      destruct (dueCheck host ts das p2 n2) as [ev2|] eqn:E2;
        [|by apply elem_of_nil in H2].
      apply list_elem_of_singleton in H1, H2. subst.
      apply dueCheck_Some in E1 as (<- & _), E2 as (<- & _).
      by injection Heq.
  - intros p _. rewrite fmap_list_bind. apply NoDup_bind.
    + intros n1 n2 y Hn1 Hn2 H1 H2.
      apply (NoDup_fmap_eq fst intervals); [done..|].
      apply list_elem_of_fmap in H1 as (e1 & -> & H1).
      apply list_elem_of_fmap in H2 as (e2 & Heq & H2).
      destruct (dueCheck host ts das p n1) as [ev1|] eqn:E1;
        [|by apply elem_of_nil in H1].
      destruct (dueCheck host ts das p n2) as [ev2|] eqn:E2;
        [|by apply elem_of_nil in H2].
      apply list_elem_of_singleton in H1, H2. subst.
      apply dueCheck_Some in E1 as (_ & <- & _), E2 as (_ & <- & _).
      by injection Heq.
    + intros n _. destruct (dueCheck host ts das p n); simpl;
        [apply NoDup_singleton | constructor].
    + by apply NoDup_fmap_1 in Hkeys.
  - by apply petsWithVaccinations_NoDup.
Qed.

(** ** The events of one pair *)

Lemma filter_bind_unique {A B} (P : B -> Prop) `{!forall y, Decision (P y)}
    (g : A -> list B) (l : list A) x :
  NoDup l -> x ∈ l ->
  (forall y, y ∈ l -> y <> x -> filter P (g y) = []) ->
  filter P (l ≫= g) = filter P (g x).
Proof.
  intros Hnd. induction Hnd as [|z l Hnot Hnd IH]; [by intros ?%elem_of_nil|].
  intros Hx Hothers. rewrite bind_cons, filter_app.
  assert (Hrest : forall l' : list A,
             (forall y, y ∈ l' -> y <> x) ->
             (forall y, y ∈ l' -> y <> x -> filter P (g y) = []) ->
             filter P (l' ≫= g) = []).
  { induction l' as [|y l' IH']; intros H1 H2; [done|].
    rewrite bind_cons, filter_app, H2, IH'; [done| | | by left | ].
    - intros; apply H1; by right.
    - intros; apply H2; [by right | done].
    - apply H1; by left. }
  apply elem_of_cons in Hx as [->|Hx].
  - rewrite Hrest, app_nil_r; [done| |].
    + intros y Hy ->. done.
    + intros y Hy Hne. apply Hothers; [by right | done].
  - rewrite Hothers, IH; [done..| |by left|].
    + intros y Hy Hne. apply Hothers; [by right | done].
    + intros ->. done.
Qed.

Lemma filter_all {A} (P : A -> Prop) `{!forall y, Decision (P y)}
    (l : list A) :
  (forall x, x ∈ l -> P x) -> filter P l = l.
Proof.
  induction l as [|x l IH]; intros Hall; [done|].
  rewrite filter_cons_True by (apply Hall; by left).
  f_equal. apply IH. intros y Hy. apply Hall. by right.
Qed.

Lemma filter_prefix {A} (P : A -> Prop) `{!forall y, Decision (P y)}
    (l1 l2 : list A) :
  l1 `prefix_of` l2 -> filter P l1 `prefix_of` filter P l2.
Proof. intros [k ->]. rewrite filter_app. by apply prefix_app_r. Qed.

Lemma allDue_pair host intervals db now pet k n ts das :
  NoDup (petCollection db) -> NoDup intervals.*1 ->
  pet ∈ petsWithVaccinations db -> (k, n) ∈ intervals ->
  window now = Some (ts, das) ->
  filter (forPair pet k) (allDue host intervals db now)
  = option_list (dueCheck host ts das pet (k, n)).
Proof.
  intros Hpets Hkeys Hpet Hentry Hw. unfold allDue. rewrite Hw.
  rewrite (filter_bind_unique _ _ _ pet); [| |done|].
  - rewrite (filter_bind_unique _ _ _ (k, n)); [| |done|].
    + destruct (dueCheck host ts das pet (k, n)) as [ev|] eqn:E; [|done].
      apply dueCheck_Some in E as (Hp & Hk & _). simpl.
      rewrite filter_cons_True; [done|]. by split.
    + by apply NoDup_fmap_1 in Hkeys.
    + intros [k' n'] Hin Hne.
      destruct (dueCheck host ts das pet (k', n')) as [ev|] eqn:E; [|done].
      apply dueCheck_Some in E as (Hp & Hk & _). simpl.
      rewrite filter_cons_False; [done|]. intros [_ Hk'].
      simpl in Hk. rewrite Hk in Hk'. apply Hne.
      by apply (NoDup_fmap_eq fst intervals (k', n') (k, n) Hkeys Hin Hentry).
  - unfold petsWithVaccinations.
    clear -Hpets. induction Hpets as [|p l Hnot Hnd IH]; simpl; [constructor|].
    destruct (match vaccinations p with Some (_ :: _) => true | _ => false end);
      [|done].
    apply NoDup_cons. split; [|done].
    rewrite list_elem_of_In, filter_In, <- list_elem_of_In. tauto.
  - intros p Hp Hne.
    assert (forall es : Obj,
               filter (forPair pet k)
                 (es ≫= fun entry => option_list (dueCheck host ts das p entry))
               = []) as H; [|apply H].
    induction es as [|e es IH]; [done|].
    rewrite bind_cons, filter_app, IH, app_nil_r.
    destruct (dueCheck host ts das p e) as [ev|] eqn:E; [|done].
    apply dueCheck_Some in E as (Hp' & _). simpl.
    rewrite filter_cons_False; [done|]. intros [Hp'' _]. congruence.
Qed.

Lemma fourDigitYear_TimeClip t :
  JsDate.fourDigitYear t -> JsDate.TimeClip t = Some t.
Proof.
  rewrite JsDateFacts.fourDigitYear_iff. unfold JsDate.Day, JsDate.msPerDay.
  intros H. unfold JsDate.TimeClip.
  assert ((Z.abs t >? 8640000000000000) = false) as ->; [|done].
  rewrite Z.gtb_ltb. apply Z.ltb_ge.
  assert (-62167219200000 <= t < 253402300800000) by JsDateFacts.zdiv. lia.
Qed.

(** A pet with one dose: the entries of a key, and the due check. *)
Lemma single_dose_entries pet T s k :
  vaccinations pet
    = Some [ Some {| vaccineType := Some T; date := Some s |} ] ->
  T <> EmptyString -> s <> EmptyString ->
  entriesForType pet k
  = if String.eqb (typeKey T) k
    then [ {| vaccineType := Some T; date := Some s |} ] else [].
Proof.
  intros Hv HT Hs. unfold entriesForType. rewrite Hv. simpl.
  destruct (String.eqb_spec T EmptyString); [done|].
  destruct (String.eqb_spec s EmptyString); [done|]. simpl.
  by destruct (String.eqb (typeKey T) k).
Qed.

Lemma single_dose_dueCheck host ts das pet T s t k n :
  vaccinations pet
    = Some [ Some {| vaccineType := Some T; date := Some s |} ] ->
  T <> EmptyString -> s <> EmptyString ->
  JsDate.ofString host (Some s) = Some t ->
  dueCheck host ts das pet (k, n)
  = if String.eqb (typeKey T) k
    then match JsDate.TimeClip (t + n * JsDate.msPerDay) with
         | Some d =>
             if String.leb ts (JsDate.isoDate d)
                && String.ltb (JsDate.isoDate d) das
             then Some {| due_pet := pet; due_key := k;
                          due_latest := {| vaccineType := Some T;
                                           date := Some s |};
                          due_date := JsDate.isoDate d |}
             else None
         | None => None
         end
    else None.
Proof.
  intros Hv HT Hs Ht. unfold dueCheck. simpl fst. simpl snd.
  rewrite (single_dose_entries pet T s k Hv HT Hs).
  destruct (String.eqb (typeKey T) k); [|done].
  cbn [fold_left]. unfold later. cbn [date]. rewrite Ht.
  cbn [JsDate.gt]. rewrite Z.ltb_irrefl. cbn [date]. by rewrite Ht.
Qed.

(** The window of a pass in terms of days. *)
Lemma in_window now d :
  JsDate.fourDigitYear now ->
  JsDate.fourDigitYear (now + 2 * JsDate.msPerDay) ->
  JsDate.fourDigitYear d ->
  String.leb (JsDate.isoDate (now + 1 * JsDate.msPerDay)) (JsDate.isoDate d)
  && String.ltb (JsDate.isoDate d) (JsDate.isoDate (now + 2 * JsDate.msPerDay))
  = bool_decide (JsDate.Day d = JsDate.Day now + 1).
Proof.
  intros H0 H2 Hd.
  assert (H1 : JsDate.fourDigitYear (now + 1 * JsDate.msPerDay)).
  { revert H0 H2. rewrite !JsDateFacts.fourDigitYear_iff,
      !JsDateFacts.Day_add_days. lia. }
  rewrite JsDateFacts.leb_isoDate, JsDateFacts.ltb_isoDate by done.
  rewrite !JsDateFacts.Day_add_days.
  case_bool_decide as E.
  - rewrite E. apply andb_true_iff. split; [apply Z.leb_le|apply Z.ltb_lt]; lia.
  - apply andb_false_iff.
    destruct (Z.leb_spec (JsDate.Day now + 1) (JsDate.Day d)); [|by left].
    right. apply Z.ltb_ge. lia.
Qed.

(** The events of a pass for a pet with one dose and the key of that
    dose: one, when the dose falls due on the day after the pass, and
    none otherwise. *)
Lemma single_dose_events host db delivers intervals now pet T s t n :
  NoDup (petCollection db) -> pet ∈ petCollection db ->
  NoDup intervals.*1 -> (typeKey T, n) ∈ intervals ->
  vaccinations pet
    = Some [ Some {| vaccineType := Some T; date := Some s |} ] ->
  T <> EmptyString -> s <> EmptyString ->
  JsDate.ofString host (Some s) = Some t ->
  JsDate.fourDigitYear now ->
  JsDate.fourDigitYear (now + 2 * JsDate.msPerDay) ->
  JsDate.fourDigitYear (t + n * JsDate.msPerDay) ->
  let tr := trace (sendVaccinationReminders host db delivers intervals now) in
  let events := filter (forPair pet (typeKey T)) (dueEvents tr) in
  let expected :=
    if bool_decide (JsDate.Day t + n = JsDate.Day now + 1)
    then [ {| due_pet := pet; due_key := typeKey T;
              due_latest := {| vaccineType := Some T; date := Some s |};
              due_date := JsDate.isoDate (t + n * JsDate.msPerDay) |} ]
    else [] in
  events `prefix_of` expected /\ (erred tr = false -> events = expected).
Proof.
  intros Hpets Hpet Hkeys Hentry Hv HT Hs Ht H0 H2 Hd tr events expected.
  assert (Hall : filter (forPair pet (typeKey T))
                   (allDue host intervals db now) = expected).
  { rewrite (allDue_pair host intervals db now pet (typeKey T) n
               (JsDate.isoDate (now + 1 * JsDate.msPerDay))
               (JsDate.isoDate (now + 2 * JsDate.msPerDay))
               Hpets Hkeys); [| |done|by apply window_fourDigit].
    - rewrite (single_dose_dueCheck host _ _ pet T s t _ n Hv HT Hs Ht).
      rewrite String.eqb_refl, (fourDigitYear_TimeClip _ Hd).
      rewrite (in_window now _ H0 H2 Hd), JsDateFacts.Day_add_days.
      unfold expected. by case_bool_decide.
    - apply petsWithVaccinations_elem. split; [done|]. rewrite Hv. eauto. }
  destruct (pass_dueEvents host db delivers intervals now) as [Hp He].
  fold tr in Hp, He. split.
  - rewrite <- Hall. by apply filter_prefix.
  - intros Herr. unfold events. by rewrite He.
Qed.

(** ** The dose the reduction selects *)

(** When the first matching dose has a date that parses, the selected
    dose has one too, and no parsed date is later. *)
Lemma latest_is_max host (first : Vaccination) (rest : list Vaccination) t0 :
  JsDate.ofString host (date first) = Some t0 ->
  exists tl,
    JsDate.ofString host (date (fold_left (later host) (first :: rest) first))
      = Some tl /\
    forall e t, e ∈ first :: rest ->
                JsDate.ofString host (date e) = Some t -> t <= tl.
Proof.
  intros H0.
  assert (Hgen : forall (l : list Vaccination) acc ta (seen : list Vaccination),
             JsDate.ofString host (date acc) = Some ta ->
             (forall e t, e ∈ seen ->
                          JsDate.ofString host (date e) = Some t -> t <= ta) ->
             exists tl,
               JsDate.ofString host (date (fold_left (later host) l acc))
                 = Some tl /\
               forall e t, e ∈ seen ++ l ->
                           JsDate.ofString host (date e) = Some t -> t <= tl).
  { induction l as [|c l IH]; intros acc ta seen Hacc Hseen; simpl.
    - exists ta. split; [done|]. intros e t. rewrite app_nil_r. apply Hseen.
    - replace (seen ++ c :: l) with ((seen ++ [c]) ++ l)
        by (by rewrite <- app_assoc).
      unfold later at 2. rewrite Hacc.
      destruct (JsDate.ofString host (date c)) as [tc|] eqn:Ec; simpl.
      + destruct (Z.ltb_spec ta tc).
        * apply (IH c tc); [done|].
          intros e t [He|He%list_elem_of_singleton]%elem_of_app Ht.
          -- specialize (Hseen e t He Ht). lia.
          -- subst e. rewrite Ec in Ht. injection Ht as <-. lia.
        * apply (IH acc ta); [done|].
          intros e t [He|He%list_elem_of_singleton]%elem_of_app Ht.
          -- by apply (Hseen e t).
          -- subst e. rewrite Ec in Ht. injection Ht as <-. lia.
      + apply (IH acc ta); [done|].
        intros e t [He|He%list_elem_of_singleton]%elem_of_app Ht.
        * by apply (Hseen e t).
        * subst e. congruence. }
  destruct (Hgen (first :: rest) first t0 [] H0) as (tl & Hl & Hmax).
  - by intros e t ?%elem_of_nil.
  - exists tl. split; [done|]. intros e t He. by apply Hmax.
Qed.

(** When the date of the first matching dose does not parse, that dose
    stays selected whatever follows. *)
Lemma latest_stuck host (first : Vaccination) (l : list Vaccination) :
  JsDate.ofString host (date first) = None ->
  fold_left (later host) l first = first.
Proof.
  intros H0. induction l as [|c l IH]; simpl; [done|].
  unfold later at 2. rewrite H0.
  by destruct (JsDate.ofString host (date c)).
Qed.

(** ** A failing transport *)

Lemma without_app t1 t2 :
  withoutCallbackLines (t1 ++ t2)
  = withoutCallbackLines t1 ++ withoutCallbackLines t2.
Proof. unfold withoutCallbackLines. apply List.filter_app. Qed.

Lemma same_refl {A} (m : M A) : sameButCallbacks m m.
Proof. by split. Qed.

Lemma same_bind {A B} (m1 m2 : M A) (f1 f2 : A -> M B) :
  sameButCallbacks m1 m2 -> (forall a, sameButCallbacks (f1 a) (f2 a)) ->
  sameButCallbacks (bind m1 f1) (bind m2 f2).
Proof.
  intros [Hr Ht] Hf. unfold sameButCallbacks.
  rewrite !result_bind, !trace_bind, <- Hr.
  destruct (result m1) as [a|e]; [|done].
  destruct (Hf a) as [Hr' Ht']. by rewrite !without_app, Ht, Ht'.
Qed.

Lemma same_forOf {A} (l : list A) (b1 b2 : A -> M unit) :
  (forall x, sameButCallbacks (b1 x) (b2 x)) ->
  sameButCallbacks (forOf l b1) (forOf l b2).
Proof.
  intros Hb. induction l as [|x l IH]; simpl; [apply same_refl|].
  by apply same_bind.
Qed.

Lemma same_try_catch {A} (m1 m2 : M A) (h : Exn -> M A) :
  sameButCallbacks m1 m2 ->
  sameButCallbacks (try_catch m1 h) (try_catch m2 h).
Proof.
  intros [Hr Ht]. unfold sameButCallbacks.
  rewrite !result_try_catch, !trace_try_catch, <- Hr.
  destruct (result m1) as [a|e]; [done|].
  by rewrite !without_app, Ht.
Qed.

Section Transport.
Variable host : JsDate.Host.
Variable db : Store.
Variables d1 d2 : Mail -> bool.
Variable intervals : Obj.

Lemma sendReminderEmail_same recipient petName vaccine due :
  sameButCallbacks
    (sendReminderEmail host d1 recipient petName vaccine due)
    (sendReminderEmail host d2 recipient petName vaccine due).
Proof.
  unfold sendReminderEmail.
  destruct (negb (JsString.truthy recipient)); [apply same_refl|].
  split; [done|]. simpl. by destruct (d1 _), (d2 _).
Qed.

Ltac same_step :=
  first [ apply same_refl
        | apply sendReminderEmail_same
        | apply same_bind; [|intros ?]
        | match goal with
          | |- sameButCallbacks (if ?b then _ else _) (if ?b then _ else _) =>
              destruct b
          end ].

Lemma notify_same pet latest due :
  sameButCallbacks (notify host db d1 pet latest due)
                   (notify host db d2 pet latest due).
Proof. unfold notify. repeat same_step. Qed.

Lemma checkType_same ts das pet entry :
  sameButCallbacks (checkType host db d1 ts das pet entry)
                   (checkType host db d2 ts das pet entry).
Proof.
  unfold checkType. destruct entry as [k n].
  destruct (entriesForType pet k) as [|first rest]; [apply same_refl|].
  repeat first [ apply notify_same | same_step ].
Qed.

Lemma pass_same now :
  sameButCallbacks (sendVaccinationReminders host db d1 intervals now)
                   (sendVaccinationReminders host db d2 intervals now).
Proof.
  unfold sendVaccinationReminders. apply same_try_catch.
  repeat same_step.
  apply same_forOf. intros pet. apply same_forOf. intros entry.
  apply checkType_same.
Qed.

End Transport.

(** ** A failing store *)

Lemma app_eq_cons_split {A} (t1 t2 pre post : list A) e :
  t1 ++ t2 = pre ++ e :: post ->
  (exists post1, t1 = pre ++ e :: post1 /\ post = post1 ++ t2) \/
  (exists pre2, t2 = pre2 ++ e :: post /\ pre = t1 ++ pre2).
Proof.
  revert pre. induction t1 as [|x t1 IH]; intros pre H; simpl in H.
  - right. by exists pre.
  - destruct pre as [|y pre]; simpl in H.
    + injection H as -> <-. left. by exists t1.
    + injection H as -> H. destruct (IH _ H) as [(p1 & -> & ->)|(p2 & -> & ->)].
      * left. by exists p1.
      * right. by exists p2.
Qed.

Section Rejection.
Variable host : JsDate.Host.
Variable db : Store.
Variable delivers : Mail -> bool.
Variable intervals : Obj.

Lemma stops_bind {A B} (m : M A) (f : A -> M B) :
  stopsAtRejection db m -> (forall a, stopsAtRejection db (f a)) ->
  stopsAtRejection db (bind m f).
Proof.
  intros Hm Hf pre e post. rewrite trace_bind, result_bind.
  destruct (result m) as [a|x] eqn:Er.
  - intros [(p1 & H1 & _)|(p2 & H2 & _)]%app_eq_cons_split Hrej.
    + destruct (Hm _ _ _ H1 Hrej) as [_ [x Hx]]. congruence.
    + apply (Hf a _ _ _ H2 Hrej).
  - intros H Hrej. destruct (Hm _ _ _ H Hrej) as [-> _]. eauto.
Qed.

Lemma stops_forOf {A} (l : list A) (body : A -> M unit) :
  (forall x, stopsAtRejection db (body x)) ->
  stopsAtRejection db (forOf l body).
Proof.
  intros Hb. induction l as [|x l IH]; simpl.
  - intros [|??] ? ? H; discriminate.
  - by apply stops_bind.
Qed.

Lemma stops_ret {A} (a : A) : stopsAtRejection db (ret a).
Proof. intros [|??] ? ? H; discriminate. Qed.

Lemma stops_throw {A} x : stopsAtRejection db (@throw A x).
Proof. intros [|??] ? ? H; discriminate. Qed.

Lemma stops_tell e : rejected db e = false -> stopsAtRejection db (tell e).
Proof.
  intros He [|? [|??]] e' post H; try discriminate.
  injection H as <- <-. congruence.
Qed.

Lemma stops_query {A} e (fails : bool) (a : A) :
  rejected db e = fails ->
  stopsAtRejection db (tell e ;; if fails then throw StoreError else ret a).
Proof.
  intros He [|? [|??]] e' post H Hrej; destruct fails; try discriminate.
  - injection H as <- <-. eauto.
  - injection H as <- <-. congruence.
Qed.

Lemma isoDay_stops d : stopsAtRejection db (isoDay d).
Proof.
  unfold isoDay. destruct (JsDate.toISOString d);
    [apply stops_ret | apply stops_throw].
Qed.

Ltac stops_step :=
  first [ apply stops_ret
        | apply stops_throw
        | apply isoDay_stops
        | apply stops_query; reflexivity
        | apply stops_tell; reflexivity
        | apply stops_bind; [|intros ?]
        | match goal with
          | |- stopsAtRejection _ (if ?b then _ else _) => destruct b
          end ].

Lemma notify_stops pet latest due :
  stopsAtRejection db (notify host db delivers pet latest due).
Proof.
  unfold notify, findAcceptedAdoption, findPurchase, sendReminderEmail.
  repeat stops_step.
Qed.

Lemma checkType_stops ts das pet entry :
  stopsAtRejection db (checkType host db delivers ts das pet entry).
Proof.
  unfold checkType. destruct entry as [k n].
  destruct (entriesForType pet k) as [|first rest]; [apply stops_ret|].
  repeat first [ apply notify_stops | stops_step ].
Qed.

(** After a query that the store rejects, a pass does nothing but write
    the line of its handler. *)
Lemma pass_stops now pre e post :
  trace (sendVaccinationReminders host db delivers intervals now)
    = pre ++ e :: post ->
  rejected db e = true ->
  post = [ Log ErrorInSendingReminders ].
Proof.
  unfold sendVaccinationReminders. rewrite trace_try_catch.
  match goal with |- context [result ?m] => set (raw := m) end.
  assert (Hraw : stopsAtRejection db raw).
  { unfold raw, findPets. repeat stops_step.
    apply stops_forOf. intros pet. apply stops_forOf. intros entry.
    apply checkType_stops. }
  destruct (result raw) as [a|x] eqn:Er.
  - intros H Hrej. destruct (Hraw _ _ _ H Hrej) as [_ [x Hx]]. congruence.
  - intros [(p1 & H1 & ->)|(p2 & H2 & _)]%app_eq_cons_split Hrej.
    + by destruct (Hraw _ _ _ H1 Hrej) as [-> _].
    + destruct p2 as [|? [|??]]; try discriminate.
      injection H2 as <- _. discriminate.
Qed.

End Rejection.

Lemma dueEvents_without t : dueEvents (withoutCallbackLines t) = dueEvents t.
Proof.
  induction t as [|e t IH]; [done|].
  destruct e as [| | | | |[]]; simpl; try done; by f_equal.
Qed.

Lemma mailsSent_without t : mailsSent (withoutCallbackLines t) = mailsSent t.
Proof.
  induction t as [|e t IH]; [done|].
  destruct e as [| | | | |[]]; simpl; try done; by f_equal.
Qed.

(** ** The dates of the scenario *)

Lemma midnight_2024_01_10 : midnight "2024-01-10" = 1704844800000.
Proof. vm_compute. reflexivity. Qed.

Lemma Day_2024_01_10 : JsDate.Day 1704844800000 = 19732.
Proof. vm_compute. reflexivity. Qed.

Lemma Day_2025_01_08 : JsDate.Day (midnight "2025-01-08") = 20096.
Proof. vm_compute. reflexivity. Qed.

Lemma Day_2025_01_09 : JsDate.Day (midnight "2025-01-09") = 20097.
Proof. vm_compute. reflexivity. Qed.

Lemma isoDate_2025_01_09 :
  JsDate.isoDate (1704844800000 + 365 * JsDate.msPerDay) = "2025-01-09".
Proof. vm_compute. reflexivity. Qed.

Lemma typeKey_Rabies : typeKey "Rabies" = "rabies".
Proof. vm_compute. reflexivity. Qed.

Lemma rabiesOnly_eq : rabiesOnly = [ ("rabies", 365) ].
Proof. vm_compute. reflexivity. Qed.

(* ===================================================================== *)
(** * Further facts about the normaliser and the interval table *)
(* ===================================================================== *)

Lemma dedupe_from_sublist seen vs :
  dedupe_from seen vs `sublist_of` omap normalised vs.
Proof.
  revert seen. induction vs as [|v rest IH]; intros seen; simpl; [done|].
  unfold normalised at 1. destruct (inKey v) as [k|]; [|apply IH].
  case_decide.
  - apply sublist_cons, IH.
  - apply sublist_skip, IH.
Qed.

Lemma obj_get_set (o : Obj) k v k' :
  obj_get (obj_set o k v) k' = if String.eqb k k' then Some v else obj_get o k'.
Proof.
  induction o as [|[k0 v0] rest IH]; simpl.
  - done.
  - destruct (String.eqb_spec k0 k) as [->|Hne]; simpl.
    + by destruct (String.eqb k k').
    + rewrite IH. destruct (String.eqb_spec k0 k') as [->|Hne'].
      * by rewrite (proj2 (String.eqb_neq _ _)) by congruence.
      * done.
Qed.

Lemma normalizeIntervals_get_from (table : Obj) : forall (o : Obj) k,
  obj_get (fold_left (fun normalized '(k, v) =>
                        obj_set normalized (JsString.toLowerCase k) v)
                     table o) k
  = match last (entriesUnder k table) with
    | Some e => Some e.2
    | None => obj_get o k
    end.
Proof.
  induction table as [|[k0 v0] rest IH]; intros o k; simpl; [done|].
  rewrite IH. unfold entriesUnder. simpl.
  destruct (String.eqb_spec (JsString.toLowerCase k0) k) as [->|Hne].
  - rewrite last_cons.
    destruct (last (List.filter _ rest)); [done|].
    simpl. by rewrite obj_get_set, String.eqb_refl.
  - destruct (last (List.filter _ rest)); [done|].
    rewrite obj_get_set.
    by rewrite (proj2 (String.eqb_neq _ _)) by done.
Qed.

Lemma obj_set_fresh (o : Obj) k v :
  k ∉ o.*1 -> obj_set o k v = o ++ [ (k, v) ].
Proof.
  induction o as [|[k0 v0] rest IH]; simpl; [done|].
  intros Hnot. apply not_elem_of_cons in Hnot as [Hne Hnot].
  rewrite (proj2 (String.eqb_neq _ _)) by congruence.
  by rewrite IH.
Qed.

Lemma normalizeIntervals_map_from (table : Obj) : forall o : Obj,
  NoDup (o.*1 ++ (JsString.toLowerCase <$> table.*1)) ->
  fold_left (fun normalized '(k, v) =>
               obj_set normalized (JsString.toLowerCase k) v) table o
  = o ++ ((fun e => (JsString.toLowerCase e.1, e.2)) <$> table).
Proof.
  induction table as [|[k0 v0] rest IH]; intros o Hnd; simpl.
  - by rewrite app_nil_r.
  - simpl in Hnd. rewrite obj_set_fresh.
    + rewrite IH.
      * by rewrite <- app_assoc.
      * rewrite fmap_app. simpl. by rewrite <- app_assoc.
    + apply NoDup_app in Hnd as (_ & Hdisj & _).
      intros Hin. apply (Hdisj _ Hin). by left.
Qed.

(** Lower case and trimming commute. *)
Lemma isWhiteSpace_lowerChar c :
  JsString.isWhiteSpace (JsString.lowerChar c) = JsString.isWhiteSpace c.
Proof. by destruct c as [[] [] [] [] [] [] [] []]. Qed.

Lemma toLowerCase_trimStart s :
  JsString.toLowerCase (JsString.trimStart s)
  = JsString.trimStart (JsString.toLowerCase s).
Proof.
  induction s as [|c r IH]; simpl; [done|].
  rewrite isWhiteSpace_lowerChar.
  by destruct (JsString.isWhiteSpace c).
Qed.

Lemma toLowerCase_trimEnd s :
  JsString.toLowerCase (JsString.trimEnd s)
  = JsString.trimEnd (JsString.toLowerCase s).
Proof.
  induction s as [|c r IH]; simpl; [done|].
  rewrite <- IH, isWhiteSpace_lowerChar.
  destruct (JsString.trimEnd r); simpl; [|done].
  by destruct (JsString.isWhiteSpace c).
Qed.

Lemma typeKey_trimmed T : JsString.trim (typeKey T) = typeKey T.
Proof.
  unfold typeKey, JsString.trim.
  rewrite toLowerCase_trimEnd, toLowerCase_trimStart.
  change (JsString.trimEnd (JsString.trimStart ?s)) with (JsString.trim s).
  apply JsStringFacts.trim_idem.
Qed.

(* ===================================================================== *)
(** * Further facts about the pass *)
(* ===================================================================== *)

(** ** The dose the reduction selects, with its place *)

Lemma later_self host e : later host e e = e.
Proof. unfold later. by destruct (JsDate.gt _ _). Qed.

Lemma latest_first_max host (first : Vaccination) (rest : list Vaccination) t0 :
  JsDate.ofString host (date first) = Some t0 ->
  exists l1 latest l2 tl,
    fold_left (later host) (first :: rest) first = latest /\
    first :: rest = l1 ++ latest :: l2 /\
    JsDate.ofString host (date latest) = Some tl /\
    Forall (earlierThan host tl) l1 /\
    Forall (notLaterThan host tl) l2.
Proof.
  intros H0. simpl. rewrite later_self.
  assert (Hgen : forall (l p1 p2 : list Vaccination) acc ta,
             JsDate.ofString host (date acc) = Some ta ->
             Forall (earlierThan host ta) p1 ->
             Forall (notLaterThan host ta) p2 ->
             exists l1 latest l2 tl,
               fold_left (later host) l acc = latest /\
               p1 ++ acc :: p2 ++ l = l1 ++ latest :: l2 /\
               JsDate.ofString host (date latest) = Some tl /\
               Forall (earlierThan host tl) l1 /\
               Forall (notLaterThan host tl) l2).
  { induction l as [|c l IH]; intros p1 p2 acc ta Hacc H1 H2; simpl.
    - exists p1, acc, p2, ta. by rewrite app_nil_r.
    - unfold later at 2. rewrite Hacc.
      destruct (JsDate.ofString host (date c)) as [tc|] eqn:Ec; simpl.
      + destruct (Z.ltb_spec ta tc) as [Hlt|Hge].
        * destruct (IH (p1 ++ acc :: p2) [] c tc Ec) as (l1 & la & l2 & tl & ?).
          -- apply Forall_app. split; [|apply Forall_cons; split].
             ++ eapply Forall_impl; [exact H1|]. intros e.
                unfold earlierThan. destruct (JsDate.ofString host (date e));
                  [lia|done].
             ++ unfold earlierThan. by rewrite Hacc.
             ++ eapply Forall_impl; [exact H2|]. intros e.
                unfold notLaterThan, earlierThan.
                destruct (JsDate.ofString host (date e)); [lia|done].
          -- constructor.
          -- exists l1, la, l2, tl. simpl in *.
             by rewrite <- !app_assoc in *.
        * destruct (IH p1 (p2 ++ [c]) acc ta Hacc H1)
            as (l1 & la & l2 & tl & ?).
          -- apply Forall_app. split; [done|]. apply Forall_singleton.
             unfold notLaterThan. by rewrite Ec.
          -- exists l1, la, l2, tl. by rewrite <- !app_assoc in *.
      + destruct (IH p1 (p2 ++ [c]) acc ta Hacc H1)
          as (l1 & la & l2 & tl & ?).
        * apply Forall_app. split; [done|]. apply Forall_singleton.
          unfold notLaterThan. by rewrite Ec.
        * exists l1, la, l2, tl. by rewrite <- !app_assoc in *. }
  destruct (Hgen rest [] [] first t0 H0) as (l1 & la & l2 & tl & ?);
    [constructor..|].
  by exists l1, la, l2, tl.
Qed.

(** ** The due check, evaluated *)

Lemma dueCheck_latest host ts das pet entry ev :
  dueCheck host ts das pet entry = Some ev ->
  exists first rest,
    entriesForType pet entry.1 = first :: rest /\
    due_latest ev = fold_left (later host) (first :: rest) first.
Proof.
  unfold dueCheck.
  destruct (entriesForType pet entry.1) as [|first rest] eqn:E; [done|].
  set (latest := fold_left (later host) (first :: rest) first).
  destruct (JsDate.ofString host (date latest)) as [t|]; [|done].
  destruct (JsDate.TimeClip _) as [d|]; [|done].
  destruct (_ && _); [|done].
  intros [= <-]. by exists first, rest.
Qed.

Lemma dueCheck_eval host ts das pet k n first rest t :
  entriesForType pet k = first :: rest ->
  JsDate.ofString host
    (date (fold_left (later host) (first :: rest) first)) = Some t ->
  dueCheck host ts das pet (k, n)
  = match JsDate.TimeClip (t + n * JsDate.msPerDay) with
    | Some d =>
        if String.leb ts (JsDate.isoDate d)
           && String.ltb (JsDate.isoDate d) das
        then Some (dueEventOf pet k
                     (fold_left (later host) (first :: rest) first) d)
        else None
    | None => None
    end.
Proof.
  intros He Ht. unfold dueCheck. simpl fst. simpl snd. rewrite He.
  cbv zeta. by rewrite Ht.
Qed.

(** The events of a pass for a pet and a key, from the dose that the
    reduction selects. *)
Lemma pair_events host db delivers intervals now pet k n first rest t :
  NoDup (petCollection db) -> pet ∈ petCollection db ->
  NoDup intervals.*1 -> (k, n) ∈ intervals ->
  entriesForType pet k = first :: rest ->
  JsDate.ofString host
    (date (fold_left (later host) (first :: rest) first)) = Some t ->
  JsDate.fourDigitYear now ->
  JsDate.fourDigitYear (now + 2 * JsDate.msPerDay) ->
  JsDate.fourDigitYear (t + n * JsDate.msPerDay) ->
  let tr := trace (sendVaccinationReminders host db delivers intervals now) in
  let events := filter (forPair pet k) (dueEvents tr) in
  let expected :=
    if bool_decide (JsDate.Day t + n = JsDate.Day now + 1)
    then [ dueEventOf pet k (fold_left (later host) (first :: rest) first)
             (t + n * JsDate.msPerDay) ]
    else [] in
  events `prefix_of` expected /\ (erred tr = false -> events = expected).
Proof.
  intros Hpets Hpet Hkeys Hentry Hents Ht H0 H2 Hd tr events expected.
  assert (Hin : pet ∈ petsWithVaccinations db).
  { apply petsWithVaccinations_elem. split; [done|].
    unfold entriesForType in Hents.
    destruct (vaccinations pet) as [[|v vs]|]; try done; eauto. }
  assert (Hall : filter (forPair pet k) (allDue host intervals db now)
                 = expected).
  { rewrite (allDue_pair host intervals db now pet k n
               (JsDate.isoDate (now + 1 * JsDate.msPerDay))
               (JsDate.isoDate (now + 2 * JsDate.msPerDay))
               Hpets Hkeys Hin Hentry (window_fourDigit now H2 H0)).
    rewrite (dueCheck_eval host _ _ pet k n first rest t Hents Ht).
    rewrite (fourDigitYear_TimeClip _ Hd).
    rewrite (in_window now _ H0 H2 Hd), JsDateFacts.Day_add_days.
    unfold expected. by case_bool_decide. }
  destruct (pass_dueEvents host db delivers intervals now) as [Hp He].
  fold tr in Hp, He. split.
  - rewrite <- Hall. by apply filter_prefix.
  - intros Herr. unfold events. by rewrite He.
Qed.

(** ** Date strings once more *)

Lemma isoDate_same_Day t1 t2 :
  JsDate.Day t1 = JsDate.Day t2 -> JsDate.isoDate t1 = JsDate.isoDate t2.
Proof.
  intros H.
  unfold JsDate.isoDate, JsDate.DateFromTime, JsDate.MonthFromTime,
    JsDate.InLeapYear, JsDate.DayWithinYear, JsDate.YearFromTime.
  by rewrite H.
Qed.

Lemma compare_digit_sign x c k1 k2 :
  (N_of_ascii c < 48)%N ->
  String.compare (String (JsDate.digit x) k1) (String c k2) = Gt.
Proof.
  intros Hc. simpl. unfold Ascii.compare. rewrite JsDateFacts.digit_code.
  assert ((48 + Z.to_N (x mod 10) ?= N_of_ascii c)%N = Gt) as ->;
    [|done].
  apply N.compare_gt_iff. lia.
Qed.

(** A date string with a signed year sorts before every date string
    with a four-digit year. *)
Lemma compare_isoDate_signed t d :
  JsDate.fourDigitYear t -> ~ JsDate.fourDigitYear d ->
  String.compare (JsDate.isoDate t) (JsDate.isoDate d) = Gt.
Proof.
  unfold JsDate.fourDigitYear, JsDate.isoDate. intros Ht Hd.
  assert (exists c k, (N_of_ascii c < 48)%N /\
            forall r, JsDate.yearString (JsDate.YearFromTime d) r
                      = String c (k r)) as (c & k & Hc & ->).
  { unfold JsDate.yearString.
    destruct (Z.leb_spec 0 (JsDate.YearFromTime d)) as [H0|H0];
      [destruct (Z.leb_spec (JsDate.YearFromTime d) 9999); [lia|]|];
      cbn [andb].
    - rewrite (proj2 (Z.ltb_ge _ _)) by lia.
      exists "+"%char, (JsDate.pad6 (JsDate.YearFromTime d)).
      split; [by vm_compute | done].
    - rewrite (proj2 (Z.ltb_lt _ _)) by lia.
      exists "-"%char, (JsDate.pad6 (Z.abs (JsDate.YearFromTime d))).
      split; [by vm_compute | done]. }
  unfold JsDate.yearString.
  rewrite (proj2 (andb_true_iff _ _)) by (split; apply Z.leb_le; lia).
  unfold JsDate.pad4. by apply compare_digit_sign.
Qed.

(** A date string in the window of a pass is the date of tomorrow. *)
Lemma window_is_tomorrow now d :
  JsDate.fourDigitYear now ->
  JsDate.fourDigitYear (now + 2 * JsDate.msPerDay) ->
  String.leb (JsDate.isoDate (now + 1 * JsDate.msPerDay)) (JsDate.isoDate d)
    = true ->
  String.ltb (JsDate.isoDate d) (JsDate.isoDate (now + 2 * JsDate.msPerDay))
    = true ->
  JsDate.isoDate d = JsDate.isoDate (now + 1 * JsDate.msPerDay).
Proof.
  intros H0 H2 Hle Hlt.
  assert (H1 : JsDate.fourDigitYear (now + 1 * JsDate.msPerDay)).
  { revert H0 H2. rewrite !JsDateFacts.fourDigitYear_iff,
      !JsDateFacts.Day_add_days. lia. }
  destruct (decide (JsDate.fourDigitYear d)) as [Hd|Hd].
  - rewrite JsDateFacts.leb_isoDate in Hle by done.
    rewrite JsDateFacts.ltb_isoDate in Hlt by done.
    apply Z.leb_le in Hle. apply Z.ltb_lt in Hlt.
    rewrite !JsDateFacts.Day_add_days in *.
    apply isoDate_same_Day. rewrite JsDateFacts.Day_add_days. lia.
  - unfold String.leb in Hle.
    by rewrite (compare_isoDate_signed _ _ H1 Hd) in Hle.
Qed.

(** ** The offset of local time *)

Lemma bind_ext {A B} (m : M A) (f g : A -> M B) :
  (forall a, f a = g a) -> bind m f = bind m g.
Proof. intros H. destruct m as [t [a|e]]; simpl; [|done]. by rewrite H. Qed.

Lemma forOf_ext {A} (l : list A) (b1 b2 : A -> M unit) :
  (forall x, b1 x = b2 x) -> forOf l b1 = forOf l b2.
Proof.
  intros H. induction l as [|x l IH]; simpl; [done|].
  rewrite H. by apply bind_ext.
Qed.

Lemma checkType_offset tz1 tz2 parse user db delivers ts das pet entry :
  checkType (JsDate.mkHost tz1 parse user) db delivers ts das pet entry
  = checkType (JsDate.mkHost tz2 parse user) db delivers ts das pet entry.
Proof.
  destruct entry as [k n]. unfold checkType.
  destruct (entriesForType pet k) as [|first rest]; [done|].
  change (later (JsDate.mkHost tz2 parse user))
    with (later (JsDate.mkHost tz1 parse user)).
  set (latest := fold_left _ (first :: rest) first).
  change (JsDate.ofString (JsDate.mkHost tz2 parse user) (date latest))
    with (JsDate.ofString (JsDate.mkHost tz1 parse user) (date latest)).
  destruct (JsDate.ofString _ (date latest)) as [t|] eqn:Et; [|done].
  simpl JsDate.isNaN. cbv iota.
  unfold JsDate.copy. rewrite (ofString_clipped _ _ _ Et).
  by rewrite !JsDateFacts.setDate_getDate_plus.
Qed.

Lemma pass_offset tz1 tz2 parse user db delivers intervals now :
  sendVaccinationReminders (JsDate.mkHost tz1 parse user) db delivers
    intervals now
  = sendVaccinationReminders (JsDate.mkHost tz2 parse user) db delivers
      intervals now.
Proof.
  rewrite !pass_unfold. f_equal.
  destruct (window now) as [[ts das]|]; [|done].
  apply bind_ext. intros pets. apply forOf_ext. intros pet.
  apply forOf_ext. intros entry. apply checkType_offset.
Qed.

(** ** The queries of a pass *)

Lemma adoptionQueries_app t1 t2 :
  adoptionQueries (t1 ++ t2) = adoptionQueries t1 ++ adoptionQueries t2.
Proof. apply omap_app. Qed.

Lemma purchaseQueries_app t1 t2 :
  purchaseQueries (t1 ++ t2) = purchaseQueries t1 ++ purchaseQueries t2.
Proof. apply omap_app. Qed.

Section QueryFacts.
Variable host : JsDate.Host.
Variable db : Store.
Variable delivers : Mail -> bool.
Variable intervals : Obj.

Lemma notify_queries pet latest due :
  adoptionQueries (trace (notify host db delivers pet latest due))
    = [ _id pet ] /\
  purchaseQueries (trace (notify host db delivers pet latest due))
    `prefix_of` [ _id pet ].
Proof.
  unfold notify, findAcceptedAdoption, findPurchase, sendReminderEmail.
  simpl. split_ifs; split; first [ reflexivity | apply prefix_nil ].
Qed.

Lemma checkType_queries ts das pet entry :
  let t := trace (checkType host db delivers ts das pet entry) in
  adoptionQueries t = (fun ev => _id (due_pet ev)) <$> dueEvents t /\
  purchaseQueries t `sublist_of` adoptionQueries t.
Proof.
  intros t. unfold t. rewrite checkType_dueEvents.
  destruct (checkType_trace host db delivers ts das pet entry) as [-> _].
  destruct (dueCheck host ts das pet entry) as [ev|] eqn:E; [|done].
  destruct (dueCheck_Some _ _ _ _ _ _ E) as (Hp & _).
  destruct (notify_queries pet (due_latest ev) (due_date ev)) as [Ha [k Hk]].
  change (Due ev :: ?t) with ([Due ev] ++ t).
  rewrite adoptionQueries_app, purchaseQueries_app, Ha. simpl.
  rewrite Hp. split; [done|]. rewrite Hk. by apply sublist_inserts_r.
Qed.

Lemma pass_queries now :
  let t := trace (sendVaccinationReminders host db delivers intervals now) in
  adoptionQueries t = (fun ev => _id (due_pet ev)) <$> dueEvents t /\
  purchaseQueries t `sublist_of` adoptionQueries t.
Proof.
  set (Q := fun t : list Effect =>
         adoptionQueries t = (fun ev => _id (due_pet ev)) <$> dueEvents t /\
         purchaseQueries t `sublist_of` adoptionQueries t).
  assert (Qnil : Q []) by done.
  assert (Qapp : forall t1 t2, Q t1 -> Q t2 -> Q (t1 ++ t2)).
  { intros t1 t2 [A1 P1] [A2 P2]. split.
    - by rewrite adoptionQueries_app, dueEvents_app, fmap_app, A1, A2.
    - rewrite adoptionQueries_app, purchaseQueries_app. by apply sublist_app. }
  change (Q (trace (sendVaccinationReminders host db delivers intervals now))).
  rewrite pass_unfold.
  apply (closed_try_catch Q Qapp); [|intros; by split].
  destruct (window now) as [[ts das]|]; [|done].
  apply (closed_bind Q Qapp).
  - unfold findPets. destruct (petQueryFails db); by split.
  - intros pets. apply (closed_forOf Q Qnil Qapp). intros pet.
    apply (closed_forOf Q Qnil Qapp). intros entry.
    apply checkType_queries.
Qed.

End QueryFacts.

(** ** The normaliser before the pass *)

Lemma ofType_stored k (u : Vaccination) :
  ofType k (Some u)
  = if JsString.truthy (vaccineType u) && JsString.truthy (date u)
       && hasOutKey k u
    then Some u else None.
Proof.
  unfold ofType, hasOutKey, outKey.
  destruct u as [[t|] d]; simpl; [|done].
  destruct (negb (String.eqb t EmptyString)); simpl; [|done].
  destruct (JsString.truthy d); simpl; [|done].
  destruct (String.eqb_spec (typeKey t) k) as [->|Hne].
  - by rewrite bool_decide_eq_true_2.
  - rewrite bool_decide_eq_false_2; [done|]. by intros [= ?].
Qed.

Lemma entriesForType_stored pet (l : list Vaccination) k :
  vaccinations pet = Some (asArray l) ->
  entriesForType pet k
  = List.filter (fun u => JsString.truthy (vaccineType u)
                          && JsString.truthy (date u))
                (List.filter (hasOutKey k) l).
Proof.
  intros Hv. unfold entriesForType. rewrite Hv. simpl. clear Hv.
  induction l as [|u l IH]; [done|].
  change (asArray (u :: l)) with (Some u :: asArray l).
  cbn [omap list_omap List.filter].
  rewrite ofType_stored.
  destruct (hasOutKey k u); simpl.
  - rewrite andb_true_r.
    destruct (JsString.truthy (vaccineType u) && JsString.truthy (date u));
      by rewrite <- IH.
  - by rewrite andb_false_r.
Qed.

(** ** A due date beyond the range of dates *)

Section Overflow.
Variable host : JsDate.Host.
Variable db : Store.
Variable delivers : Mail -> bool.
Variable intervals : Obj.

Lemma checkType_overflow ts das pet k n first rest t :
  entriesForType pet k = first :: rest ->
  JsDate.ofString host
    (date (fold_left (later host) (first :: rest) first)) = Some t ->
  JsDate.TimeClip (t + n * JsDate.msPerDay) = None ->
  result (checkType host db delivers ts das pet (k, n)) = Throw RangeError.
Proof.
  intros He Ht Hc. unfold checkType. rewrite He.
  cbv zeta. rewrite Ht. simpl JsDate.isNaN. cbv iota.
  unfold JsDate.copy. rewrite (ofString_clipped _ _ _ Ht).
  by rewrite JsDateFacts.setDate_getDate_plus, Hc.
Qed.

Lemma pass_overflow now pet k n first rest t :
  pet ∈ petCollection db -> (k, n) ∈ intervals ->
  entriesForType pet k = first :: rest ->
  JsDate.ofString host
    (date (fold_left (later host) (first :: rest) first)) = Some t ->
  JsDate.TimeClip (t + n * JsDate.msPerDay) = None ->
  erred (trace (sendVaccinationReminders host db delivers intervals now))
  = true.
Proof.
  intros Hpet Hentry He Ht Hc.
  rewrite pass_unfold, trace_try_catch.
  match goal with |- context [result ?m] => set (raw := m) end.
  destruct (result raw) as [[]|x] eqn:Er.
  2: { rewrite erred_app. simpl. apply orb_true_r. }
  exfalso. unfold raw in Er.
  destruct (window now) as [[ts das]|]; [|done].
  rewrite result_bind in Er.
  destruct findPets_spec with (db := db) as [_ [Hr|[e Hr]]];
    rewrite Hr in Er; [|done].
  apply forOf_ok in Er as [Hall _].
  rewrite Forall_forall in Hall.
  assert (Hin : pet ∈ petsWithVaccinations db).
  { apply petsWithVaccinations_elem. split; [done|].
    unfold entriesForType in He.
    destruct (vaccinations pet) as [[|v vs]|]; try done; eauto. }
  specialize (Hall pet Hin).
  apply forOf_ok in Hall as [Hall _].
  rewrite Forall_forall in Hall. specialize (Hall (k, n) Hentry).
  by rewrite (checkType_overflow _ _ _ _ _ _ _ _ He Ht Hc) in Hall.
Qed.

End Overflow.

(** ** Arrays written through the normaliser *)

Lemma entriesForType_deduped (doses : VaccinationArray) pet k :
  vaccinations pet = Some (asArray (dedupeVaccinationsArray doses)) ->
  entriesForType pet k
  = match List.find (hasInKey k) doses with
    | Some v =>
        if JsString.truthy (vaccineType (kept v))
           && JsString.truthy (date (kept v))
        then [ kept v ] else []
    | None => []
    end.
Proof.
  intros Hv. rewrite (entriesForType_stored _ _ _ Hv).
  rewrite dedupe_unfold, dedupe_from_filter.
  destruct (decide (k ∈ (∅ : gset string))) as [Hin|_].
  { by apply not_elem_of_empty in Hin. }
  by destruct (List.find (hasInKey k) doses).
Qed.

(** ** The purchase a query finds *)

Lemma purchaseOf_Some db petId p :
  purchaseOf db petId = Some p ->
  p ∈ purchasesCollection db /\ purchase_petId p = petId.
Proof.
  unfold purchaseOf. intros [Hin Hc]%find_some.
  apply String.eqb_eq in Hc. split; [by apply list_elem_of_In|done].
Qed.

(* ===================================================================== *)
(** * Facts about the routes *)
(* ===================================================================== *)

(** ** split *)

Lemma split_nonempty sep s : split sep s <> [].
Proof.
  destruct s as [|c r]; simpl; [done|].
  destruct (Ascii.eqb c sep); [done|]. by destruct (split sep r).
Qed.

Lemma split_without sep s : without sep s = true -> split sep s = [ s ].
Proof.
  induction s as [|c r IH]; simpl; [done|].
  intros [Hc Hr]%andb_true_iff. apply negb_true_iff in Hc. rewrite Hc.
  by rewrite (IH Hr).
Qed.

Lemma append_cons c r x :
  String.append (String c r) x = String c (String.append r x).
Proof. reflexivity. Qed.

Lemma append_empty_r s : String.append s EmptyString = s.
Proof.
  induction s as [|c r IH]; [done|]. by rewrite append_cons, IH.
Qed.

Lemma split_app sep a b :
  without sep a = true ->
  split sep (String.append a (String sep b)) = a :: split sep b.
Proof.
  induction a as [|c r IH].
  - intros _. change (String.append EmptyString ?x) with x. simpl.
    by rewrite Ascii.eqb_refl.
  - rewrite append_cons. simpl.
    intros [Hc Hr]%andb_true_iff. apply negb_true_iff in Hc. rewrite Hc.
    by rewrite (IH Hr).
Qed.

Lemma append_cons_nonempty a c b :
  String.append a (String c b) <> EmptyString.
Proof. by destruct a. Qed.

(** The second piece of a header. *)
Lemma split_second scheme token rest :
  without " " scheme = true -> without " " token = true ->
  rest = EmptyString \/ (exists r, rest = String " " r) ->
  split " " (String.append scheme (String " " (String.append token rest)))
    !! 1%nat = Some token.
Proof.
  intros Hs Ht Hrest. rewrite (split_app _ _ _ Hs). simpl.
  destruct Hrest as [->|[r ->]].
  - by rewrite append_empty_r, (split_without _ _ Ht).
  - by rewrite (split_app _ _ _ Ht).
Qed.

(** ** updateOne *)

Section UpdateOne.
Context {A : Type} `{EqDecision A}.
Implicit Types (matches : A -> bool) (set : A -> A) (docs : list A).

Lemma updateOne_cases matches set docs :
  (List.find matches docs = None /\
   updateOne matches set docs = (docs, mkUpdateResult 0 0)) \/
  (exists l1 d l2,
      docs = l1 ++ d :: l2 /\
      Forall (fun x => matches x = false) l1 /\
      matches d = true /\
      List.find matches docs = Some d /\
      updateOne matches set docs
      = (l1 ++ set d :: l2,
         mkUpdateResult 1 (if decide (set d = d) then 0 else 1))).
Proof.
  induction docs as [|x l IH]; simpl.
  - by left.
  - destruct (matches x) eqn:Ex.
    + right. exists [], x, l. by repeat split.
    + destruct IH as [[Hf Hu]|(l1 & d & l2 & -> & Hl1 & Hd & Hf & Hu)].
      * left. by rewrite Hu.
      * right. exists (x :: l1), d, l2. rewrite Hu.
        repeat split; try done. by constructor.
Qed.

Lemma find_split matches docs d :
  List.find matches docs = Some d ->
  exists l1 l2, docs = l1 ++ d :: l2 /\
                Forall (fun x => matches x = false) l1 /\ matches d = true.
Proof.
  induction docs as [|x l IH]; simpl; [done|].
  destruct (matches x) eqn:Ex.
  - intros [= ->]. by exists [], l.
  - intros (l1 & l2 & -> & Hl1 & Hd)%IH. exists (x :: l1), l2.
    repeat split; try done. by constructor.
Qed.

End UpdateOne.

(** ** verifyToken and verifyAdmin *)

Section RouteFacts.
Variable jwt_verify : option string -> option Claims.

Lemma verifyToken_second scheme token rest :
  without " " scheme = true -> without " " token = true ->
  rest = EmptyString \/ (exists r, rest = String " " r) ->
  verifyToken jwt_verify
    (Some (String.append scheme (String " " (String.append token rest))))
  = match jwt_verify (Some token) with
    | Some decoded => Next decoded
    | None => Refused unauthorized
    end.
Proof.
  intros Hs Ht Hrest. unfold verifyToken.
  assert (JsString.truthy
            (Some (String.append scheme
                     (String " " (String.append token rest)))) = true) as ->.
  { unfold JsString.truthy. apply negb_true_iff, String.eqb_neq.
    apply append_cons_nonempty. }
  cbn [negb JsString.String_ default id].
  rewrite (split_second _ _ _ Hs Ht Hrest).
  by destruct (jwt_verify (Some token)).
Qed.

End RouteFacts.

Lemma verifyAdmin_Next users decoded :
  verifyAdmin users decoded = Next tt <->
  exists u, userOf users (claims_email decoded) = Some u /\
            role u = Some "admin".
Proof.
  unfold verifyAdmin.
  destruct (userOf users (claims_email decoded)) as [u|]; simpl.
  - case_bool_decide as E; simpl; split; try done.
    + intros _. by exists u.
    + intros (u' & [= <-] & Hr). done.
  - split; [done|]. by intros (u & ? & _).
Qed.

Lemma userOf_app users more email :
  userOf (users ++ more) email
  = match userOf users email with
    | Some u => Some u
    | None => userOf more email
    end.
Proof.
  unfold userOf. induction users as [|u l IH]; simpl; [by destruct (List.find _ more)|].
  by case_bool_decide.
Qed.

Lemma userOf_None users email :
  userOf users email = None <-> email ∉ user_email <$> users.
Proof.
  unfold userOf. induction users as [|u l IH]; simpl.
  - split; [|done]. intros _ H. by apply elem_of_nil in H.
  - case_bool_decide as E.
    + split; [done|]. intros H. destruct H. rewrite E. by left.
    + rewrite IH. rewrite not_elem_of_cons. split; [|tauto].
      intros H. split; [congruence|done].
Qed.


(** ** PUT /adoption/accept/:id *)

Section UpdateFacts.
Context {A : Type} `{EqDecision A}.
Implicit Types (matches : A -> bool) (set : A -> A) (docs : list A).

Lemma updateOne_found matches set docs d :
  List.find matches docs = Some d ->
  exists l1 l2,
    docs = l1 ++ d :: l2 /\
    Forall (fun x => matches x = false) l1 /\
    matches d = true /\
    updateOne matches set docs
    = (l1 ++ set d :: l2,
       mkUpdateResult 1 (if decide (set d = d) then 0 else 1)).
Proof.
  intros Hf.
  destruct (updateOne_cases matches set docs)
    as [[Hn _]|(l1 & d' & l2 & Hd & Hl1 & Hm & Hf' & Hu)]; [congruence|].
  rewrite Hf in Hf'. injection Hf' as <-. by exists l1, l2.
Qed.

Lemma updateOne_not_found matches set docs :
  List.find matches docs = None ->
  updateOne matches set docs = (docs, mkUpdateResult 0 0).
Proof.
  intros Hf.
  destruct (updateOne_cases matches set docs)
    as [[_ Hu]|(l1 & d' & l2 & Hd & Hl1 & Hm & Hf' & Hu)]; [done|congruence].
Qed.

(** An update that changes nothing. *)
Lemma updateOne_same matches set docs :
  (forall d, List.find matches docs = Some d -> set d = d) ->
  (updateOne matches set docs).1 = docs /\
  modifiedCount (updateOne matches set docs).2 = 0.
Proof.
  intros Hsame.
  destruct (List.find matches docs) as [d|] eqn:Hf.
  - destruct (updateOne_found matches set docs d Hf)
      as (l1 & l2 & -> & _ & _ & ->). simpl.
    rewrite (Hsame d eq_refl). split; [done|]. by case_decide.
  - by rewrite (updateOne_not_found _ _ _ Hf).
Qed.

Lemma find_first matches (l1 l2 : list A) d :
  Forall (fun x => matches x = false) l1 -> matches d = true ->
  List.find matches (l1 ++ d :: l2) = Some d.
Proof.
  intros Hl1 Hd. induction Hl1 as [|x l Hx _ IH]; simpl.
  - by rewrite Hd.
  - by rewrite Hx.
Qed.

Lemma find_fmap {B} (f : A -> B) (p : B -> bool) docs :
  List.find p (f <$> docs) = f <$> List.find (fun x => p (f x)) docs.
Proof.
  induction docs as [|x l IH]; simpl; [done|].
  by destruct (p (f x)).
Qed.

End UpdateFacts.

Lemma find_ext {A} (p q : A -> bool) (l : list A) :
  (forall x, x ∈ l -> p x = q x) -> List.find p l = List.find q l.
Proof.
  induction l as [|x l IH]; simpl; [done|]. intros H.
  rewrite (H x) by (by left).
  destruct (q x); [done|]. apply IH. intros y Hy. apply H. by right.
Qed.

(** With identifiers that are pairwise different, [updateOne] by
    identifier is a map. *)
Lemma updateOne_requests now oid docs d :
  NoDup (request_id <$> docs) ->
  List.find (hasRequestId oid) docs = Some d ->
  updateOne (hasRequestId oid) (accepted now) docs
  = ((fun x => if hasRequestId oid x then accepted now x else x) <$> docs,
     mkUpdateResult 1 (if decide (accepted now d = d) then 0 else 1)).
Proof.
  induction docs as [|x l IH]; simpl; [done|].
  intros Hnd Hf. apply NoDup_cons in Hnd as [Hx Hnd].
  destruct (hasRequestId oid x) eqn:Ex.
  - injection Hf as ->. f_equal. f_equal.
    symmetry. rewrite <- (list_fmap_id l) at 2.
    apply list_fmap_ext. intros i y Hy.
    destruct (hasRequestId oid y) eqn:Ey; [|done].
    destruct Hx. apply list_elem_of_fmap. exists y.
    split; [|by eapply list_elem_of_lookup_2].
    unfold hasRequestId in *. apply String.eqb_eq in Ex, Ey. congruence.
  - by rewrite (IH Hnd Hf).
Qed.

Lemma closing_accepted now oid petId docs :
  updateMany (fun r => String.eqb (adoption_petId (requestOf r)) petId
                       && negb (hasRequestId oid r)) closed
    ((fun x => if hasRequestId oid x then accepted now x else x) <$> docs)
  = (fun d => if hasRequestId oid d then accepted now d
              else if String.eqb (adoption_petId (requestOf d)) petId
                   then closed d else d) <$> docs.
Proof.
  unfold updateMany. rewrite <- list_fmap_compose.
  apply list_fmap_ext. intros i d _. simpl.
  destruct (hasRequestId oid d) eqn:Ed.
  - assert (hasRequestId oid (accepted now d) = true) as -> by done.
    by rewrite andb_false_r.
  - rewrite Ed. by rewrite andb_true_r.
Qed.

(** What the pass finds for a pet after its requests were accepted and
    closed. *)
Lemma accepted_is_found now oid docs d :
  List.find (hasRequestId oid) docs = Some d ->
  List.find (fun a => String.eqb (adoption_petId a)
                        (adoption_petId (requestOf d))
                      && String.eqb (status a) "accepted")
    (requestOf <$>
       ((fun x => if hasRequestId oid x then accepted now x
                  else if String.eqb (adoption_petId (requestOf x))
                                     (adoption_petId (requestOf d))
                       then closed x else x) <$> docs))
  = Some (requestOf (accepted now d)).
Proof.
  intros Hf. rewrite <- list_fmap_compose, find_fmap.
  destruct (find_split _ _ _ Hf) as (l1 & l2 & -> & Hl1 & Hd).
  rewrite (find_first _ l1 l2 d); [by simpl; rewrite Hd| |].
  - eapply Forall_impl; [exact Hl1|]. intros x Hx. simpl. rewrite Hx.
    destruct (String.eqb (adoption_petId (requestOf x))
                (adoption_petId (requestOf d))) eqn:Ep; simpl.
    + by rewrite Ep.
    + by rewrite Ep.
  - simpl. rewrite Hd. simpl. by rewrite String.eqb_refl.
Qed.

Lemma find_request_fmap (f : AdoptionRequest -> AdoptionRequest) oid docs :
  (forall x, request_id (f x) = request_id x) ->
  List.find (hasRequestId oid) (f <$> docs)
  = f <$> List.find (hasRequestId oid) docs.
Proof.
  intros Hid. rewrite find_fmap. f_equal. apply find_ext.
  intros x _. unfold hasRequestId. by rewrite Hid.
Qed.

Lemma settled_id now oid petId d :
  request_id (settled now oid petId d) = request_id d.
Proof.
  unfold settled. destruct (hasRequestId oid d); [done|].
  by destruct (String.eqb _ _).
Qed.

Section AcceptFacts.
Variable ObjectId_ : string -> option string.
Variable invalidIdMessage : string.

Lemma accept_200 rejects now db id db' r :
  NoDup (request_id <$> adoptionDocuments db) ->
  put_adoption_accept ObjectId_ invalidIdMessage rejects now db id = (db', r) ->
  statusCode r = 200 ->
  exists oid requestDoc petOid p,
    ObjectId_ id = Some oid /\
    List.find (hasRequestId oid) (adoptionDocuments db) = Some requestDoc /\
    ObjectId_ (adoption_petId (requestOf requestDoc)) = Some petOid /\
    List.find (hasPetId petOid) (petDocuments db) = Some p /\
    pet_adopted p = false /\
    adoption_petId (requestOf requestDoc) <> EmptyString /\
    userCollection db' = userCollection db /\
    adoptionDocuments db'
    = settled now oid (adoption_petId (requestOf requestDoc))
        <$> adoptionDocuments db /\
    petDocuments db'
    = (updateOne (hasPetId petOid) adopted (petDocuments db)).1.
Proof.
  intros Hnd Hrun H200. unfold put_adoption_accept in Hrun.
  destruct (ObjectId_ id) as [oid|] eqn:Eoid; [|by simplify_eq/=].
  destruct (rejects FindRequest); [by simplify_eq/=|].
  destruct (List.find (hasRequestId oid) (adoptionDocuments db))
    as [requestDoc|] eqn:Ef; [|by simplify_eq/=].
  cbv zeta in Hrun.
  destruct (JsString.truthy (Some (adoption_petId (requestOf requestDoc))))
    eqn:Etruthy; [|by simplify_eq/=].
  cbn [negb orb] in Hrun.
  destruct (negb (isValid ObjectId_ (adoption_petId (requestOf requestDoc))));
    [by simplify_eq/=|].
  destruct (rejects AcceptRequest); [by simplify_eq/=|].
  rewrite (updateOne_requests now oid _ requestDoc Hnd Ef) in Hrun.
  cbn [modifiedCount] in Hrun.
  destruct (decide (accepted now requestDoc = requestDoc));
    [by simplify_eq/=|].
  change (1 =? 0) with false in Hrun. cbv iota in Hrun.
  destruct (ObjectId_ (adoption_petId (requestOf requestDoc)))
    as [petOid|] eqn:Epet; [|by simplify_eq/=].
  destruct (rejects AdoptPet); [by simplify_eq/=|].
  cbn [withRequests withPets petDocuments userCollection adoptionDocuments
       purchaseDocuments] in Hrun.
  destruct (List.find (hasPetId petOid) (petDocuments db)) as [p|] eqn:Efp.
  2: { rewrite (updateOne_not_found _ _ _ Efp) in Hrun. by simplify_eq/=. }
  destruct (updateOne_found (hasPetId petOid) adopted _ p Efp)
    as (l1 & l2 & Hpets & Hl1 & Hp & Hu).
  rewrite Hu in Hrun. cbn [modifiedCount] in Hrun.
  destruct (decide (adopted p = p)) as [Hsame|Hdiff]; [by simplify_eq/=|].
  change (1 =? 0) with false in Hrun. cbv iota in Hrun.
  destruct (rejects CloseOthers); [by simplify_eq/=|].
  rewrite closing_accepted in Hrun.
  injection Hrun as <- <-.
  exists oid, requestDoc, petOid, p. rewrite Hu.
  repeat split; try done.
  - destruct p as [pp [|]]; [|done]. by destruct Hdiff.
  - unfold JsString.truthy in Etruthy.
    by apply negb_true_iff, String.eqb_neq in Etruthy.
Qed.


Lemma accept_pet_unmodified rejects now db id oid requestDoc petOid :
  NoDup (request_id <$> adoptionDocuments db) ->
  ObjectId_ id = Some oid ->
  List.find (hasRequestId oid) (adoptionDocuments db) = Some requestDoc ->
  adoption_petId (requestOf requestDoc) <> EmptyString ->
  ObjectId_ (adoption_petId (requestOf requestDoc)) = Some petOid ->
  accepted now requestDoc <> requestDoc ->
  (forall p, List.find (hasPetId petOid) (petDocuments db) = Some p ->
             pet_adopted p = true) ->
  rejects FindRequest = None -> rejects AcceptRequest = None ->
  rejects AdoptPet = None ->
  put_adoption_accept ObjectId_ invalidIdMessage rejects now db id
  = (withRequests db
       ((fun d => if hasRequestId oid d then accepted now d else d)
          <$> adoptionDocuments db),
     failure 500 "Failed to mark pet as adopted").
Proof.
  intros Hnd Eoid Ef Hne Epet Hdiff Hpet R1 R2 R3.
  unfold put_adoption_accept. rewrite Eoid, R1, Ef. cbv zeta.
  unfold isValid. rewrite Epet.
  assert (JsString.truthy (Some (adoption_petId (requestOf requestDoc)))
          = true) as ->.
  { unfold JsString.truthy. by apply negb_true_iff, String.eqb_neq. }
  cbn [negb orb]. rewrite R2.
  rewrite (updateOne_requests now oid _ requestDoc Hnd Ef).
  cbn [modifiedCount].
  destruct (decide (accepted now requestDoc = requestDoc)); [done|].
  change (1 =? 0) with false. cbv iota. rewrite R3.
  cbn [withRequests withPets petDocuments userCollection adoptionDocuments
       purchaseDocuments].
  destruct (updateOne_same (hasPetId petOid) adopted (petDocuments db))
    as [Hfst Hcount].
  { intros p Hp. specialize (Hpet p Hp). destruct p as [pp a].
    simpl in Hpet. by subst a. }
  destruct (updateOne (hasPetId petOid) adopted (petDocuments db))
    as [pets2 updatedPet]. simpl in Hfst, Hcount. subst pets2.
  by rewrite Hcount.
Qed.


Lemma second_accept rejects now1 now2 db idA idB oidA oidB reqA reqB db1 r1 :
  NoDup (request_id <$> adoptionDocuments db) ->
  ObjectId_ idA = Some oidA -> ObjectId_ idB = Some oidB -> oidA <> oidB ->
  List.find (hasRequestId oidA) (adoptionDocuments db) = Some reqA ->
  List.find (hasRequestId oidB) (adoptionDocuments db) = Some reqB ->
  adoption_petId (requestOf reqA) = adoption_petId (requestOf reqB) ->
  put_adoption_accept ObjectId_ invalidIdMessage rejects now1 db idA = (db1, r1) ->
  statusCode r1 = 200 ->
  exists db2,
    put_adoption_accept ObjectId_ invalidIdMessage (fun _ => None) now2 db1 idB
    = (db2, failure 500 "Failed to mark pet as adopted") /\
    List.find (hasRequestId oidA) (adoptionDocuments db2)
    = Some (accepted now1 reqA) /\
    List.find (hasRequestId oidB) (adoptionDocuments db2)
    = Some (accepted now2 (closed reqB)).
Proof.
  intros Hnd EA EB Hne FA FB Hpet Hrun H200.
  destruct (accept_200 _ _ _ _ _ _ Hnd Hrun H200)
    as (oid & requestDoc & petOid & p & Eoid & Ef & Epet & Efp & Hp & Hid
        & Hu & Hdocs & Hpets).
  rewrite EA in Eoid. injection Eoid as <-.
  rewrite FA in Ef. injection Ef as <-.
  assert (HidA : hasRequestId oidA reqA = true).
  { by destruct (find_split _ _ _ FA) as (? & ? & _ & _ & ?). }
  assert (HidB : hasRequestId oidB reqB = true).
  { by destruct (find_split _ _ _ FB) as (? & ? & _ & _ & ?). }
  assert (HAB : hasRequestId oidA reqB = false).
  { unfold hasRequestId in *. apply String.eqb_eq in HidB.
    apply String.eqb_neq. congruence. }
  assert (HBA : hasRequestId oidB reqA = false).
  { unfold hasRequestId in *. apply String.eqb_eq in HidA.
    apply String.eqb_neq. congruence. }
  assert (HsB : settled now1 oidA (adoption_petId (requestOf reqA)) reqB
                = closed reqB).
  { unfold settled. rewrite HAB, Hpet. by rewrite String.eqb_refl. }
  assert (HsA : settled now1 oidA (adoption_petId (requestOf reqA)) reqA
                = accepted now1 reqA).
  { unfold settled. by rewrite HidA. }
  assert (Hnd1 : NoDup (request_id <$> adoptionDocuments db1)).
  { rewrite Hdocs, <- list_fmap_compose.
    erewrite list_fmap_ext; [exact Hnd|].
    intros i x _. apply settled_id. }
  assert (FB1 : List.find (hasRequestId oidB) (adoptionDocuments db1)
                = Some (closed reqB)).
  { rewrite Hdocs, find_request_fmap by apply settled_id.
    by rewrite FB, <- HsB. }
  assert (FA1 : List.find (hasRequestId oidA) (adoptionDocuments db1)
                = Some (accepted now1 reqA)).
  { rewrite Hdocs, find_request_fmap by apply settled_id.
    by rewrite FA, <- HsA. }
  eexists. split.
  - apply (accept_pet_unmodified (fun _ => None) now2 db1 idB oidB
             (closed reqB) petOid); try done.
    + simpl. by rewrite <- Hpet.
    + simpl. by rewrite <- Hpet.
    + intros p' Hp'. rewrite Hpets in Hp'.
      destruct (updateOne_found (hasPetId petOid) adopted _ p Efp)
        as (l1 & l2 & _ & Hl1 & Hm & Hupd).
      rewrite Hupd in Hp'. simpl in Hp'.
      rewrite (find_first _ l1 l2 (adopted p)) in Hp' by done.
      by injection Hp' as <-.
  - cbn [withRequests adoptionDocuments]. split.
    + rewrite find_request_fmap.
      * rewrite FA1. cbn [fmap option_fmap option_map].
        change (hasRequestId oidB (accepted now1 reqA))
          with (hasRequestId oidB reqA).
        by rewrite HBA.
      * intros x. by destruct (hasRequestId oidB x).
    + rewrite find_request_fmap.
      * rewrite FB1. cbn [fmap option_fmap option_map].
        change (hasRequestId oidB (closed reqB))
          with (hasRequestId oidB reqB).
        by rewrite HidB.
      * intros x. by destruct (hasRequestId oidB x).
Qed.

End AcceptFacts.

(** ** PATCH /pet/:id/vaccinations *)

Lemma verifyAdmin_Refused users decoded r :
  verifyAdmin users decoded = Refused r -> r = forbidden.
Proof.
  unfold verifyAdmin. destruct (negb _); [by intros [= <-]|done].
Qed.

Lemma verifyAdmin_unit users decoded u :
  verifyAdmin users decoded = Next u -> verifyAdmin users decoded = Next tt.
Proof. by destruct u. Qed.


Section PatchFacts.
Variable ObjectId_ : string -> option string.
Variable jwt_verify : option string -> option Claims.

Lemma verifyToken_Refused authorization r :
  verifyToken jwt_verify authorization = Refused r -> r = unauthorized.
Proof.
  unfold verifyToken. destruct (negb _); [by intros [= <-]|].
  destruct (jwt_verify _); [done|by intros [= <-]].
Qed.



Lemma patch_200 db authorization id vaccinations db' r :
  patch_pet_vaccinations ObjectId_ jwt_verify db authorization id vaccinations
  = (db', Answered r) ->
  statusCode r = 200 ->
  exists doses oid,
    vaccinations = Some doses /\ ObjectId_ id = Some oid /\
    forall p', p' ∈ petDocuments db' ->
      p' ∈ petDocuments db \/
      (_id (petOf p') = oid /\
       forall k,
         entriesForType (petOf p') k
         = match List.find (hasInKey k) doses with
           | Some v =>
               if JsString.truthy (vaccineType (kept v))
                  && JsString.truthy (date (kept v))
               then [ kept v ] else []
           | None => []
           end).
Proof.
  unfold patch_pet_vaccinations. intros Hrun H200.
  destruct (verifyToken jwt_verify authorization) as [r0|decoded] eqn:Et.
  { apply verifyToken_Refused in Et. by simplify_eq. }
  destruct (verifyAdmin (userCollection db) decoded) as [r0|[]] eqn:Ea.
  { apply verifyAdmin_Refused in Ea. by simplify_eq. }
  unfold patch_pet_vaccinations_handler in Hrun.
  destruct vaccinations as [doses|]; [|by simplify_eq].
  destruct (ObjectId_ id) as [oid|]; [|by simplify_eq].
  exists doses, oid. split; [done|split; [done|]].
  destruct (updateOne_cases (hasPetId oid)
              (withVaccinations (dedupeVaccinationsArray doses))
              (petDocuments db))
    as [[_ Hu]|(l1 & d & l2 & Hd & _ & Hm & _ & Hu)];
    rewrite Hu in Hrun; injection Hrun as <- _; simpl.
  - intros p' Hp'. by left.
  - intros p' Hp'. rewrite Hd.
    apply elem_of_app in Hp' as [Hp'|Hp'].
    { left. apply elem_of_app. by left. }
    apply elem_of_cons in Hp' as [->|Hp'].
    + right. split.
      * unfold hasPetId in Hm. by apply String.eqb_eq in Hm.
      * intros k. by apply entriesForType_deduped.
    + left. apply elem_of_app. right. by right.
Qed.

End PatchFacts.

(** ** POST /users *)

Lemma post_users_NoDup insertedId db user :
  NoDup (user_email <$> userCollection db) ->
  NoDup (user_email <$> userCollection (post_users insertedId db user).1).
Proof.
  intros Hnd. unfold post_users.
  destruct (userOf (userCollection db) (user_email user)) eqn:E; [done|].
  simpl. rewrite fmap_app. apply NoDup_app. split; [done|]. split.
  - intros e He [->|H]%elem_of_cons.
    + apply userOf_None in E. by destruct E.
    + by apply elem_of_nil in H.
  - apply NoDup_singleton.
Qed.

Lemma post_users_admin insertedId db user :
  userOf (userCollection db) (user_email user) = None ->
  (verifyAdmin (userCollection (post_users insertedId db user).1)
     (mkClaims (user_email user)) = Next tt
   <-> role user = Some "admin") /\
  (forall decoded,
      claims_email decoded <> user_email user ->
      verifyAdmin (userCollection (post_users insertedId db user).1) decoded
      = verifyAdmin (userCollection db) decoded).
Proof.
  intros Hnew. unfold post_users. rewrite Hnew. simpl. split.
  - rewrite verifyAdmin_Next. simpl. rewrite userOf_app, Hnew.
    unfold userOf. simpl. rewrite bool_decide_eq_true_2 by done.
    split.
    + by intros (u & [= <-] & Hr).
    + intros Hr. by exists user.
  - intros decoded Hne. unfold verifyAdmin. rewrite userOf_app.
    destruct (userOf (userCollection db) (claims_email decoded)); [done|].
    unfold userOf. simpl. rewrite bool_decide_eq_false_2; [done|].
    congruence.
Qed.

(** ** The callers of the pass *)

Lemma callers_of_pass host db delivers intervals message now :
  callerLines (atStartup host db delivers intervals now)
  = [ InitialCheckCompleted ] /\
  callerLines (scheduled host db delivers intervals now)
  = [ ScheduledRunning now ] /\
  answer (get_test_send_vaccination_reminders host db delivers intervals
            message now)
  = Some (mkResponse 200
            [ ("success", JBool true);
              ("message",
               JStr "Vaccination reminder task executed (manual run).") ]).
Proof.
  pose proof (pass_result host db delivers intervals now) as Hr.
  unfold atStartup, scheduled, get_test_send_vaccination_reminders.
  destruct (sendVaccinationReminders host db delivers intervals now)
    as [t r]. simpl in Hr. by subst r.
Qed.

(** ** POST /purchases *)

Lemma find_app_Some {A} (p : A -> bool) (l more : list A) x :
  List.find p l = Some x -> List.find p (l ++ more) = Some x.
Proof.
  induction l as [|y l IH]; simpl; [done|]. by destruct (p y).
Qed.

Section PurchaseFacts.
Variable ObjectId_ : string -> option string.
Variable invalidIdMessage : string.

Lemma post_purchases_documents rejects insertedId db purchase :
  purchaseDocuments
    (post_purchases ObjectId_ invalidIdMessage rejects insertedId db
       purchase).1
  = match rejects SavePurchase with
    | Some _ => purchaseDocuments db
    | None => purchaseDocuments db ++ [ purchase ]
    end.
Proof.
  unfold post_purchases.
  destruct (rejects SavePurchase); [done|].
  destruct (ObjectId_ (purchase_petId purchase)); [|done].
  destruct (rejects MarkSold); [done|].
  by destruct (updateOne _ _ _).
Qed.

Lemma post_purchases_first rejects insertedId db purchase store store' petId
    first :
  purchasesCollection store = purchaseDocuments db ->
  purchasesCollection store'
  = purchaseDocuments
      (post_purchases ObjectId_ invalidIdMessage rejects insertedId db
         purchase).1 ->
  purchaseOf store petId = Some first ->
  purchaseOf store' petId = Some first.
Proof.
  unfold purchaseOf. intros -> -> Hf. rewrite post_purchases_documents.
  destruct (rejects SavePurchase); [done|]. by apply find_app_Some.
Qed.

End PurchaseFacts.

(* ===================================================================== *)
(** * The properties of the specification *)
(* ===================================================================== *)

(** ** The normaliser *)

(** C3.  The result of [dedupeVaccinationsArray] holds at most one entry
    per case-folded trimmed vaccine type, and for every such type [k] it
    holds exactly the first element of the input filed under [k]
    (whatever the dates), with the vaccine type trimmed and otherwise as
    it was written, and with the date as it was. *)
Theorem dedupe_first_seen_wins (vaccinations : VaccinationArray) (k : string) :
  NoDup (outKey <$> dedupeVaccinationsArray vaccinations) /\
  List.filter (hasOutKey k) (dedupeVaccinationsArray vaccinations)
  = match List.find (hasInKey k) vaccinations with
    | Some (Some e) => [ {| vaccineType := JsString.trim <$> vaccineType e;
                            date := date e |} ]
    | _ => []
    end.
Proof.
  rewrite dedupe_unfold. split; [apply dedupe_from_NoDup|].
  rewrite dedupe_from_filter. rewrite decide_False by apply not_elem_of_empty.
  destruct (List.find (hasInKey k) vaccinations) as [v|] eqn:E; [|done].
  apply find_some in E as [_ E]. unfold hasInKey in E.
  apply bool_decide_eq_true in E.
  destruct v as [[[t|] d]|]; simpl in E; try discriminate. done.
Qed.

(** C7.  An element whose vaccine type is blank passes the guard of the
    loop, which tests the type before it is trimmed: the result keeps
    it, with the empty string as its type. *)
Theorem dedupe_keeps_blank_type :
  dedupeVaccinationsArray
    [ Some {| vaccineType := Some "   "; date := Some "2024-01-10" |} ]
  = [ {| vaccineType := Some EmptyString; date := Some "2024-01-10" |} ].
Proof. reflexivity. Qed.

(** C10.  On that array the function is not idempotent: the entry it
    returns has an empty type, which a second application drops. *)
Theorem dedupe_twice_blank_type :
  let vaccinations :=
    [ Some {| vaccineType := Some "   "; date := Some "2024-01-10" |} ] in
  dedupeVaccinationsArray (asArray (dedupeVaccinationsArray vaccinations)) = []
  /\ dedupeVaccinationsArray vaccinations <> [].
Proof. split; [reflexivity | discriminate]. Qed.

(** ** The dispatcher *)

(** C5.  When neither query is rejected, a notification completes
    without an error and sends: two mails, the first addressed to the
    adopter and the second to the buyer, when the adoption found is one
    of this pet with the status [accepted] and a non-empty
    [adopterEmail], and the purchase found is one of this pet with a
    non-empty [buyerEmail]; no mail when neither record is found; and
    no mail for a record that is found but has no address or an empty
    one.  The mails are given by their four properties, as
    [mailOptions] holds them. *)
Theorem notify_recipients host db delivers pet latest due :
  adoptionQueryFails db (_id pet) = false ->
  purchaseQueryFails db (_id pet) = false ->
  let vaccine := JsString.String_ (vaccineType latest) in
  let run := notify host db delivers pet latest due in
  let mailTo := fun recipient : string =>
    {| from := JsDate.MAIL_USER host;
       to := recipient;
       subject := String.append "Vaccination Reminder for " (pet_name pet);
       text := reminderText (pet_name pet) vaccine due |} in
  result run = Ok tt /\
  (forall a p ea eb,
      acceptedAdoptionOf db (_id pet) = Some a ->
      adopterEmail a = Some ea -> ea <> EmptyString ->
      purchaseOf db (_id pet) = Some p ->
      buyerEmail p = Some eb -> eb <> EmptyString ->
      (a ∈ adoptionCollection db /\ adoption_petId a = _id pet /\
       status a = "accepted") /\
      (p ∈ purchasesCollection db /\ purchase_petId p = _id pet) /\
      mailsSent (trace run) = [ mailTo ea; mailTo eb ] /\
      to <$> mailsSent (trace run) = [ ea; eb ]) /\
  (acceptedAdoptionOf db (_id pet) = None ->
   purchaseOf db (_id pet) = None ->
   mailsSent (trace run) = []) /\
  (forall a,
      acceptedAdoptionOf db (_id pet) = Some a ->
      JsString.truthy (adopterEmail a) = false ->
      mailsSent (trace run)
      = (if JsString.truthy (purchaseOf db (_id pet) ≫= buyerEmail)
         then [ mailTo (JsString.String_
                          (purchaseOf db (_id pet) ≫= buyerEmail)) ]
         else []) /\
      to <$> mailsSent (trace run)
      = (if JsString.truthy (purchaseOf db (_id pet) ≫= buyerEmail)
         then [ JsString.String_ (purchaseOf db (_id pet) ≫= buyerEmail) ]
         else [])) /\
  (forall p,
      purchaseOf db (_id pet) = Some p ->
      JsString.truthy (buyerEmail p) = false ->
      mailsSent (trace run)
      = (if JsString.truthy (acceptedAdoptionOf db (_id pet) ≫= adopterEmail)
         then [ mailTo (JsString.String_
                          (acceptedAdoptionOf db (_id pet) ≫= adopterEmail)) ]
         else []) /\
      to <$> mailsSent (trace run)
      = (if JsString.truthy (acceptedAdoptionOf db (_id pet) ≫= adopterEmail)
         then [ JsString.String_
                  (acceptedAdoptionOf db (_id pet) ≫= adopterEmail) ]
         else [])).
Proof.
  intros Ha Hp vaccine run mailTo.
  destruct (notify_mails host db delivers pet latest due Ha Hp) as [Hr Hm].
  fold run vaccine in Hr, Hm.
  change (reminderSubject (pet_name pet))
    with (String.append "Vaccination Reminder for " (pet_name pet)) in *.
  assert (Hmail : forall e, reminder host e (pet_name pet) vaccine due
                            = mailTo e) by reflexivity.
  rewrite !Hmail in Hm.
  split; [done|]. split; [|split; [|split]].
  - intros a p ea eb Hfa Hea Hnea Hfp Heb Hneb.
    split; [by apply (acceptedAdoptionOf_Some db (_id pet))|].
    split; [by apply (purchaseOf_Some db (_id pet))|].
    assert (Hmails : mailsSent (trace run) = [ mailTo ea; mailTo eb ]).
    { rewrite Hm, Hfa, Hfp. simpl. rewrite Hea, Heb. simpl.
      destruct (String.eqb_spec ea EmptyString); [done|].
      destruct (String.eqb_spec eb EmptyString); [done|]. done. }
    split; [done|]. by rewrite Hmails.
  - intros Hna Hnp. by rewrite Hm, Hna, Hnp.
  - intros a Hfa Hemail.
    assert (Hmails : mailsSent (trace run)
              = if JsString.truthy (purchaseOf db (_id pet) ≫= buyerEmail)
                then [ mailTo (JsString.String_
                                 (purchaseOf db (_id pet) ≫= buyerEmail)) ]
                else []).
    { rewrite Hm, Hfa. simpl. by rewrite Hemail. }
    split; [done|]. rewrite Hmails.
    destruct (JsString.truthy (purchaseOf db (_id pet) ≫= buyerEmail));
      reflexivity.
  - intros p Hfp Hemail.
    assert (Hmails : mailsSent (trace run)
              = if JsString.truthy
                     (acceptedAdoptionOf db (_id pet) ≫= adopterEmail)
                then [ mailTo (JsString.String_
                                 (acceptedAdoptionOf db (_id pet)
                                    ≫= adopterEmail)) ]
                else []).
    { rewrite Hm, Hfp. simpl. rewrite Hemail. by rewrite app_nil_r. }
    split; [done|]. rewrite Hmails.
    destruct (JsString.truthy
                (acceptedAdoptionOf db (_id pet) ≫= adopterEmail));
      reflexivity.
Qed.

(** ** The evaluator *)

(** C6.  An event of a pass is filed under a key of the interval table,
    and its dose is one of the pet's doses of that type.  Hence, for a
    vaccine type whose case-folded trimmed form is no key of the table,
    no event has that key or a dose of that type; and for a key and a
    pet without a matching dose, no event names both. *)
Theorem no_event_outside_table host db delivers intervals now ev :
  ev ∈ dueEvents (trace (sendVaccinationReminders host db delivers intervals
                           now)) ->
  (forall T, typeKey T ∉ intervals.*1 ->
             due_key ev <> typeKey T /\
             vaccineType (due_latest ev) <> Some T) /\
  (forall pet k, entriesForType pet k = [] ->
                 ~ (due_pet ev = pet /\ due_key ev = k)).
Proof.
  intros Hev.
  destruct (pass_due_elem _ _ _ _ _ _ Hev)
    as (ts & das & entry & _ & _ & Hentry & Hd).
  destruct (dueCheck_Some _ _ _ _ _ _ Hd) as (_ & Hk & Hin & _).
  assert (Hkey : due_key ev ∈ intervals.*1).
  { rewrite Hk. by apply list_elem_of_fmap_2. }
  split.
  - intros T HT. split; [congruence|].
    intros HTy. apply entriesForType_elem in Hin as (_ & _ & _ & Hty).
    rewrite HTy in Hty. simpl in Hty. rewrite Hk in Hkey. congruence.
  - intros pet k Hnone [<- <-]. rewrite <- Hk, Hnone in Hin.
    by apply elem_of_nil in Hin.
Qed.

(** C1.  On a host whose offset of local time is constant, take a pet
    of the collection whose only dose has the vaccine type [T] and a
    date that parses to the instant [t], and an entry of the interval
    table for [T] with [n] days; let the dates involved have four-digit
    years.  A pass that starts on the day [D + n - 1], where [D] is the
    day of [t], and that no error ends enters the notifying branch
    exactly once for this pet and [T]; a pass that starts on the day
    [D + n - 2] or [D + n] never does.  Without the condition on
    errors the first part fails: a pass that an earlier pet ends has no
    event for a pet that is due. *)
Theorem single_dose_due_window host db delivers intervals now pet T s t n :
  NoDup (petCollection db) -> pet ∈ petCollection db ->
  NoDup intervals.*1 -> (typeKey T, n) ∈ intervals ->
  vaccinations pet
    = Some [ Some {| vaccineType := Some T; date := Some s |} ] ->
  T <> EmptyString -> s <> EmptyString ->
  JsDate.ofString host (Some s) = Some t ->
  JsDate.fourDigitYear now ->
  JsDate.fourDigitYear (now + 2 * JsDate.msPerDay) ->
  let tr := trace (sendVaccinationReminders host db delivers intervals now) in
  let events := filter (forPair pet (typeKey T)) (dueEvents tr) in
  (JsDate.Day now = JsDate.Day t + n - 1 -> erred tr = false ->
   events = [ {| due_pet := pet; due_key := typeKey T;
                 due_latest := {| vaccineType := Some T; date := Some s |};
                 due_date := JsDate.isoDate (t + n * JsDate.msPerDay) |} ]) /\
  (JsDate.Day now = JsDate.Day t + n - 2 \/ JsDate.Day now = JsDate.Day t + n ->
   events = []).
Proof.
  intros Hpets Hpet Hkeys Hentry Hv HT Hs Ht H0 H2 tr events.
  assert (Hd : JsDate.Day now <= JsDate.Day t + n <= JsDate.Day now + 2 ->
               JsDate.fourDigitYear (t + n * JsDate.msPerDay)).
  { revert H0 H2. rewrite !JsDateFacts.fourDigitYear_iff,
      !JsDateFacts.Day_add_days. lia. }
  split.
  - intros Hday Herr.
    destruct (single_dose_events host db delivers intervals now pet T s t n)
      as [_ He]; [done..|by apply Hd; lia|].
    fold tr events in He. rewrite (He Herr).
    by rewrite bool_decide_eq_true_2 by lia.
  - intros Hday.
    destruct (single_dose_events host db delivers intervals now pet T s t n)
      as [Hp _]; [done..|by apply Hd; lia|].
    fold tr events in Hp.
    rewrite bool_decide_eq_false_2 in Hp by lia.
    by apply prefix_nil_inv.
Qed.

Lemma single_dose_due_window_witness :
  filter (forPair bella "rabies")
    (dueEvents (trace (sendVaccinationReminders JsDate.utcHost bellaStore
                         allDelivered normalizedIntervals
                         (nineOClock "2025-01-08"))))
  = [ bellaDue ].
Proof.
  destruct (single_dose_due_window JsDate.utcHost bellaStore allDelivered
              normalizedIntervals (nineOClock "2025-01-08") bella
              "Rabies" "2024-01-10" (midnight "2024-01-10") 365)
    as [H _].
  - apply NoDup_singleton.
  - apply list_elem_of_here.
  - apply normalizeIntervals_NoDup.
  - vm_compute. apply list_elem_of_here.
  - reflexivity.
  - discriminate.
  - discriminate.
  - reflexivity.
  - vm_compute. split; discriminate.
  - vm_compute. split; discriminate.
  - apply H; vm_compute; reflexivity.
Defined.

(** In [farStore] the pet before Bella has a dose whose due date is
    out of range: the pass of 2025-01-08 ends there, and Bella, whose
    only Rabies dose of 2024-01-10 falls due the day after, gets no
    event. *)
Lemma earlier_error_hides_a_due_dose :
  petCollection farStore = [ farPet; bella ] /\
  vaccinations bella
  = Some [ Some {| vaccineType := Some "Rabies";
                   date := Some "2024-01-10" |} ] /\
  rabiesOnly = [ (typeKey "Rabies", 365) ] /\
  JsDate.ofString farHost (Some "2024-01-10") = Some (midnight "2024-01-10") /\
  JsDate.Day (nineOClock "2025-01-08")
  = JsDate.Day (midnight "2024-01-10") + 365 - 1 /\
  erred (trace (sendVaccinationReminders farHost farStore allDelivered
                  rabiesOnly (nineOClock "2025-01-08"))) = true /\
  filter (forPair bella (typeKey "Rabies"))
    (dueEvents (trace (sendVaccinationReminders farHost farStore
                         allDelivered rabiesOnly (nineOClock "2025-01-08"))))
  = [].
Proof. repeat split; vm_compute; reflexivity. Qed.

(** C2.  For the pet Bella with its Rabies dose of 2024-01-10 and the
    table with Rabies at 365 days, on every host that reads the date as
    midnight UTC of that day: the next due date is 2025-01-09 (2024 is
    a leap year), so a pass that starts on 2025-01-08 and is not cut
    short by an error has exactly one event, with that due date, and a
    pass that starts on 2025-01-09 has none. *)
Theorem bella_due_2025_01_09 host db delivers now :
  JsDate.Date_parse host "2024-01-10" = Some (midnight "2024-01-10") ->
  petCollection db = [ bella ] ->
  let tr := trace (sendVaccinationReminders host db delivers rabiesOnly now) in
  (JsDate.Day now = JsDate.Day (midnight "2025-01-08") ->
   erred tr = false -> dueEvents tr = [ bellaDue ]) /\
  (JsDate.Day now = JsDate.Day (midnight "2025-01-09") ->
   dueEvents tr = []).
Proof.
  rewrite midnight_2024_01_10, Day_2025_01_08, Day_2025_01_09.
  intros Hparse Hdb tr.
  assert (Ht : JsDate.ofString host (Some "2024-01-10") = Some 1704844800000).
  { unfold JsDate.ofString. rewrite Hparse. vm_compute. reflexivity. }
  assert (Hpets : NoDup (petCollection db))
    by (rewrite Hdb; apply NoDup_singleton).
  assert (Hpet : bella ∈ petCollection db)
    by (rewrite Hdb; apply list_elem_of_here).
  assert (Hkeys : NoDup rabiesOnly.*1) by apply normalizeIntervals_NoDup.
  assert (Hentry : (typeKey "Rabies", 365) ∈ rabiesOnly).
  { rewrite typeKey_Rabies, rabiesOnly_eq. apply list_elem_of_here. }
  assert (Hfil : filter (forPair bella (typeKey "Rabies")) (dueEvents tr)
                 = dueEvents tr).
  { apply filter_all. intros ev Hev.
    destruct (pass_due_elem _ _ _ _ _ _ Hev)
      as (ts & das & entry & _ & Hp & Hin & Hd).
    apply petsWithVaccinations_elem in Hp as [Hp _].
    rewrite Hdb in Hp. apply list_elem_of_singleton in Hp.
    apply dueCheck_Some in Hd as (_ & Hk & _).
    rewrite rabiesOnly_eq in Hin.
    apply list_elem_of_singleton in Hin. subst entry.
    split; [exact Hp|]. rewrite Hk, typeKey_Rabies. reflexivity. }
  assert (Hyears : 20096 <= JsDate.Day now <= 20097 ->
             JsDate.fourDigitYear now /\
             JsDate.fourDigitYear (now + 2 * JsDate.msPerDay) /\
             JsDate.fourDigitYear (1704844800000 + 365 * JsDate.msPerDay)).
  { intros Hr.
    rewrite !JsDateFacts.fourDigitYear_iff, !JsDateFacts.Day_add_days,
      Day_2024_01_10. lia. }
  assert (Hev : forall l : list DueEvent,
             l = (if bool_decide (JsDate.Day 1704844800000 + 365
                                  = JsDate.Day now + 1)
                  then [ {| due_pet := bella; due_key := typeKey "Rabies";
                            due_latest := {| vaccineType := Some "Rabies";
                                             date := Some "2024-01-10" |};
                            due_date := JsDate.isoDate
                              (1704844800000 + 365 * JsDate.msPerDay) |} ]
                  else []) ->
             l = if bool_decide (JsDate.Day now = 20096)
                 then [ bellaDue ] else []).
  { intros l ->. rewrite isoDate_2025_01_09, typeKey_Rabies, Day_2024_01_10.
    repeat case_bool_decide; try reflexivity; lia. }
  assert (Hmain : 20096 <= JsDate.Day now <= 20097 ->
            dueEvents tr `prefix_of`
              (if bool_decide (JsDate.Day now = 20096)
               then [ bellaDue ] else []) /\
            (erred tr = false ->
             dueEvents tr = if bool_decide (JsDate.Day now = 20096)
                            then [ bellaDue ] else [])).
  { intros Hr. destruct (Hyears Hr) as (H0 & H2 & Hd).
    pose proof (single_dose_events host db delivers rabiesOnly now bella
                  "Rabies" "2024-01-10" 1704844800000 365
                  Hpets Hpet Hkeys Hentry eq_refl
                  ltac:(discriminate) ltac:(discriminate) Ht H0 H2 Hd)
      as [Hp He].
    fold tr in Hp, He. rewrite Hfil in Hp, He. split.
    - destruct Hp as [k Hk]. symmetry in Hk. apply Hev in Hk.
      exists k. by symmetry.
    - intros Herr. apply Hev, He, Herr. }
  split; intros Hday.
  - intros Herr. destruct Hmain as [_ He]; [lia|].
    rewrite (He Herr). by rewrite bool_decide_eq_true_2.
  - destruct Hmain as [Hp _]; [lia|].
    rewrite bool_decide_eq_false_2 in Hp by lia.
    by apply prefix_nil_inv.
Qed.

Lemma bella_due_2025_01_09_witness :
  dueEvents (trace (sendVaccinationReminders JsDate.utcHost bellaStore
                      allDelivered rabiesOnly (nineOClock "2025-01-08")))
  = [ bellaDue ].
Proof.
  destruct (bella_due_2025_01_09 JsDate.utcHost bellaStore allDelivered
              (nineOClock "2025-01-08")) as [H _].
  - reflexivity.
  - reflexivity.
  - apply H; vm_compute; reflexivity.
Defined.

(** The scenario as the specification tells it does not happen: the
    pass of 2025-01-09 has no event, and the pass of 2025-01-08 has
    one, due on 2025-01-09 and not on 2025-01-10. *)
Lemma bella_scenario_as_specified_fails :
  dueEvents (trace (sendVaccinationReminders JsDate.utcHost bellaStore
                      allDelivered rabiesOnly (nineOClock "2025-01-09")))
  = [] /\
  dueEvents (trace (sendVaccinationReminders JsDate.utcHost bellaStore
                      allDelivered rabiesOnly (nineOClock "2025-01-08")))
  = [ bellaDue ] /\
  due_date bellaDue <> "2025-01-10".
Proof. split; [|split]; [vm_compute; reflexivity..|discriminate]. Qed.

Lemma no_event_outside_table_witness :
  (forall T, typeKey T ∉ normalizedIntervals.*1 ->
             due_key bellaDue <> typeKey T /\
             vaccineType (due_latest bellaDue) <> Some T) /\
  (forall pet k, entriesForType pet k = [] ->
                 ~ (due_pet bellaDue = pet /\ due_key bellaDue = k)).
Proof.
  apply (no_event_outside_table JsDate.utcHost bellaStore allDelivered
           normalizedIntervals (nineOClock "2025-01-08") bellaDue).
  vm_compute. apply list_elem_of_here.
Defined.

(** C4.  Luna has two Rabies doses, one without a readable date and one
    of 2024-01-10.  With the dated dose first the pass of 2025-01-08
    selects it and Luna is due; with the undated dose first the
    reduction never leaves it (a comparison with an invalid date is
    false), and the pair is skipped although a dated dose exists. *)
Theorem undated_first_dose_hides_the_dated_one :
  dueEvents (trace (sendVaccinationReminders JsDate.utcHost
                      (lunaStore [ Some rabiesDose; Some undatedDose ])
                      allDelivered normalizedIntervals
                      (nineOClock "2025-01-08")))
  = [ {| due_pet := luna [ Some rabiesDose; Some undatedDose ];
         due_key := "rabies"; due_latest := rabiesDose;
         due_date := "2025-01-09" |} ] /\
  dueEvents (trace (sendVaccinationReminders JsDate.utcHost
                      (lunaStore [ Some undatedDose; Some rabiesDose ])
                      allDelivered normalizedIntervals
                      (nineOClock "2025-01-08")))
  = [] /\
  fold_left (later JsDate.utcHost) [ undatedDose; rabiesDose ] undatedDose
  = undatedDose.
Proof. split; [|split]; vm_compute; reflexivity. Qed.

(** C9.  In a pass over pets with pairwise different identifiers, the
    loops visit no pair of a pet and a key of the table twice (the keys
    of a normalised table are pairwise different), so no two events
    stand for the same pet and key; and the mails of the pass are, in
    order, among the reminders its events call for: for each event at
    most one to the adopter's address and at most one to the buyer's. *)
Theorem each_pair_at_most_once host db delivers table now :
  NoDup (_id <$> petCollection db) ->
  let tr := trace (sendVaccinationReminders host db delivers
                     (normalizeIntervals table) now) in
  NoDup (pet ← petsWithVaccinations db;
         entry ← normalizeIntervals table;
         [ (_id pet, entry.1) ]) /\
  NoDup (pairOf <$> dueEvents tr) /\
  mailsSent tr `sublist_of`
    (ev ← dueEvents tr;
     option_list (adopterReminder host db ev)
     ++ option_list (buyerReminder host db ev)).
Proof.
  intros Hids tr. split; [|split].
  - by apply pairs_NoDup, normalizeIntervals_NoDup.
  - destruct (pass_dueEvents host db delivers (normalizeIntervals table) now)
      as [[k Hk] _].
    fold tr in Hk.
    pose proof (allDue_NoDup host (normalizeIntervals table) db now Hids
                  (normalizeIntervals_NoDup table)) as Hnd.
    rewrite Hk, fmap_app in Hnd. by apply NoDup_app in Hnd as [? _].
  - apply (pass_mailsAccounted host db delivers (normalizeIntervals table) now).
Qed.

Lemma each_pair_at_most_once_witness :
  let tr := trace (sendVaccinationReminders JsDate.utcHost healthyStore
                     allDelivered (normalizeIntervals vaccineIntervals)
                     (nineOClock "2025-01-08")) in
  NoDup (pet ← petsWithVaccinations healthyStore;
         entry ← normalizeIntervals vaccineIntervals;
         [ (_id pet, entry.1) ]) /\
  NoDup (pairOf <$> dueEvents tr) /\
  mailsSent tr `sublist_of`
    (ev ← dueEvents tr;
     option_list (adopterReminder JsDate.utcHost healthyStore ev)
     ++ option_list (buyerReminder JsDate.utcHost healthyStore ev)).
Proof.
  apply (each_pair_at_most_once JsDate.utcHost healthyStore allDelivered
           vaccineIntervals (nineOClock "2025-01-08")).
  simpl. apply NoDup_cons. split; [|apply NoDup_singleton].
  intros H%list_elem_of_singleton. discriminate.
Defined.

Lemma notify_recipients_witness :
  mailsSent (trace (notify JsDate.utcHost bellaStore allDelivered bella
                      rabiesDose "2025-01-09"))
  = [ {| from := "pawpalace@example.com";
         to := "adopter@example.com";
         subject := "Vaccination Reminder for Bella";
         text := reminderText "Bella" "Rabies" "2025-01-09" |};
      {| from := "pawpalace@example.com";
         to := "buyer@example.com";
         subject := "Vaccination Reminder for Bella";
         text := reminderText "Bella" "Rabies" "2025-01-09" |} ] /\
  to <$> mailsSent (trace (notify JsDate.utcHost bellaStore allDelivered
                             bella rabiesDose "2025-01-09"))
  = [ "adopter@example.com"; "buyer@example.com" ].
Proof.
  destruct (notify_recipients JsDate.utcHost bellaStore allDelivered bella
              rabiesDose "2025-01-09") as (_ & H & _).
  - reflexivity.
  - reflexivity.
  - destruct (H bellaAdoption bellaPurchase "adopter@example.com"
                "buyer@example.com") as (_ & _ & Hm & Hto);
      first [ reflexivity | discriminate | idtac ].
    split; [exact Hm|exact Hto].
Defined.

(** ** Failures *)

(** C8.  What the code does about failures.  A pass never throws.  A
    transport that fails changes nothing but the line its callback
    writes: the pass reaches the same events, sends the same mails and
    has the same other effects whatever the transport does.  A query
    that the store rejects is caught by the one handler around the
    whole pass: after it the pass writes the handler's line and does
    nothing more. *)
Theorem failures_in_a_pass host db d1 d2 intervals now :
  let run1 := sendVaccinationReminders host db d1 intervals now in
  let run2 := sendVaccinationReminders host db d2 intervals now in
  result run1 = Ok tt /\
  withoutCallbackLines (trace run1) = withoutCallbackLines (trace run2) /\
  dueEvents (trace run1) = dueEvents (trace run2) /\
  mailsSent (trace run1) = mailsSent (trace run2) /\
  (forall pre e post,
      trace run1 = pre ++ e :: post -> rejected db e = true ->
      post = [ Log ErrorInSendingReminders ]).
Proof.
  intros run1 run2.
  destruct (pass_same host db d1 d2 intervals now) as [_ Hsame].
  fold run1 run2 in Hsame.
  split; [apply pass_result|]. split; [done|]. split; [|split].
  - by rewrite <- (dueEvents_without (trace run1)), Hsame, dueEvents_without.
  - by rewrite <- (mailsSent_without (trace run1)), Hsame, mailsSent_without.
  - apply pass_stops.
Qed.

Lemma failures_in_a_pass_witness :
  let run := sendVaccinationReminders JsDate.utcHost flakyStore allDelivered
               normalizedIntervals (nineOClock "2025-01-08") in
  result run = Ok tt /\
  drop 3 (trace run) = [ Log ErrorInSendingReminders ].
Proof.
  intros run.
  destruct (failures_in_a_pass JsDate.utcHost flakyStore allDelivered
              noneDelivered normalizedIntervals (nineOClock "2025-01-08"))
    as (H1 & _ & _ & _ & H5).
  split; [exact H1|].
  apply (H5 [ FindPets; Due bellaDue ] (FindAdoption (_id bella))).
  - vm_compute. reflexivity.
  - reflexivity.
Defined.

(** A rejected query is not confined to the pet it was made for: when
    the adoption query for Bella is rejected, the pass ends, and Milo,
    who is due on the same day, is never looked at and nobody gets a
    mail; with a store that answers, Milo is due and his buyer gets
    one. *)
Lemma rejected_query_ends_the_pass :
  let flaky := trace (sendVaccinationReminders JsDate.utcHost flakyStore
                        allDelivered normalizedIntervals
                        (nineOClock "2025-01-08")) in
  let healthy := trace (sendVaccinationReminders JsDate.utcHost healthyStore
                          allDelivered normalizedIntervals
                          (nineOClock "2025-01-08")) in
  dueEvents flaky = [ bellaDue ] /\
  mailsSent flaky = [] /\
  dueEvents healthy = [ bellaDue; miloDue ] /\
  to <$> mailsSent healthy
  = [ "adopter@example.com"; "buyer@example.com"; "milo.owner@example.com" ].
Proof. repeat split; vm_compute; reflexivity. Qed.

(* ===================================================================== *)
(** * Further properties of the code *)
(* ===================================================================== *)

(** ** The normaliser *)

(** X1.  On an array in which no vaccine type is blank (white space
    only), [dedupeVaccinationsArray] is idempotent: applied to its own
    result it returns that result. *)
Theorem dedupe_idempotent_without_blank_types (vaccinations : VaccinationArray) :
  (forall e t, Some e ∈ vaccinations -> vaccineType e = Some t ->
               JsString.allWhiteSpace t = true -> t = EmptyString) ->
  dedupeVaccinationsArray (asArray (dedupeVaccinationsArray vaccinations))
  = dedupeVaccinationsArray vaccinations.
Proof.
  intros H. apply dedupe_idempotent_nonblank.
  intros e t He Ht Htrim. apply (H e t He Ht).
  by apply JsStringFacts.trim_empty_iff.
Qed.

Lemma dedupe_idempotent_without_blank_types_witness :
  dedupeVaccinationsArray (asArray (dedupeVaccinationsArray submittedDoses))
  = dedupeVaccinationsArray submittedDoses.
Proof.
  apply dedupe_idempotent_without_blank_types.
  intros e t Hin Ht Hw. unfold submittedDoses in Hin.
  repeat (apply elem_of_cons in Hin as [Hin|Hin];
          [ first [ discriminate Hin
                  | injection Hin as ->; simpl in Ht; first
                      [ discriminate Ht
                      | injection Ht as <-; vm_compute in Hw;
                        discriminate Hw ] ] | ]).
  by apply elem_of_nil in Hin.
Defined.

(** X2.  The result of [dedupeVaccinationsArray] keeps the order of the
    input and invents nothing: it is a sublist of the input's elements
    that have a vaccine type, each with its type trimmed and its date
    as it was. *)
Theorem dedupe_keeps_order (vaccinations : VaccinationArray) :
  dedupeVaccinationsArray vaccinations
  `sublist_of` omap normalised vaccinations.
Proof. rewrite dedupe_unfold. apply dedupe_from_sublist. Qed.

(** ** The interval table *)

(** X3.  Looking a key up in a normalised table gives the value of the
    last entry of the original table whose key is that key when
    written in lower case, and nothing when there is no such entry:
    entries whose keys differ in case only collapse, the last one
    winning. *)
Theorem normalizeIntervals_lookup (table : Obj) (k : string) :
  obj_get (normalizeIntervals table) k = snd <$> last (entriesUnder k table).
Proof.
  unfold normalizeIntervals. rewrite normalizeIntervals_get_from.
  by destruct (last (entriesUnder k table)).
Qed.

(** X4.  When no two keys of a table agree in lower case, the
    normalised table has the same entries in the same order, with the
    keys in lower case.  This is the case of [vaccineIntervals]. *)
Theorem normalizeIntervals_without_collisions (table : Obj) :
  NoDup (JsString.toLowerCase <$> table.*1) ->
  normalizeIntervals table
  = (fun e => (JsString.toLowerCase e.1, e.2)) <$> table.
Proof.
  intros H. unfold normalizeIntervals.
  by rewrite normalizeIntervals_map_from.
Qed.

Lemma normalizeIntervals_without_collisions_witness :
  normalizedIntervals
  = (fun e => (JsString.toLowerCase e.1, e.2)) <$> vaccineIntervals.
Proof.
  apply normalizeIntervals_without_collisions.
  apply (bool_decide_unpack _). vm_compute. exact I.
Defined.

(** X5.  The keys of the table are put in lower case but not trimmed,
    while the type of a dose is trimmed: a key that begins or ends with
    white space matches no dose of any pet, and no pass has an event
    under it. *)
Theorem padded_key_never_matches host db delivers intervals now (k : string) :
  JsString.trim k <> k ->
  (forall pet, entriesForType pet k = []) /\
  (forall ev,
      ev ∈ dueEvents (trace (sendVaccinationReminders host db delivers
                               intervals now)) ->
      due_key ev <> k).
Proof.
  intros Hk.
  assert (Hnone : forall pet, entriesForType pet k = []).
  { intros pet. destruct (entriesForType pet k) as [|e l] eqn:E; [done|].
    assert (He : e ∈ entriesForType pet k) by (rewrite E; by left).
    apply entriesForType_elem in He as (_ & _ & _ & <-).
    destruct Hk. apply typeKey_trimmed. }
  split; [done|]. intros ev Hev Heq.
  destruct (pass_due_elem _ _ _ _ _ _ Hev)
    as (ts & das & entry & _ & _ & _ & Hd).
  apply dueCheck_Some in Hd as (_ & Hkey & Hin & _).
  rewrite <- Hkey, Heq, Hnone in Hin. by apply elem_of_nil in Hin.
Qed.

Lemma padded_key_never_matches_witness :
  (forall pet, entriesForType pet " rabies" = []) /\
  (forall ev,
      ev ∈ dueEvents (trace (sendVaccinationReminders JsDate.utcHost bellaStore
                               allDelivered
                               (normalizeIntervals [ (" Rabies", 365) ])
                               (nineOClock "2025-01-08"))) ->
      due_key ev <> " rabies").
Proof.
  apply (padded_key_never_matches JsDate.utcHost bellaStore allDelivered
           (normalizeIntervals [ (" Rabies", 365) ])
           (nineOClock "2025-01-08") " rabies").
  vm_compute. discriminate.
Defined.

(** ** The dose a pass looks at *)

(** X6.  When the date of the first matching dose parses, the reduction
    selects the first dose with the latest parsed date: every dose
    before it is strictly earlier or has a date that does not parse,
    every dose after it is not later. *)
Theorem latest_dose_is_first_maximum host (first : Vaccination)
    (rest : list Vaccination) t0 :
  JsDate.ofString host (date first) = Some t0 ->
  exists l1 latest l2 tl,
    fold_left (later host) (first :: rest) first = latest /\
    first :: rest = l1 ++ latest :: l2 /\
    JsDate.ofString host (date latest) = Some tl /\
    Forall (earlierThan host tl) l1 /\
    Forall (notLaterThan host tl) l2.
Proof. apply latest_first_max. Qed.

Lemma latest_dose_is_first_maximum_witness :
  exists l1 latest l2 tl,
    fold_left (later JsDate.utcHost) [ rexDose1; rexDose2; rexDose3 ] rexDose1
    = latest /\
    [ rexDose1; rexDose2; rexDose3 ] = l1 ++ latest :: l2 /\
    JsDate.ofString JsDate.utcHost (date latest) = Some tl /\
    Forall (earlierThan JsDate.utcHost tl) l1 /\
    Forall (notLaterThan JsDate.utcHost tl) l2.
Proof.
  apply (latest_dose_is_first_maximum JsDate.utcHost rexDose1
           [ rexDose2; rexDose3 ] (midnight "2023-06-01")).
  vm_compute. reflexivity.
Defined.

(** X7.  When the date of the first matching dose of a pet for a key
    does not parse, no pass has an event for that pet and key, whatever
    the other doses are. *)
Theorem unparsable_first_dose_blocks_pair host db delivers intervals now
    pet k (first : Vaccination) (rest : list Vaccination) :
  entriesForType pet k = first :: rest ->
  JsDate.ofString host (date first) = None ->
  filter (forPair pet k)
    (dueEvents (trace (sendVaccinationReminders host db delivers intervals
                         now)))
  = [].
Proof.
  intros He Hf.
  match goal with |- ?l = [] => destruct l as [|ev l'] eqn:El; [done|] end.
  assert (Hin : ev ∈ ev :: l') by by left.
  rewrite <- El in Hin. apply list_elem_of_filter in Hin as [[Hp Hk] Hev].
  destruct (pass_due_elem _ _ _ _ _ _ Hev)
    as (ts & das & entry & _ & _ & _ & Hd).
  destruct (dueCheck_Some _ _ _ _ _ _ Hd)
    as (_ & Hkey & _ & t & _ & Ht & _).
  destruct (dueCheck_latest _ _ _ _ _ _ Hd) as (f & r & Hents & Hl).
  rewrite Hp, <- Hkey, Hk, He in Hents. injection Hents as <- <-.
  rewrite latest_stuck in Hl by done.
  rewrite Hl, Hf in Ht. discriminate.
Qed.

Lemma unparsable_first_dose_blocks_pair_witness :
  filter (forPair (luna [ Some undatedDose; Some rabiesDose ]) "rabies")
    (dueEvents (trace (sendVaccinationReminders JsDate.utcHost
                         (lunaStore [ Some undatedDose; Some rabiesDose ])
                         allDelivered rabiesOnly
                         (nineOClock "2025-01-08"))))
  = [].
Proof.
  apply (unparsable_first_dose_blocks_pair JsDate.utcHost
           (lunaStore [ Some undatedDose; Some rabiesDose ])
           allDelivered rabiesOnly (nineOClock "2025-01-08")
           (luna [ Some undatedDose; Some rabiesDose ]) "rabies"
           undatedDose [ rabiesDose ]).
  - vm_compute. reflexivity.
  - vm_compute. reflexivity.
Defined.

(** X8.  A pet with any number of doses of a type of the table, the
    first of which has a date that parses: the pass looks at one dose
    only, one with the latest parsed date, and has an event for the pet
    and the type exactly when the day that dose was given plus the
    interval is the day after the start of the pass (dates in the years
    0000 to 9999, the pass not cut short by an error). *)
Theorem latest_dose_due_window host db delivers intervals now pet k n
    (first : Vaccination) (rest : list Vaccination) t0 :
  NoDup (petCollection db) -> pet ∈ petCollection db ->
  NoDup intervals.*1 -> (k, n) ∈ intervals ->
  entriesForType pet k = first :: rest ->
  JsDate.ofString host (date first) = Some t0 ->
  JsDate.fourDigitYear now ->
  JsDate.fourDigitYear (now + 2 * JsDate.msPerDay) ->
  exists latest tl,
    latest ∈ first :: rest /\
    JsDate.ofString host (date latest) = Some tl /\
    (forall e t, e ∈ first :: rest ->
                 JsDate.ofString host (date e) = Some t -> t <= tl) /\
    (JsDate.fourDigitYear (tl + n * JsDate.msPerDay) ->
     let tr := trace (sendVaccinationReminders host db delivers intervals
                        now) in
     let events := filter (forPair pet k) (dueEvents tr) in
     let expected :=
       if bool_decide (JsDate.Day tl + n = JsDate.Day now + 1)
       then [ dueEventOf pet k latest (tl + n * JsDate.msPerDay) ]
       else [] in
     events `prefix_of` expected /\ (erred tr = false -> events = expected)).
Proof.
  intros Hpets Hpet Hkeys Hentry Hents H0 Hn H2.
  destruct (latest_first_max host first rest t0 H0)
    as (l1 & latest & l2 & tl & Hl & Hsplit & Htl & Hb & Ha).
  exists latest, tl. split; [|split; [done|split]].
  - rewrite Hsplit. apply elem_of_app. right. by left.
  - intros e t He Ht. rewrite Hsplit in He.
    apply elem_of_app in He as [He|He].
    + rewrite Forall_forall in Hb. specialize (Hb e He).
      unfold earlierThan in Hb. rewrite Ht in Hb. lia.
    + apply elem_of_cons in He as [->|He].
      * rewrite Htl in Ht. injection Ht as ->. lia.
      * rewrite Forall_forall in Ha. specialize (Ha e He).
        unfold notLaterThan in Ha. by rewrite Ht in Ha.
  - intros Hd. rewrite <- Hl.
    apply (pair_events host db delivers intervals now pet k n first rest tl);
      try done.
    by rewrite Hl.
Qed.

Lemma latest_dose_due_window_witness :
  exists latest tl,
    latest ∈ [ rexDose1; rexDose2; rexDose3 ] /\
    JsDate.ofString JsDate.utcHost (date latest) = Some tl /\
    (forall e t, e ∈ [ rexDose1; rexDose2; rexDose3 ] ->
                 JsDate.ofString JsDate.utcHost (date e) = Some t -> t <= tl) /\
    (JsDate.fourDigitYear (tl + 365 * JsDate.msPerDay) ->
     let tr := trace (sendVaccinationReminders JsDate.utcHost rexStore
                        allDelivered rabiesOnly (nineOClock "2025-01-08")) in
     let events := filter (forPair rex "rabies") (dueEvents tr) in
     let expected :=
       if bool_decide (JsDate.Day tl + 365
                       = JsDate.Day (nineOClock "2025-01-08") + 1)
       then [ dueEventOf rex "rabies" latest (tl + 365 * JsDate.msPerDay) ]
       else [] in
     events `prefix_of` expected /\ (erred tr = false -> events = expected)).
Proof.
  apply (latest_dose_due_window JsDate.utcHost rexStore allDelivered
           rabiesOnly (nineOClock "2025-01-08") rex "rabies" 365
           rexDose1 [ rexDose2; rexDose3 ] (midnight "2023-06-01")).
  - apply NoDup_singleton.
  - apply list_elem_of_here.
  - rewrite rabiesOnly_eq. apply NoDup_singleton.
  - rewrite rabiesOnly_eq. apply list_elem_of_here.
  - vm_compute. reflexivity.
  - vm_compute. reflexivity.
  - vm_compute. split; discriminate.
  - vm_compute. split; discriminate.
Defined.

(** ** The window of a pass *)

(** X9.  The window of a pass holds one day: every event of a pass
    that starts in the years 0000 to 9999 carries the date string of
    the day after the start of the pass. *)
Theorem due_date_is_tomorrow host db delivers intervals now :
  JsDate.fourDigitYear now ->
  JsDate.fourDigitYear (now + 2 * JsDate.msPerDay) ->
  Forall (fun ev => due_date ev = JsDate.isoDate (now + 1 * JsDate.msPerDay))
    (dueEvents (trace (sendVaccinationReminders host db delivers intervals
                         now))).
Proof.
  intros H0 H2. apply Forall_forall. intros ev Hev.
  destruct (pass_due_elem _ _ _ _ _ _ Hev)
    as (ts & das & entry & Hw & _ & _ & Hd).
  rewrite (window_fourDigit now H2 H0) in Hw. injection Hw as <- <-.
  destruct (dueCheck_Some _ _ _ _ _ _ Hd)
    as (_ & _ & _ & t & d & _ & _ & -> & Hle & Hlt).
  by apply window_is_tomorrow.
Qed.

Lemma due_date_is_tomorrow_witness :
  Forall (fun ev => due_date ev
                    = JsDate.isoDate (nineOClock "2025-01-08"
                                      + 1 * JsDate.msPerDay))
    (dueEvents (trace (sendVaccinationReminders JsDate.utcHost
                         healthyStore allDelivered normalizedIntervals
                         (nineOClock "2025-01-08")))).
Proof.
  apply (due_date_is_tomorrow JsDate.utcHost healthyStore allDelivered
           normalizedIntervals (nineOClock "2025-01-08")).
  - vm_compute. split; discriminate.
  - vm_compute. split; discriminate.
Defined.

(** X10.  Two hosts that differ in their (constant) offset of local
    time only, [Date.parse] answering the same on both, make the same
    pass: [setDate] and [getDate] work on local time, but moving the
    date of the month by a number of days moves the time value by that
    number of days under any such offset, and every string the pass
    compares comes from [toISOString], which is in UTC.  The offset can
    reach a pass through [Date.parse] only. *)
Theorem pass_ignores_local_offset tz1 tz2 parse user db delivers intervals now :
  sendVaccinationReminders (JsDate.mkHost tz1 parse user) db delivers
    intervals now
  = sendVaccinationReminders (JsDate.mkHost tz2 parse user) db delivers
      intervals now.
Proof. apply pass_offset. Qed.

(** X11.  Two passes that start on the same UTC day (in the years 0000
    to 9999) do the same: the hour at which the job runs has no
    influence on the events, the queries, the mails or the log. *)
Theorem same_day_same_pass host db delivers intervals now1 now2 :
  JsDate.fourDigitYear now1 ->
  JsDate.fourDigitYear (now1 + 2 * JsDate.msPerDay) ->
  JsDate.Day now1 = JsDate.Day now2 ->
  sendVaccinationReminders host db delivers intervals now1
  = sendVaccinationReminders host db delivers intervals now2.
Proof.
  intros H0 H2 Hday.
  assert (H0' : JsDate.fourDigitYear now2).
  { revert H0. rewrite !JsDateFacts.fourDigitYear_iff. by rewrite Hday. }
  assert (H2' : JsDate.fourDigitYear (now2 + 2 * JsDate.msPerDay)).
  { revert H2. rewrite !JsDateFacts.fourDigitYear_iff,
      !JsDateFacts.Day_add_days. by rewrite Hday. }
  rewrite !pass_unfold.
  rewrite (window_fourDigit now1 H2 H0), (window_fourDigit now2 H2' H0').
  rewrite (isoDate_same_Day (now1 + 1 * JsDate.msPerDay)
             (now2 + 1 * JsDate.msPerDay)),
          (isoDate_same_Day (now1 + 2 * JsDate.msPerDay)
             (now2 + 2 * JsDate.msPerDay)); [done| |].
  - rewrite !JsDateFacts.Day_add_days. by rewrite Hday.
  - rewrite !JsDateFacts.Day_add_days. by rewrite Hday.
Qed.

Lemma same_day_same_pass_witness :
  sendVaccinationReminders JsDate.utcHost healthyStore allDelivered
    normalizedIntervals (midnight "2025-01-08")
  = sendVaccinationReminders JsDate.utcHost healthyStore allDelivered
      normalizedIntervals (nineOClock "2025-01-08").
Proof.
  apply (same_day_same_pass JsDate.utcHost healthyStore allDelivered
           normalizedIntervals (midnight "2025-01-08")
           (nineOClock "2025-01-08")).
  - vm_compute. split; discriminate.
  - vm_compute. split; discriminate.
  - vm_compute. reflexivity.
Defined.

(** ** The queries of a pass *)

(** X12.  A pass asks the adoption collection once per event, in the
    order of the events and for the pet of the event, and never for a
    pet and type that are not due; the queries of the purchases
    collection are a sublist of those of the adoption collection (a
    rejected adoption query leaves the purchase query of its event
    out). *)
Theorem queries_only_when_due host db delivers intervals now :
  let tr := trace (sendVaccinationReminders host db delivers intervals now) in
  adoptionQueries tr = (fun ev => _id (due_pet ev)) <$> dueEvents tr /\
  purchaseQueries tr `sublist_of` adoptionQueries tr.
Proof. apply pass_queries. Qed.

(** ** Arrays written through the normaliser *)

(** X13.  For a pet whose array is a result of
    [dedupeVaccinationsArray], as every route that writes the field
    stores it, the pass finds at most one dose per key: the first
    submitted element filed under the key, with its type trimmed,
    when that type is not empty and it has a date.  The date of a later
    duplicate is never looked at. *)
Theorem stored_doses_one_per_key (doses : VaccinationArray) pet k :
  vaccinations pet = Some (asArray (dedupeVaccinationsArray doses)) ->
  entriesForType pet k
  = match List.find (hasInKey k) doses with
    | Some v =>
        if JsString.truthy (vaccineType (kept v))
           && JsString.truthy (date (kept v))
        then [ kept v ] else []
    | None => []
    end.
Proof. apply entriesForType_deduped. Qed.

Lemma stored_doses_one_per_key_witness :
  entriesForType (storedPet submittedDoses) "rabies"
  = match List.find (hasInKey "rabies") submittedDoses with
    | Some v =>
        if JsString.truthy (vaccineType (kept v))
           && JsString.truthy (date (kept v))
        then [ kept v ] else []
    | None => []
    end.
Proof.
  apply (stored_doses_one_per_key submittedDoses (storedPet submittedDoses)
           "rabies").
  reflexivity.
Defined.

(** ** A due date out of range *)

(** X14.  When the dose selected for a pet and a type of the table has
    a date so late that the date plus the interval is beyond the range
    of time values, [setDate] leaves an invalid date, [toISOString]
    throws, and the handler around the pass logs the error: the pass is
    one that an error ended. *)
Theorem due_date_out_of_range_ends_pass host db delivers intervals now
    pet k n (first : Vaccination) (rest : list Vaccination) t :
  pet ∈ petCollection db -> (k, n) ∈ intervals ->
  entriesForType pet k = first :: rest ->
  JsDate.ofString host
    (date (fold_left (later host) (first :: rest) first)) = Some t ->
  JsDate.TimeClip (t + n * JsDate.msPerDay) = None ->
  erred (trace (sendVaccinationReminders host db delivers intervals now))
  = true.
Proof. apply pass_overflow. Qed.

Lemma due_date_out_of_range_ends_pass_witness :
  erred (trace (sendVaccinationReminders farHost farStore allDelivered
                  rabiesOnly (nineOClock "2025-01-08")))
  = true.
Proof.
  apply (due_date_out_of_range_ends_pass farHost farStore allDelivered
           rabiesOnly (nineOClock "2025-01-08") farPet "rabies" 365
           farDose [] 8640000000000000).
  - apply list_elem_of_here.
  - rewrite rabiesOnly_eq. apply list_elem_of_here.
  - vm_compute. reflexivity.
  - vm_compute. reflexivity.
  - vm_compute. reflexivity.
Defined.

(** ** The callers of the pass *)

(** X15.  The pass catches its own errors, so none of its callers ever
    sees one: the run at startup always writes that the check
    completed, the scheduled run never writes an error, and the manual
    route always answers 200 with [success: true], also when the pass
    was ended by an error. *)
Theorem callers_never_see_a_failed_pass host db delivers intervals message now :
  callerLines (atStartup host db delivers intervals now)
  = [ InitialCheckCompleted ] /\
  callerLines (scheduled host db delivers intervals now)
  = [ ScheduledRunning now ] /\
  answer (get_test_send_vaccination_reminders host db delivers intervals
            message now)
  = Some (mkResponse 200
            [ ("success", JBool true);
              ("message",
               JStr "Vaccination reminder task executed (manual run).") ]).
Proof. apply callers_of_pass. Qed.

(** ** The gates *)

(** X16.  [verifyToken] takes as token what stands between the first
    and the second space of the header: the word before the first space
    is not looked at (it need not be Bearer), nor is anything after the
    second space. *)
Theorem verifyToken_reads_second_word jwt_verify scheme token rest :
  without " " scheme = true -> without " " token = true ->
  rest = EmptyString \/ (exists r, rest = String " " r) ->
  verifyToken jwt_verify
    (Some (String.append scheme (String " " (String.append token rest))))
  = match jwt_verify (Some token) with
    | Some decoded => Next decoded
    | None => Refused unauthorized
    end.
Proof. apply verifyToken_second. Qed.

Lemma verifyToken_reads_second_word_witness :
  verifyToken demoVerify
    (Some (String.append "Basic"
             (String " " (String.append "admin.token" " and more"))))
  = match demoVerify (Some "admin.token") with
    | Some decoded => Next decoded
    | None => Refused unauthorized
    end.
Proof.
  apply (verifyToken_reads_second_word demoVerify "Basic" "admin.token"
           " and more").
  - reflexivity.
  - reflexivity.
  - right. by exists "and more".
Defined.

(** ** PATCH /pet/:id/vaccinations *)



(** X18.  When the route answers 200, every pet document of the store
    is one that was there before or carries the identifier of the
    request and an array in which the pass finds at most one dose per
    key: the first element of the body filed under the key, with its
    type trimmed. *)
Theorem patched_doses_one_per_key ObjectId_ jwt_verify db authorization id
    vaccinations db' r :
  patch_pet_vaccinations ObjectId_ jwt_verify db authorization id vaccinations
  = (db', Answered r) ->
  statusCode r = 200 ->
  exists doses oid,
    vaccinations = Some doses /\ ObjectId_ id = Some oid /\
    forall p', p' ∈ petDocuments db' ->
      p' ∈ petDocuments db \/
      (_id (petOf p') = oid /\
       forall k,
         entriesForType (petOf p') k
         = match List.find (hasInKey k) doses with
           | Some v =>
               if JsString.truthy (vaccineType (kept v))
                  && JsString.truthy (date (kept v))
               then [ kept v ] else []
           | None => []
           end).
Proof. apply patch_200. Qed.

Lemma patched_doses_one_per_key_witness :
  exists doses oid,
    Some submittedDoses = Some doses /\
    hexObjectId "665f1c2e9b1d8a0012ab34cd" = Some oid /\
    forall p',
      p' ∈ petDocuments
             (patch_pet_vaccinations hexObjectId demoVerify shelter
                (Some "Bearer admin.token") "665f1c2e9b1d8a0012ab34cd"
                (Some submittedDoses)).1 ->
      p' ∈ petDocuments shelter \/
      (_id (petOf p') = oid /\
       forall k,
         entriesForType (petOf p') k
         = match List.find (hasInKey k) doses with
           | Some v =>
               if JsString.truthy (vaccineType (kept v))
                  && JsString.truthy (date (kept v))
               then [ kept v ] else []
           | None => []
           end).
Proof.
  apply (patched_doses_one_per_key hexObjectId demoVerify shelter
           (Some "Bearer admin.token") "665f1c2e9b1d8a0012ab34cd"
           (Some submittedDoses) _
           (mkResponse 200 (sendUpdateResult (mkUpdateResult 1 1)))).
  - vm_compute. reflexivity.
  - reflexivity.
Defined.

(** ** PUT /adoption/accept/:id *)

(** X19.  When the route answers 200 (request identifiers pairwise
    different): the request of the route is accepted, every other
    request with the same [petId] string is closed and the remaining
    requests are as they were; the pet whose identifier the
    constructor makes of that string is marked as adopted; and when the
    string is that identifier as [toString] writes it, the query of the
    reminder pass for the accepted adoption of that pet, which asks by
    [pet._id.toString()], finds the request of the route. *)
Theorem accept_settles_the_requests ObjectId_ invalidIdMessage rejects now db
    id db' r :
  NoDup (request_id <$> adoptionDocuments db) ->
  put_adoption_accept ObjectId_ invalidIdMessage rejects now db id = (db', r) ->
  statusCode r = 200 ->
  exists oid requestDoc petOid p',
    ObjectId_ id = Some oid /\
    List.find (hasRequestId oid) (adoptionDocuments db) = Some requestDoc /\
    ObjectId_ (adoption_petId (requestOf requestDoc)) = Some petOid /\
    adoptionDocuments db'
    = settled now oid (adoption_petId (requestOf requestDoc))
        <$> adoptionDocuments db /\
    List.find (hasPetId petOid) (petDocuments db') = Some p' /\
    _id (petOf p') = petOid /\
    pet_adopted p' = true /\
    (adoption_petId (requestOf requestDoc) = petOid ->
     forall store,
       adoptionCollection store = requestOf <$> adoptionDocuments db' ->
       acceptedAdoptionOf store (_id (petOf p'))
       = Some (requestOf (accepted now requestDoc))).
Proof.
  intros Hnd Hrun H200.
  destruct (accept_200 _ _ _ _ _ _ _ _ Hnd Hrun H200)
    as (oid & requestDoc & petOid & p & Eoid & Ef & Epet & Efp & Hp & Hid
        & Hu & Hdocs & Hpets).
  destruct (updateOne_found (hasPetId petOid) adopted _ p Efp)
    as (l1 & l2 & _ & Hl1 & Hm & Hupd).
  assert (Hpid : _id (petOf (adopted p)) = petOid).
  { unfold hasPetId in Hm. by apply String.eqb_eq in Hm. }
  exists oid, requestDoc, petOid, (adopted p).
  split; [done|]. split; [done|]. split; [done|]. split; [done|].
  split; [|split; [done|split; [done|]]].
  - rewrite Hpets, Hupd. by apply find_first.
  - intros Hcanon store Hstore. unfold acceptedAdoptionOf.
    rewrite Hstore, Hdocs, Hpid, <- Hcanon. by apply accepted_is_found.
Qed.

Lemma accept_settles_the_requests_witness :
  exists oid requestDoc petOid p',
    hexObjectId "665F1C2E9B1D8A0012AB3501" = Some oid /\
    List.find (hasRequestId oid) (adoptionDocuments shelter)
    = Some requestDoc /\
    hexObjectId (adoption_petId (requestOf requestDoc)) = Some petOid /\
    adoptionDocuments
      (put_adoption_accept hexObjectId "invalid id" noOutage
         (nineOClock "2025-01-08") shelter "665F1C2E9B1D8A0012AB3501").1
    = settled (nineOClock "2025-01-08") oid
        (adoption_petId (requestOf requestDoc))
        <$> adoptionDocuments shelter /\
    List.find (hasPetId petOid)
      (petDocuments
         (put_adoption_accept hexObjectId "invalid id" noOutage
            (nineOClock "2025-01-08") shelter
            "665F1C2E9B1D8A0012AB3501").1) = Some p' /\
    _id (petOf p') = petOid /\
    pet_adopted p' = true /\
    (adoption_petId (requestOf requestDoc) = petOid ->
     forall store,
       adoptionCollection store
       = requestOf <$>
           adoptionDocuments
             (put_adoption_accept hexObjectId "invalid id" noOutage
                (nineOClock "2025-01-08") shelter
                "665F1C2E9B1D8A0012AB3501").1 ->
       acceptedAdoptionOf store (_id (petOf p'))
       = Some (requestOf (accepted (nineOClock "2025-01-08") requestDoc))).
Proof.
  apply (accept_settles_the_requests hexObjectId "invalid id" noOutage
           (nineOClock "2025-01-08") shelter "665F1C2E9B1D8A0012AB3501" _
           (put_adoption_accept hexObjectId "invalid id" noOutage
              (nineOClock "2025-01-08") shelter
              "665F1C2E9B1D8A0012AB3501").2).
  - apply NoDup_cons. split; [|apply NoDup_singleton].
    intros H%list_elem_of_singleton. discriminate H.
  - apply surjective_pairing.
  - vm_compute. reflexivity.
Defined.

(** X20.  The route is not atomic.  When the pet of a request is
    already marked as adopted, or there is no pet with that identifier,
    the route answers 500, Failed to mark pet as adopted, after it has
    accepted the request: the request stays accepted, and the other
    requests for the pet are not closed. *)
Theorem accept_fails_after_accepting ObjectId_ invalidIdMessage rejects now db
    id oid requestDoc petOid :
  NoDup (request_id <$> adoptionDocuments db) ->
  ObjectId_ id = Some oid ->
  List.find (hasRequestId oid) (adoptionDocuments db) = Some requestDoc ->
  adoption_petId (requestOf requestDoc) <> EmptyString ->
  ObjectId_ (adoption_petId (requestOf requestDoc)) = Some petOid ->
  accepted now requestDoc <> requestDoc ->
  (forall p, List.find (hasPetId petOid) (petDocuments db) = Some p ->
             pet_adopted p = true) ->
  rejects FindRequest = None -> rejects AcceptRequest = None ->
  rejects AdoptPet = None ->
  put_adoption_accept ObjectId_ invalidIdMessage rejects now db id
  = (withRequests db
       ((fun d => if hasRequestId oid d then accepted now d else d)
          <$> adoptionDocuments db),
     failure 500 "Failed to mark pet as adopted").
Proof. apply accept_pet_unmodified. Qed.

Lemma accept_fails_after_accepting_witness :
  put_adoption_accept hexObjectId "invalid id" noOutage
    (nineOClock "2025-01-08") shelterWithBellaAdopted
    "665f1c2e9b1d8a0012ab3501"
  = (withRequests shelterWithBellaAdopted
       ((fun d => if hasRequestId "665f1c2e9b1d8a0012ab3501" d
                  then accepted (nineOClock "2025-01-08") d else d)
          <$> adoptionDocuments shelterWithBellaAdopted),
     failure 500 "Failed to mark pet as adopted").
Proof.
  apply (accept_fails_after_accepting hexObjectId "invalid id" noOutage
           (nineOClock "2025-01-08") shelterWithBellaAdopted
           "665f1c2e9b1d8a0012ab3501" "665f1c2e9b1d8a0012ab3501"
           firstRequest "665f1c2e9b1d8a0012ab34cd").
  - apply NoDup_cons. split; [|apply NoDup_singleton].
    intros H%list_elem_of_singleton. discriminate H.
  - vm_compute. reflexivity.
  - vm_compute. reflexivity.
  - discriminate.
  - vm_compute. reflexivity.
  - discriminate.
  - vm_compute. intros p [= <-]. reflexivity.
  - reflexivity.
  - reflexivity.
  - reflexivity.
Defined.

(** X21.  After a request for a pet has been accepted with answer 200,
    the route run on another request for the same pet answers 500,
    Failed to mark pet as adopted, and leaves both requests accepted:
    the store then holds two accepted adoptions of the pet. *)
Theorem second_accept_leaves_two_accepted ObjectId_ invalidIdMessage rejects
    now1 now2 db idA idB oidA oidB reqA reqB db1 r1 :
  NoDup (request_id <$> adoptionDocuments db) ->
  ObjectId_ idA = Some oidA -> ObjectId_ idB = Some oidB -> oidA <> oidB ->
  List.find (hasRequestId oidA) (adoptionDocuments db) = Some reqA ->
  List.find (hasRequestId oidB) (adoptionDocuments db) = Some reqB ->
  adoption_petId (requestOf reqA) = adoption_petId (requestOf reqB) ->
  put_adoption_accept ObjectId_ invalidIdMessage rejects now1 db idA
  = (db1, r1) ->
  statusCode r1 = 200 ->
  exists db2,
    put_adoption_accept ObjectId_ invalidIdMessage (fun _ => None) now2 db1 idB
    = (db2, failure 500 "Failed to mark pet as adopted") /\
    List.find (hasRequestId oidA) (adoptionDocuments db2)
    = Some (accepted now1 reqA) /\
    List.find (hasRequestId oidB) (adoptionDocuments db2)
    = Some (accepted now2 (closed reqB)).
Proof. apply second_accept. Qed.

Lemma second_accept_leaves_two_accepted_witness :
  exists db2,
    put_adoption_accept hexObjectId "invalid id" (fun _ => None)
      (nineOClock "2025-01-09")
      (put_adoption_accept hexObjectId "invalid id" noOutage
         (nineOClock "2025-01-08") shelter "665f1c2e9b1d8a0012ab3501").1
      "665f1c2e9b1d8a0012ab3502"
    = (db2, failure 500 "Failed to mark pet as adopted") /\
    List.find (hasRequestId "665f1c2e9b1d8a0012ab3501")
      (adoptionDocuments db2)
    = Some (accepted (nineOClock "2025-01-08") firstRequest) /\
    List.find (hasRequestId "665f1c2e9b1d8a0012ab3502")
      (adoptionDocuments db2)
    = Some (accepted (nineOClock "2025-01-09") (closed secondRequest)).
Proof.
  apply (second_accept_leaves_two_accepted hexObjectId "invalid id" noOutage
           (nineOClock "2025-01-08") (nineOClock "2025-01-09") shelter
           "665f1c2e9b1d8a0012ab3501" "665f1c2e9b1d8a0012ab3502"
           "665f1c2e9b1d8a0012ab3501" "665f1c2e9b1d8a0012ab3502"
           firstRequest secondRequest _
           (put_adoption_accept hexObjectId "invalid id" noOutage
              (nineOClock "2025-01-08") shelter
              "665f1c2e9b1d8a0012ab3501").2).
  - apply NoDup_cons. split; [|apply NoDup_singleton].
    intros H%list_elem_of_singleton. discriminate H.
  - vm_compute. reflexivity.
  - vm_compute. reflexivity.
  - discriminate.
  - vm_compute. reflexivity.
  - vm_compute. reflexivity.
  - reflexivity.
  - apply surjective_pairing.
  - vm_compute. reflexivity.
Defined.

(** ** POST /users *)

(** X22.  The route keeps the emails of the users pairwise different
    (requests taken one after the other): it inserts nothing under an
    email that a user has already, a missing email included. *)
Theorem post_users_keeps_emails_distinct insertedId db user :
  NoDup (user_email <$> userCollection db) ->
  NoDup (user_email <$> userCollection (post_users insertedId db user).1).
Proof. apply post_users_NoDup. Qed.

Lemma post_users_keeps_emails_distinct_witness :
  NoDup (user_email <$>
           userCollection
             (post_users "665f1c2e9b1d8a0012ab3600" shelter
                (mkUser (Some "eve@example.com") (Some "admin"))).1).
Proof.
  apply (post_users_keeps_emails_distinct "665f1c2e9b1d8a0012ab3600" shelter
           (mkUser (Some "eve@example.com") (Some "admin"))).
  apply NoDup_cons. split; [|apply NoDup_singleton].
  intros H%list_elem_of_singleton. discriminate H.
Defined.

(** X23.  The route stores the role as the body gives it: after a
    request with an email that no user has, [verifyAdmin] lets a token
    with that email pass exactly when the body said role admin; what
    [verifyAdmin] answers to the other emails is not changed. *)
Theorem post_users_stores_role_as_sent insertedId db user :
  userOf (userCollection db) (user_email user) = None ->
  (verifyAdmin (userCollection (post_users insertedId db user).1)
     (mkClaims (user_email user)) = Next tt
   <-> role user = Some "admin") /\
  (forall decoded,
      claims_email decoded <> user_email user ->
      verifyAdmin (userCollection (post_users insertedId db user).1) decoded
      = verifyAdmin (userCollection db) decoded).
Proof. apply post_users_admin. Qed.

Lemma post_users_stores_role_as_sent_witness :
  (verifyAdmin
     (userCollection
        (post_users "665f1c2e9b1d8a0012ab3600" shelter
           (mkUser (Some "eve@example.com") (Some "admin"))).1)
     (mkClaims (user_email (mkUser (Some "eve@example.com") (Some "admin"))))
   = Next tt
   <-> role (mkUser (Some "eve@example.com") (Some "admin")) = Some "admin") /\
  (forall decoded,
      claims_email decoded
      <> user_email (mkUser (Some "eve@example.com") (Some "admin")) ->
      verifyAdmin
        (userCollection
           (post_users "665f1c2e9b1d8a0012ab3600" shelter
              (mkUser (Some "eve@example.com") (Some "admin"))).1) decoded
      = verifyAdmin (userCollection shelter) decoded).
Proof.
  apply (post_users_stores_role_as_sent "665f1c2e9b1d8a0012ab3600" shelter
           (mkUser (Some "eve@example.com") (Some "admin"))).
  vm_compute. reflexivity.
Defined.

(** ** POST /purchases *)

(** X24.  The route saves a purchase without looking for an earlier
    one of the same pet, and the reminder pass asks for one purchase of
    a pet, the first: once a pet has a purchase, the buyer the pass
    writes to stays the same whatever purchases the route saves
    later. *)
Theorem reminders_stay_with_first_buyer ObjectId_ invalidIdMessage rejects
    insertedId db purchase store store' petId first :
  purchasesCollection store = purchaseDocuments db ->
  purchasesCollection store'
  = purchaseDocuments
      (post_purchases ObjectId_ invalidIdMessage rejects insertedId db
         purchase).1 ->
  purchaseOf store petId = Some first ->
  purchaseOf store' petId = Some first.
Proof. apply post_purchases_first. Qed.

Lemma reminders_stay_with_first_buyer_witness :
  purchaseOf
    {| petCollection := [ bella ];
       adoptionCollection := [];
       purchasesCollection :=
         purchaseDocuments
           (post_purchases hexObjectId "invalid id" (fun _ => None)
              "665f1c2e9b1d8a0012ab3601" shelter
              {| purchase_petId := "665f1c2e9b1d8a0012ab34cd";
                 buyerEmail := Some "later@example.com" |}).1;
       petQueryFails := false;
       adoptionQueryFails := fun _ => false;
       purchaseQueryFails := fun _ => false |}
    "665f1c2e9b1d8a0012ab34cd"
  = Some bellaPurchase.
Proof.
  apply (reminders_stay_with_first_buyer hexObjectId "invalid id"
           (fun _ => None) "665f1c2e9b1d8a0012ab3601" shelter
           {| purchase_petId := "665f1c2e9b1d8a0012ab34cd";
              buyerEmail := Some "later@example.com" |}
           bellaStore).
  - reflexivity.
  - reflexivity.
  - reflexivity.
Defined.
